(** * CryptaFix3: cost-basis engine, vault primitives and secure storage

    A shallow embedding of
    - [src/lib/cost-basis.ts]  (lot tracking, FIFO/LIFO/HIFO, year filter,
      unrealized gains),
    - [src/lib/cryptoVault.ts] ([encryptWithKey] / [decryptWithKey]),
    - [src/lib/storage.ts]     ([getSecureData], [setSecureData],
      [importBackupData]),
    together with the properties the specification states about them,
    and, beyond the specification, of
    - [src/lib/crypto-data.ts] ([calculateTaxFIFO]),
    - [src/lib/storage.ts]     (schemas and [normalizePersisted],
      [initializeSecureStorage], the encrypt-and-persist jobs,
      [clearAllData], the hidden and spam flags),
    - [src/lib/cryptoVault.ts] ([createVault], [unlockVault],
      [verifyVaultPassphrase], [encryptJson], [decryptJson]),
    - [src/lib/backup.ts]      ([restoreEncryptedBackup]),
    - [src/lib/apiKeyHash.ts]  ([hashApiKey]),
    with properties read off the code.

    Conventions of the embedding.
    - A JavaScript [number] is an exact rational ([Q]) in [CostBasis], where
      equality of numbers is [Qeq] ([==]); rounding, [NaN] and the
      infinities of IEEE doubles are outside that model.  Its lemmas about
      sums are lemmas of exact arithmetic; its theorems about the program
      state what finite doubles satisfy as well, each operation being the
      code's own, taken in the order of the code.  [CostBasis64] is the
      same engine on IEEE doubles (binary64); the code is evaluated there
      where rounding decides.
    - An object reference into an array is the position of the object in
      that array; in-place mutation of an object is [alter] at its position.
    - [Date.now()] and [Math.random()] are read from an explicit
      environment, one reading per lot creation.
    - WebCrypto, [btoa] / [atob], [TextEncoder] / [TextDecoder], [JSON] and
      the zod validators are parameters of the definitions that call
      them. *)

From Stdlib Require Import Ascii String QArith Lqa.
From Stdlib Require HexadecimalString.
From Stdlib Require Floats.
From stdpp Require Import base list strings gmap pretty sorting.

(** ** JavaScript helpers *)

Module Js.
(** [a < b] and [a <= b] on numbers. *)
Definition ltb (a b : Q) : bool := negb (Qle_bool b a).
Definition leb (a b : Q) : bool := Qle_bool a b.

(** [v || 0]: a falsy number (here: zero) is replaced by [0]. *)
Definition orZero (v : Q) : Q := if Qeq_bool v 0 then 0%Q else v.

(** [a || b] on numbers. *)
Definition orElse (a b : Q) : Q := if Qeq_bool a 0 then b else a.

(** [String.prototype.toUpperCase], on ASCII letters. *)
Definition upper_ascii (c : ascii) : ascii :=
  let n := nat_of_ascii c in
  if ((97 <=? n) && (n <=? 122))%nat then ascii_of_nat (n - 32) else c.

Fixpoint toUpperCase (s : string) : string :=
  match s with
  | EmptyString => EmptyString
  | String c s' => String (upper_ascii c) (toUpperCase s')
  end.

(** [String.prototype.substr(start, len)]. *)
Definition substr (start len : nat) (s : string) : string :=
  String.substring start len s.
End Js.

Module Math.
Definition min (a b : Q) : Q := if Qle_bool a b then a else b.
Definition max (a b : Q) : Q := if Qle_bool a b then b else a.
Definition abs (a : Q) : Q := if Qle_bool 0 a then a else (- a)%Q.
End Math.

Module Array.
Section Sort.
Context {A : Type} (cmp : A -> A -> Q).

(** [Array.prototype.sort(cmp)] is stable: an element stays in front of
    a later one unless the comparator puts it strictly after. *)
Fixpoint insert (x : A) (l : list A) : list A :=
  match l with
  | [] => [x]
  | y :: l' => if Qle_bool (cmp x y) 0 then x :: l else y :: insert x l'
  end.

Definition sort (l : list A) : list A := foldr insert [] l.
End Sort.

(** [Array.prototype.reduce((sum, x) => sum + f(x), 0)]. *)
Definition sumBy {A : Type} (f : A -> Q) (l : list A) : Q :=
  fold_left (fun sum x => (sum + f x)%Q) l 0%Q.
End Array.

(** A plain object used as a [Record<string, V>]: own properties in
    insertion order.  (An engine enumerates keys that are canonical array
    indices first; asset symbols and storage keys are not such keys.) *)
Module Dict.
Section Dict.
Context {V : Type}.

(** [o[key]] *)
Fixpoint get (key : string) (o : list (string * V)) : option V :=
  match o with
  | [] => None
  | (k, v) :: o' => if String.eqb k key then Some v else get key o'
  end.

(** [o[key] = v]: an existing property keeps its place, a new one goes
    to the end. *)
Fixpoint set (key : string) (v : V) (o : list (string * V)) : list (string * V) :=
  match o with
  | [] => [(key, v)]
  | (k, w) :: o' =>
      if String.eqb k key then (k, v) :: o' else (k, w) :: set key v o'
  end.
End Dict.
End Dict.

(** ** Cost basis: data model ([cost-basis.ts], [crypto-data.ts]) *)

Module CostBasis.
Local Open Scope Q_scope.

Inductive TxType := buy | sell | transfer | stake | airdrop.

Record Transaction := {
  tx_hash : string;
  tx_type : TxType;
  tx_asset : string;
  tx_amount : Q;
  tx_timestamp : Q;
  tx_valueEur : Q;
  tx_fee : Q;
  tx_feeEur : Q;
  tx_from : option string;
  tx_to : option string
}.

Inductive CostBasisMethod := FIFO | LIFO | HIFO.

Record CostBasisLot := {
  lot_id : string;
  lot_asset : string;
  lot_amount : Q;
  lot_remainingAmount : Q;
  lot_costPerUnit : Q;
  lot_totalCost : Q;
  lot_timestamp : Q;
  lot_txHash : string
}.

(** One entry of [SaleResult.lotsUsed]. *)
Record LotUse := {
  use_lotId : string;
  use_amountUsed : Q;
  use_costPerUnit : Q;
  use_cost : Q
}.

Record SaleResult := {
  sale_transaction : Transaction;
  sale_proceeds : Q;
  sale_costBasis : Q;
  sale_gainLoss : Q;
  sale_lotsUsed : list LotUse
}.

(** One entry of [unrealizedGains]. *)
Record Holding := {
  h_amount : Q;
  h_costBasis : Q;
  h_avgCost : Q
}.

(** The object returned by [calculateCostBasis].  A [Record<string, _>] is
    an association list in insertion order, as [Object.entries] and
    [Object.values] enumerate it. *)
Record CostBasisResult := {
  lots : list CostBasisLot;
  sales : list SaleResult;
  totalGains : Q;
  totalLosses : Q;
  netGain : Q;
  unrealizedGains : list (string * Holding)
}.

(** *** The hidden inputs of a run *)

(** What one lot creation reads from the host: [Date.now()] and the
    rendering [Math.random().toString(36)]. *)
Record Entropy := {
  Date_now : N;
  Math_random_36 : string
}.

(** The [k]-th lot creation of a run reads [env k]. *)
Definition Env := nat -> Entropy.

(** [`${tx.hash}-${Date.now()}-${Math.random().toString(36).substr(2, 5)}`] *)
Definition lotIdOf (hash : string) (e : Entropy) : string :=
  (hash +:+ "-" +:+ pretty (Date_now e) +:+ "-" +:+ Js.substr 2 5 (Math_random_36 e))%string.

(** ** Cost basis: the engine *)

(** Timestamps below [1e12] are taken to be seconds.  [tx.timestamp] is a
    [number] by its type, so the [typeof] test of the source always takes
    its first branch. *)
Definition normalizeTx (tx : Transaction) : Transaction :=
  {| tx_hash := tx_hash tx; tx_type := tx_type tx; tx_asset := tx_asset tx;
     tx_amount := tx_amount tx;
     tx_timestamp :=
       if Js.ltb (tx_timestamp tx) 1000000000000
       then tx_timestamp tx * 1000 else tx_timestamp tx;
     tx_valueEur := tx_valueEur tx; tx_fee := tx_fee tx;
     tx_feeEur := tx_feeEur tx; tx_from := tx_from tx; tx_to := tx_to tx |}.

Definition sortedTx (transactions : list Transaction) : list Transaction :=
  Array.sort (fun a b => tx_timestamp a - tx_timestamp b)
             (normalizeTx <$> transactions).

(** [getLotsForMethod]: the available lots in consumption order.  Each
    element is a reference (the position of the lot object in [lots])
    together with the lot as it is when the array is sorted; the sort keys
    [timestamp] and [costPerUnit] are never written after creation. *)
Definition availableLots (lots : list CostBasisLot) : list (nat * CostBasisLot) :=
  List.filter (fun rl : nat * CostBasisLot => Js.ltb 0 (lot_remainingAmount rl.2))
              (imap (fun i l => (i, l)) lots).

Definition getLotsForMethod (lots : list CostBasisLot) (m : CostBasisMethod)
  : list (nat * CostBasisLot) :=
  let available := availableLots lots in
  match m with
  | LIFO => Array.sort (fun a b => lot_timestamp b.2 - lot_timestamp a.2) available
  | HIFO => Array.sort (fun a b => lot_costPerUnit b.2 - lot_costPerUnit a.2) available
  | FIFO => Array.sort (fun a b => lot_timestamp a.2 - lot_timestamp b.2) available
  end.

(** [originalLot.remainingAmount -= amountFromThisLot] *)
Definition takeFromLot (amountFromThisLot : Q) (l : CostBasisLot) : CostBasisLot :=
  {| lot_id := lot_id l; lot_asset := lot_asset l; lot_amount := lot_amount l;
     lot_remainingAmount := lot_remainingAmount l - amountFromThisLot;
     lot_costPerUnit := lot_costPerUnit l; lot_totalCost := lot_totalCost l;
     lot_timestamp := lot_timestamp l; lot_txHash := lot_txHash l |}.

(** The variables the [for (const lot of orderedLots)] loop updates. *)
Record SellAcc := {
  acc_lots : list CostBasisLot;
  acc_remainingToSell : Q;
  acc_totalCostBasis : Q;
  acc_lotsUsed : list LotUse
}.

(** The loop reads [lot.remainingAmount] through the reference, so it sees
    what earlier iterations wrote. *)
Fixpoint consumeLots (orderedLots : list (nat * CostBasisLot)) (acc : SellAcc)
  : SellAcc :=
  match orderedLots with
  | [] => acc
  | (r, _) :: rest =>
      if Js.leb (acc_remainingToSell acc) 0 then acc (* break *)
      else
        match acc_lots acc !! r with
        | None => consumeLots rest acc
        | Some lot =>
            if Js.leb (lot_remainingAmount lot) 0 then consumeLots rest acc (* continue *)
            else
              let amountFromThisLot :=
                Math.min (lot_remainingAmount lot) (acc_remainingToSell acc) in
              let costFromThisLot := amountFromThisLot * lot_costPerUnit lot in
              let lots' :=
                match list_find (fun l => lot_id l = lot_id lot) (acc_lots acc) with
                | Some (j, _) => alter (takeFromLot amountFromThisLot) j (acc_lots acc)
                | None => acc_lots acc
                end in
              consumeLots rest
                {| acc_lots := lots';
                   acc_remainingToSell := acc_remainingToSell acc - amountFromThisLot;
                   acc_totalCostBasis := acc_totalCostBasis acc + costFromThisLot;
                   acc_lotsUsed :=
                     acc_lotsUsed acc ++
                     [{| use_lotId := lot_id lot;
                         use_amountUsed := amountFromThisLot;
                         use_costPerUnit := lot_costPerUnit lot;
                         use_cost := costFromThisLot |}] |}
        end
  end.

(** The [sell] branch on the lot array of the asset: the updated array and
    the sale pushed to [sales]. *)
Definition sellLots (method : CostBasisMethod) (tx : Transaction)
  (lots : list CostBasisLot) : list CostBasisLot * SaleResult :=
  let orderedLots := getLotsForMethod lots method in
  let acc := consumeLots orderedLots
               {| acc_lots := lots; acc_remainingToSell := tx_amount tx;
                  acc_totalCostBasis := 0; acc_lotsUsed := [] |} in
  let proceeds := tx_valueEur tx in
  let gainLoss := proceeds - acc_totalCostBasis acc in
  (acc_lots acc,
   {| sale_transaction := tx; sale_proceeds := proceeds;
      sale_costBasis := acc_totalCostBasis acc; sale_gainLoss := gainLoss;
      sale_lotsUsed := acc_lotsUsed acc |}).

(** The lot an acquisition pushes. *)
Definition newLot (e : Entropy) (asset : string) (tx : Transaction) : CostBasisLot :=
  let effectiveValueEur := Js.orZero (tx_valueEur tx) in
  let costPerUnit :=
    if Js.ltb 0 (tx_amount tx) then effectiveValueEur / tx_amount tx else 0 in
  {| lot_id := lotIdOf (tx_hash tx) e; lot_asset := asset;
     lot_amount := tx_amount tx; lot_remainingAmount := tx_amount tx;
     lot_costPerUnit := costPerUnit; lot_totalCost := effectiveValueEur;
     lot_timestamp := tx_timestamp tx; lot_txHash := tx_hash tx |}.

(** The variables of [calculateCostBasis] its main loop updates, and the
    number of environment readings made so far. *)
Record Engine := {
  lotsByAsset : list (string * list CostBasisLot);
  eng_sales : list SaleResult;
  eng_totalGains : Q;
  eng_totalLosses : Q;
  eng_readings : nat
}.

Definition initEngine : Engine :=
  {| lotsByAsset := []; eng_sales := []; eng_totalGains := 0;
     eng_totalLosses := 0; eng_readings := 0%nat |}.

(** One iteration of [for (const tx of sortedTx)]. *)
Definition step (env : Env) (method : CostBasisMethod) (st : Engine)
  (tx : Transaction) : Engine :=
  let asset := Js.toUpperCase (tx_asset tx) in
  match tx_type tx with
  | buy | airdrop | transfer =>
      let old := default [] (Dict.get asset (lotsByAsset st)) in
      {| lotsByAsset :=
           Dict.set asset (old ++ [newLot (env (eng_readings st)) asset tx])
                     (lotsByAsset st);
         eng_sales := eng_sales st;
         eng_totalGains := eng_totalGains st;
         eng_totalLosses := eng_totalLosses st;
         eng_readings := S (eng_readings st) |}
  | sell =>
      let lots := default [] (Dict.get asset (lotsByAsset st)) in
      let '(lots', sale) := sellLots method tx lots in
      let gainLoss := sale_gainLoss sale in
      {| lotsByAsset :=
           match Dict.get asset (lotsByAsset st) with
           | Some _ => Dict.set asset lots' (lotsByAsset st)
           | None => lotsByAsset st
           end;
         eng_sales := eng_sales st ++ [sale];
         eng_totalGains :=
           if Js.ltb 0 gainLoss then eng_totalGains st + gainLoss
           else eng_totalGains st;
         eng_totalLosses :=
           if Js.ltb 0 gainLoss then eng_totalLosses st
           else eng_totalLosses st + Math.abs gainLoss;
         eng_readings := eng_readings st |}
  | stake => st
  end.

(** The entry of [unrealizedGains] for one asset, if it holds anything. *)
Definition holdingOf (lots : list CostBasisLot) : option Holding :=
  let remainingLots := List.filter (fun l => Js.ltb 0 (lot_remainingAmount l)) lots in
  let totalAmount := Array.sumBy lot_remainingAmount remainingLots in
  let totalCostBasis :=
    Array.sumBy (fun l => lot_remainingAmount l * lot_costPerUnit l) remainingLots in
  if Js.ltb 0 totalAmount
  then Some {| h_amount := totalAmount; h_costBasis := totalCostBasis;
               h_avgCost := totalCostBasis / totalAmount |}
  else None.

Definition finish (st : Engine) : CostBasisResult :=
  {| lots := concat (lotsByAsset st).*2;
     sales := eng_sales st;
     totalGains := eng_totalGains st;
     totalLosses := eng_totalLosses st;
     netGain := eng_totalGains st - eng_totalLosses st;
     unrealizedGains :=
       omap (fun kv : string * list CostBasisLot =>
               match holdingOf kv.2 with
               | Some h => Some (kv.1, h)
               | None => None
               end) (lotsByAsset st) |}.

Definition run (env : Env) (method : CostBasisMethod) (txs : list Transaction)
  : Engine :=
  fold_left (step env method) txs initEngine.

Definition calculateCostBasis (env : Env) (transactions : list Transaction)
  (method : CostBasisMethod) : CostBasisResult :=
  finish (run env method (sortedTx transactions)).

Definition calculateCostBasisFIFO (env : Env) (transactions : list Transaction)
  : CostBasisResult :=
  calculateCostBasis env transactions FIFO.

(** *** Year filter *)

Record YearResult := {
  yr_totalGains : Q;
  yr_totalLosses : Q;
  yr_netGain : Q;
  taxableEvents : list SaleResult
}.

(** [getFullYear] stands for [ms => new Date(ms).getFullYear()], which reads
    the host's time zone. *)
Definition filterTaxResultsByYear (getFullYear : Q -> Q)
  (result : CostBasisResult) (year : Q) : YearResult :=
  let taxableEvents :=
    List.filter
      (fun sale =>
         let saleYear := getFullYear (tx_timestamp (sale_transaction sale)) in
         Qeq_bool saleYear year)
      (sales result) in
  let totalGains :=
    Array.sumBy (fun s => Math.max 0 (sale_gainLoss s)) taxableEvents in
  let totalLosses :=
    Array.sumBy (fun s => Math.abs (Math.min 0 (sale_gainLoss s))) taxableEvents in
  {| yr_totalGains := totalGains; yr_totalLosses := totalLosses;
     yr_netGain := totalGains - totalLosses; taxableEvents := taxableEvents |}.

(** What [filterTaxResultsByYear] can be handed at run time, where the
    types are erased: an object with a [sales] array, as
    [calculateCostBasis] returns, or the object [filterTaxResultsByYear]
    itself returns, which has [taxableEvents] and no [sales]. *)
Inductive FilterArgument :=
| ofCostBasis (result : CostBasisResult)
| ofYearFilter (filtered : YearResult).

(** How a call of [filterTaxResultsByYear] ends. *)
Inductive FilterOutcome :=
| Filtered (y : YearResult)
| TypeError.   (* [result.sales] is [undefined], and [undefined.filter] throws *)

(** [filterTaxResultsByYear] on whatever it is handed. *)
Definition filterTaxResultsByYearOn (getFullYear : Q -> Q)
  (result : FilterArgument) (year : Q) : FilterOutcome :=
  match result with
  | ofCostBasis r => Filtered (filterTaxResultsByYear getFullYear r year)
  | ofYearFilter _ => TypeError
  end.

(** A result with other sales. *)
Definition withSales (r : CostBasisResult) (sales' : list SaleResult) : CostBasisResult :=
  {| lots := lots r; sales := sales';
     totalGains := totalGains r; totalLosses := totalLosses r;
     netGain := netGain r; unrealizedGains := unrealizedGains r |}.

(** *** Unrealized gains at current prices *)

Record AssetGain := {
  ag_amount : Q;
  ag_costBasis : Q;
  ag_currentValue : Q;
  ag_unrealizedGainLoss : Q
}.

Record UnrealizedResult := {
  totalUnrealizedGain : Q;
  totalUnrealizedLoss : Q;
  byAsset : list (string * AssetGain)
}.

(** [currentPrices[asset] || currentPrices[asset.toUpperCase()] || 0], read
    on the own properties of [currentPrices]; a missing price is
    [undefined], which is falsy like [0].  (Under a symbol that names a
    property of [Object.prototype], such as [constructor], the lookup of
    the source finds that property instead: see
    [CostBasisNotions.plainSymbol].) *)
Definition currentPriceOf (currentPrices : list (string * Q)) (asset : string) : Q :=
  Js.orElse
    (Js.orElse (default 0 (Dict.get asset currentPrices))
               (default 0 (Dict.get (Js.toUpperCase asset) currentPrices)))
    0.

(** The body of the loop up to the assignment to [byAsset[asset]]. *)
Definition assetGainOf (currentPrices : list (string * Q)) (asset : string)
  (data : Holding) : AssetGain :=
  let currentPrice := currentPriceOf currentPrices asset in
  let currentValue := h_amount data * currentPrice in
  let unrealizedGainLoss := currentValue - h_costBasis data in
  let unrealizedGainLoss :=
    if Qeq_bool (h_costBasis data) 0 || Js.ltb (h_costBasis data) (1 # 100)
    then 0
    else if Js.ltb currentValue unrealizedGainLoss
         then currentValue * (1 # 2)
         else unrealizedGainLoss in
  {| ag_amount := h_amount data; ag_costBasis := h_costBasis data;
     ag_currentValue := currentValue;
     ag_unrealizedGainLoss := unrealizedGainLoss |}.

Definition unrealizedStep (currentPrices : list (string * Q))
  (acc : UnrealizedResult) (entry : string * Holding) : UnrealizedResult :=
  let '(asset, data) := entry in
  let g := assetGainOf currentPrices asset data in
  let unrealizedGainLoss := ag_unrealizedGainLoss g in
  {| byAsset := Dict.set asset g (byAsset acc);
     totalUnrealizedGain :=
       if Js.ltb 0 unrealizedGainLoss
       then totalUnrealizedGain acc + unrealizedGainLoss
       else totalUnrealizedGain acc;
     totalUnrealizedLoss :=
       if Js.ltb 0 unrealizedGainLoss
       then totalUnrealizedLoss acc
       else totalUnrealizedLoss acc + Math.abs unrealizedGainLoss |}.

Definition calculateUnrealizedGains (unrealizedGains : list (string * Holding))
  (currentPrices : list (string * Q)) : UnrealizedResult :=
  fold_left (unrealizedStep currentPrices) unrealizedGains
    {| totalUnrealizedGain := 0; totalUnrealizedLoss := 0; byAsset := [] |}.

(** *** Auxiliary notions used to state the properties *)

Definition isAcquisition (tx : Transaction) : bool :=
  match tx_type tx with
  | buy | airdrop | transfer => true
  | _ => false
  end.

Definition isDisposal (tx : Transaction) : bool :=
  match tx_type tx with
  | sell => true
  | _ => false
  end.

(** Total amount acquired, and total amount disposed of, in a history. *)
Definition acquired (txs : list Transaction) : Q :=
  Array.sumBy tx_amount (List.filter isAcquisition txs).

Definition disposed (txs : list Transaction) : Q :=
  Array.sumBy tx_amount (List.filter isDisposal txs).

(** No sale, taken in processing order, exceeds what is held when it is
    processed; [held] is the amount held before the first transaction. *)
Fixpoint coveredFrom (held : Q) (txs : list Transaction) : bool :=
  match txs with
  | [] => true
  | tx :: rest =>
      match tx_type tx with
      | buy | airdrop | transfer => coveredFrom (held + tx_amount tx) rest
      | sell => Js.leb (tx_amount tx) held && coveredFrom (held - tx_amount tx) rest
      | stake => coveredFrom held rest
      end
  end.



Definition nonNegativeAmounts (transactions : list Transaction) : bool :=
  forallb (fun tx => Js.leb 0 (tx_amount tx)) transactions.

(** The identifiers generated for the lots of a result are pairwise
    distinct. *)
Definition distinctLotIds (lots : list CostBasisLot) : Prop :=
  NoDup (lot_id <$> lots).


(** The identifiers of all lots of an engine state. *)
Definition idsOf (st : Engine) : list string :=
  lot_id <$> concat (lotsByAsset st).*2.

(** A result with the generated identifiers blanked out. *)
Definition forgetLotId (l : CostBasisLot) : CostBasisLot :=
  {| lot_id := EmptyString; lot_asset := lot_asset l; lot_amount := lot_amount l;
     lot_remainingAmount := lot_remainingAmount l;
     lot_costPerUnit := lot_costPerUnit l; lot_totalCost := lot_totalCost l;
     lot_timestamp := lot_timestamp l; lot_txHash := lot_txHash l |}.

Definition forgetUseId (u : LotUse) : LotUse :=
  {| use_lotId := EmptyString; use_amountUsed := use_amountUsed u;
     use_costPerUnit := use_costPerUnit u; use_cost := use_cost u |}.

Definition forgetSaleIds (s : SaleResult) : SaleResult :=
  {| sale_transaction := sale_transaction s; sale_proceeds := sale_proceeds s;
     sale_costBasis := sale_costBasis s; sale_gainLoss := sale_gainLoss s;
     sale_lotsUsed := forgetUseId <$> sale_lotsUsed s |}.

Definition forgetIds (r : CostBasisResult) : CostBasisResult :=
  {| lots := forgetLotId <$> lots r;
     sales := forgetSaleIds <$> sales r;
     totalGains := totalGains r; totalLosses := totalLosses r;
     netGain := netGain r; unrealizedGains := unrealizedGains r |}.

(** The same blanking on the states of the sell loop and of the engine. *)
Definition forgetRef (rl : nat * CostBasisLot) : nat * CostBasisLot :=
  (rl.1, forgetLotId rl.2).

Definition forgetAcc (acc : SellAcc) : SellAcc :=
  {| acc_lots := forgetLotId <$> acc_lots acc;
     acc_remainingToSell := acc_remainingToSell acc;
     acc_totalCostBasis := acc_totalCostBasis acc;
     acc_lotsUsed := forgetUseId <$> acc_lotsUsed acc |}.

Definition forgetEntry (kv : string * list CostBasisLot) : string * list CostBasisLot :=
  (kv.1, forgetLotId <$> kv.2).

Definition forgetEngine (st : Engine) : Engine :=
  {| lotsByAsset := forgetEntry <$> lotsByAsset st;
     eng_sales := forgetSaleIds <$> eng_sales st;
     eng_totalGains := eng_totalGains st;
     eng_totalLosses := eng_totalLosses st;
     eng_readings := eng_readings st |}.

(** The method's order on lots. *)
Definition precedes (m : CostBasisMethod) (a b : CostBasisLot) : Prop :=
  match m with
  | FIFO => lot_timestamp a <= lot_timestamp b
  | LIFO => lot_timestamp b <= lot_timestamp a
  | HIFO => lot_costPerUnit b <= lot_costPerUnit a
  end.

(** The entry of [lotsUsed] that takes [amount] from [lot]. *)
Definition useOf (lot : CostBasisLot) (amount : Q) : LotUse :=
  {| use_lotId := lot_id lot; use_amountUsed := amount;
     use_costPerUnit := lot_costPerUnit lot;
     use_cost := amount * lot_costPerUnit lot |}.

(** The sell loop with the write made through the reference itself instead
    of through [lots.find(l => l.id === lot.id)].  The two loops agree when
    no two lots of the array share an identifier
    ([consumeLots_consumeAt]). *)
Definition takeAt (r : nat) (lot : CostBasisLot) (acc : SellAcc) : SellAcc :=
  let amountFromThisLot :=
    Math.min (lot_remainingAmount lot) (acc_remainingToSell acc) in
  {| acc_lots := alter (takeFromLot amountFromThisLot) r (acc_lots acc);
     acc_remainingToSell := acc_remainingToSell acc - amountFromThisLot;
     acc_totalCostBasis :=
       acc_totalCostBasis acc + amountFromThisLot * lot_costPerUnit lot;
     acc_lotsUsed := acc_lotsUsed acc ++ [useOf lot amountFromThisLot] |}.

Fixpoint consumeAt (orderedLots : list (nat * CostBasisLot)) (acc : SellAcc)
  : SellAcc :=
  match orderedLots with
  | [] => acc
  | (r, _) :: rest =>
      if Js.leb (acc_remainingToSell acc) 0 then acc
      else
        match acc_lots acc !! r with
        | None => consumeAt rest acc
        | Some lot =>
            if Js.leb (lot_remainingAmount lot) 0 then consumeAt rest acc
            else consumeAt rest (takeAt r lot acc)
        end
  end.

(** What is held in the lots the references point to. *)
Definition heldIn (lots : list CostBasisLot) (refs : list (nat * CostBasisLot)) : Q :=
  Array.sumBy (fun rl : nat * CostBasisLot =>
                 default 0 (lot_remainingAmount <$> lots !! rl.1)) refs.

(** [u] records a consumption from the lot that [rl] refers to. *)
Definition takenFrom (u : LotUse) (rl : nat * CostBasisLot) : Prop :=
  use_lotId u = lot_id rl.2 /\
  use_costPerUnit u = lot_costPerUnit rl.2 /\
  0 < use_amountUsed u <= lot_remainingAmount rl.2.

(** The total amount available for a sale in a lot array. *)
Definition availableAmount (lots : list CostBasisLot) : Q :=
  Array.sumBy lot_remainingAmount
    (List.filter (fun l => Js.ltb 0 (lot_remainingAmount l)) lots).

(** Holdings and prices for the unrealized-gain scenarios. *)
Definition someHoldings : list (string * Holding) :=
  [ ("BTC", {| h_amount := 2; h_costBasis := 40000; h_avgCost := 20000 |});
    ("SOL", {| h_amount := 5; h_costBasis := 0; h_avgCost := 0 |});
    ("ETH", {| h_amount := 1; h_costBasis := 3000; h_avgCost := 3000 |}) ].

Definition somePrices : list (string * Q) :=
  [ ("BTC", 30000); ("SOL", 100); ("ETH", 2500) ].

(** *** Histories used as scenarios *)

Definition mkTx (hash : string) (type : TxType) (asset : string)
  (amount timestamp valueEur : Q) : Transaction :=
  {| tx_hash := hash; tx_type := type; tx_asset := asset; tx_amount := amount;
     tx_timestamp := timestamp; tx_valueEur := valueEur; tx_fee := 0;
     tx_feeEur := 0; tx_from := None; tx_to := None |}.

(** A host whose clock stands still and whose random generator counts. *)
Definition countingEnv : Env :=
  fun k => {| Date_now := 1767225600000;
              Math_random_36 := ("0." +:+ pretty k +:+ "k3x9qz7")%string |}.

(** The same host one millisecond later. *)
Definition laterEnv : Env :=
  fun k => {| Date_now := 1767225600001;
              Math_random_36 := ("0." +:+ pretty k +:+ "k3x9qz7")%string |}.

(** A host whose clock and random generator always answer the same. *)
Definition stuckEnv : Env :=
  fun _ => {| Date_now := 1767225600000; Math_random_36 := "0.4fzyo82mvyr" |}.

(** Lots costing 30, 10 and 20 bought in that order, then two units sold. *)
Definition threeLots : list Transaction :=
  [ mkTx "0xa1" buy "ETH" 1 1700000000 30;
    mkTx "0xa2" buy "ETH" 1 1700000100 10;
    mkTx "0xa3" buy "eth" 1 1700000200 20;
    mkTx "0xa4" sell "ETH" 2 1700000300 100 ].



(** Two purchases recorded under one transaction hash, then both sold. *)
Definition sameHashTwice : list Transaction :=
  [ mkTx "0xc1" buy "ETH" 1 1700000000 10;
    mkTx "0xc1" buy "ETH" 1 1700000100 20;
    mkTx "0xc2" sell "ETH" 2 1700000200 50 ].

Definition costsUsed (r : CostBasisResult) : list (list Q) :=
  (fun s => (fun u => Qred (use_costPerUnit u)) <$> sale_lotsUsed s) <$> sales r.

End CostBasis.

(** ** JSON values and thrown errors *)

#[warnings="-register-all"]
Inductive Json :=
| JNull
| JBool (b : bool)
| JNumber (q : Q)
| JString (s : string)
| JArray (items : list Json)
| JObject (fields : list (string * Json)).

Module JsValue.
(** [!!v] *)
Definition truthy (v : Json) : bool :=
  match v with
  | JNull => false
  | JBool b => b
  | JNumber q => negb (Qeq_bool q 0)
  | JString s => negb (String.eqb s EmptyString)
  | JArray _ | JObject _ => true
  end.

(** [v.name] on a value that is neither [null] nor [undefined];
    [None] is [undefined]. *)
Definition prop (name : string) (v : Json) : option Json :=
  match v with
  | JObject fields => Dict.get name fields
  | _ => None
  end.

(** [x ?? d] *)
Definition nullish (x : option Json) (d : Json) : Json :=
  match x with
  | None | Some JNull => d
  | Some v => v
  end.

(** [x === n] for a number literal [n]. *)
Definition isNumber (n : Q) (x : option Json) : bool :=
  match x with
  | Some (JNumber q) => Qeq_bool q n
  | _ => false
  end.
End JsValue.

Inductive Exception :=
| VaultLockedError
| VaultCryptoError (message : string)
| Error (message : string)
| OperationError          (* rejection of [crypto.subtle.decrypt] *)
| InvalidCharacterError   (* thrown by [atob] *)
| SyntaxError.            (* thrown by [JSON.parse] *)

(** How a call ends.  An [async] function is modelled by the way its
    promise settles: [Returned] for fulfilment, [Thrown] for rejection. *)
Inductive Outcome (A : Type) :=
| Returned (a : A)
| Thrown (e : Exception).
Arguments Returned {A} a.
Arguments Thrown {A} e.

(** ** The vault ([cryptoVault.ts]) *)

Module CryptoVault.

Record VaultMetaV1 := {
  meta_salt : string;
  meta_iterations : Q
}.

Record EncryptedPayloadV1 := {
  payload_iv : string;
  payload_ct : string
}.

Section Vault.
(** What the platform provides: WebCrypto's AES-GCM on an opaque
    [CryptoKey], [btoa] / [atob], [TextEncoder] / [TextDecoder] and
    [JSON]. *)
Context {CryptoKey : Type}.
Context (AES_GCM_encrypt : CryptoKey -> list Byte.byte -> list Byte.byte -> list Byte.byte).
Context (AES_GCM_decrypt : CryptoKey -> list Byte.byte -> list Byte.byte -> option (list Byte.byte)).
Context (btoa : string -> string) (atob : string -> option string).
Context (TextEncoder_encode : string -> list Byte.byte).
Context (TextDecoder_decode : list Byte.byte -> string).
Context (JSON_stringify : Json -> string) (JSON_parse : string -> option Json).

Record UnlockedVault := {
  vault_meta : VaultMetaV1;
  vault_key : CryptoKey
}.

(** A binary string has one character per byte. *)
Definition b64encode (bytes : list Byte.byte) : string :=
  btoa (string_of_list_byte bytes).

Definition b64decode (b64 : string) : Outcome (list Byte.byte) :=
  match atob b64 with
  | Some binary => Returned (list_byte_of_string binary)
  | None => Thrown InvalidCharacterError
  end.

(** [iv] is the result of [getRandomBytes(12)]. *)
Definition encryptWithKey (iv : list Byte.byte) (data : Json) (vault : UnlockedVault)
  : EncryptedPayloadV1 :=
  let plaintext := TextEncoder_encode (JSON_stringify data) in
  let ctBuf := AES_GCM_encrypt (vault_key vault) iv plaintext in
  {| payload_iv := b64encode iv; payload_ct := b64encode ctBuf |}.

Definition decryptWithKey (payload : EncryptedPayloadV1) (vault : UnlockedVault)
  : Outcome Json :=
  match b64decode (payload_iv payload) with
  | Thrown e => Thrown e
  | Returned iv =>
      match b64decode (payload_ct payload) with
      | Thrown e => Thrown e
      | Returned ct =>
          match AES_GCM_decrypt (vault_key vault) iv ct with
          | None => Thrown OperationError
          | Some ptBuf =>
              match JSON_parse (TextDecoder_decode ptBuf) with
              | Some v => Returned v
              | None => Thrown SyntaxError
              end
          end
      end
  end.

(** The payload survives [JSON.stringify] followed by [JSON.parse]. *)
Definition jsonSerializable (p : Json) : Prop :=
  JSON_parse (JSON_stringify p) = Some p.
End Vault.

Arguments UnlockedVault : clear implicits.

(** A platform small enough to compute with: the cipher puts the key in
    front of the plaintext and checks it on the way back. *)
Module Toy.
Definition encrypt (k : Byte.byte) (iv pt : list Byte.byte) : list Byte.byte :=
  k :: pt.

Definition decrypt (k : Byte.byte) (iv ct : list Byte.byte) : option (list Byte.byte) :=
  match ct with
  | t :: pt => if Byte.eqb t k then Some pt else None
  | [] => None
  end.

Definition btoa (s : string) : string := s.
Definition atob (s : string) : option string := Some s.
Definition stringify (v : Json) : string := "null".
Definition parse (s : string) : option Json := Some JNull.

Definition vault (k : Byte.byte) : UnlockedVault Byte.byte :=
  {| vault_meta := {| meta_salt := "c2FsdA=="; meta_iterations := 210000 |};
     vault_key := k |}.
End Toy.

End CryptoVault.

(** ** Secure storage ([storage.ts]) *)

Module Storage.

Module STORAGE_KEYS.
Definition WALLETS : string := "crypta_wallets".
Definition TRANSACTIONS : string := "crypta_transactions".
Definition SNAPSHOTS : string := "crypta_snapshots".
Definition SETTINGS : string := "crypta_settings".
Definition ONBOARDING_COMPLETE : string := "crypta_onboarding".
Definition HIDDEN_ASSETS : string := "crypta_hidden_assets".
Definition SPAM_ASSETS : string := "crypta_spam_assets".
Definition PROVIDER_CONFIGS : string := "crypta_provider_configs".
End STORAGE_KEYS.

Definition ENCRYPTED_KEYS : list string :=
  [ STORAGE_KEYS.WALLETS; STORAGE_KEYS.TRANSACTIONS;
    STORAGE_KEYS.SNAPSHOTS; STORAGE_KEYS.PROVIDER_CONFIGS ].

(** [SCHEMA_VERSIONS] gives 1 for every kind, and so does the [default]
    branch of [getSchemaInfo]. *)
Definition schemaVersionOf (key : string) : Q := 1.

Definition wrapVersioned (key : string) (data : Json) : Json :=
  JObject [("schemaVersion", JNumber (schemaVersionOf key)); ("data", data)].

Definition DEFAULT_SETTINGS : Json :=
  JObject [ ("taxMethod", JString "FIFO"); ("country", JString "IT");
            ("currency", JString "EUR"); ("taxThreshold", JNumber (5164569 # 100));
            ("enableDAC8Alerts", JBool true); ("useSubstituteTax2025", JBool false);
            ("lossCompensationYears", JNumber 4); ("autoLockEnabled", JBool true);
            ("autoLockMinutes", JNumber 15) ].

Section Storage.
Context {CryptoKey : Type}.
Context (JSON_stringify : Json -> string) (JSON_parse : string -> option Json).
(** [settingsSchema.safeParse]: the validated data, if the value conforms. *)
Context (settingsSchema_safeParse : Json -> option Json).

(** The module state ([_vault], [_secureCache]), the browser's
    [localStorage], and the encrypt-and-persist jobs that have been
    started and have not yet written: each holds the key, the versioned
    value and the vault it encrypts with. *)
Record World := {
  _vault : option (CryptoVault.UnlockedVault CryptoKey);
  _secureCache : gmap string Json;
  localStorage : gmap string string;
  pendingWrites : list (string * Json * CryptoVault.UnlockedVault CryptoKey)
}.

Definition isVaultReady (w : World) : bool :=
  match _vault w with
  | Some _ => true
  | None => false
  end.

Definition isEncryptedKey (key : string) : bool :=
  existsb (String.eqb key) ENCRYPTED_KEYS.

(** [localStorage.setItem(key, value)] *)
Definition setItem (key value : string) (w : World) : World :=
  {| _vault := _vault w; _secureCache := _secureCache w;
     localStorage := <[key := value]> (localStorage w);
     pendingWrites := pendingWrites w |}.

Definition clearSecureStorage (w : World) : World :=
  {| _vault := None; _secureCache := ∅;
     localStorage := localStorage w; pendingWrites := pendingWrites w |}.

(** [getSecureData]; what it logs is not modelled. *)
Definition getSecureData (key : string) (defaultValue : Json) (w : World)
  : Outcome Json :=
  match localStorage w !! key with
  | None => Returned defaultValue
  | Some raw =>
      if String.eqb raw EmptyString then Returned defaultValue
      else if isEncryptedKey key then
        if negb (isVaultReady w) then Thrown VaultLockedError
        else
          match _secureCache w !! key with
          | Some v => Returned v
          | None => Returned defaultValue
          end
      else
        match JSON_parse raw with
        | Some v => Returned v
        | None => Returned defaultValue
        end
  end.

(** [setSecureData] *)
Definition setSecureData (key : string) (data : Json) (w : World)
  : Outcome unit * World :=
  if isEncryptedKey key then
    match _vault w with
    | None => (Thrown VaultLockedError, w)
    | Some vault =>
        (Returned tt,
         {| _vault := _vault w;
            _secureCache := <[key := data]> (_secureCache w);
            localStorage := localStorage w;
            pendingWrites :=
              pendingWrites w ++ [(key, wrapVersioned key data, vault)] |})
    end
  else (Returned tt, setItem key (JSON_stringify data) w).

Definition saveSettings (settings : Json) (w : World) : World :=
  let finalSettings :=
    match settingsSchema_safeParse settings with
    | Some data => data
    | None => DEFAULT_SETTINGS
    end in
  setItem STORAGE_KEYS.SETTINGS
    (JSON_stringify
       (JObject [("schemaVersion", JNumber 1); ("data", finalSettings)])) w.

(** Statements in sequence: a throw ends the sequence and leaves the
    state as it is at the throw. *)
Definition andThen (c : World -> Outcome unit * World)
  (k : World -> Outcome unit * World) (w : World) : Outcome unit * World :=
  match c w with
  | (Returned _, w') => k w'
  | (Thrown e, w') => (Thrown e, w')
  end.

Definition importBackupData (backup : Json) (w : World) : Outcome unit * World :=
  if negb (JsValue.truthy backup)
     || negb (JsValue.isNumber 1 (JsValue.prop "v" backup))
  then (Thrown (Error "Backup non supportato"), w)
  else
    let field name d := JsValue.nullish (JsValue.prop name backup) d in
    andThen (setSecureData STORAGE_KEYS.WALLETS (field "wallets" (JArray [])))
    (andThen (setSecureData STORAGE_KEYS.TRANSACTIONS (field "transactions" (JArray [])))
    (andThen (setSecureData STORAGE_KEYS.SNAPSHOTS (field "snapshots" (JArray [])))
    (andThen (setSecureData STORAGE_KEYS.PROVIDER_CONFIGS (field "providerConfigs" (JArray [])))
    (fun w =>
       let w := saveSettings (field "settings" DEFAULT_SETTINGS) w in
       let w := setItem STORAGE_KEYS.ONBOARDING_COMPLETE
                  (if match JsValue.prop "onboardingComplete" backup with
                      | Some v => JsValue.truthy v
                      | None => false
                      end
                   then "true" else "false") w in
       let w := setItem STORAGE_KEYS.HIDDEN_ASSETS
                  (JSON_stringify (field "hiddenAssets" (JArray []))) w in
       let w := setItem STORAGE_KEYS.SPAM_ASSETS
                  (JSON_stringify (field "spamAssets" (JArray []))) w in
       (Returned tt, w))))) w.

(** The version tag of a backup object is the number 1. *)
Definition hasVersion1 (backup : Json) : Prop :=
  exists fields q,
    backup = JObject fields /\ Dict.get "v" fields = Some (JNumber q) /\ (q == 1)%Q.

(** A world in which nothing has been stored and no vault is unlocked. *)
Definition freshWorld : World :=
  {| _vault := None; _secureCache := ∅; localStorage := ∅; pendingWrites := [] |}.

(** A locked world that holds an encrypted blob under [key]. *)
Definition lockedWorldWith (key raw : string) : World :=
  {| _vault := None; _secureCache := ∅;
     localStorage := {[ key := raw ]}; pendingWrites := [] |}.
End Storage.

Arguments World : clear implicits.

End Storage.

(** ** Tax report for a year ([crypto-data.ts]) *)

Module CryptoData.
Import CostBasis.

Record TaxReport := {
  rep_totalGains : Q;
  rep_totalLosses : Q;
  rep_netGain : Q;
  rep_taxableEvents : list Transaction
}.

(** [calculateTaxFIFO] *)
Definition calculateTaxFIFO (getFullYear : Q -> Q) (env : Env)
  (transactions : list Transaction) (year : Q) : TaxReport :=
  let result := calculateCostBasisFIFO env transactions in
  let yearFiltered := filterTaxResultsByYear getFullYear result year in
  {| rep_totalGains := yr_totalGains yearFiltered;
     rep_totalLosses := yr_totalLosses yearFiltered;
     rep_netGain := yr_netGain yearFiltered;
     rep_taxableEvents := sale_transaction <$> taxableEvents yearFiltered |}.

End CryptoData.

(** ** Further notions about the cost-basis engine *)

Module CostBasisNotions.
Import CostBasis.
Local Open Scope Q_scope.

(** The lot an acquisition creates, its identifier left blank. *)
Definition createdLot (tx : Transaction) : CostBasisLot :=
  forgetLotId
    (newLot {| Date_now := 0; Math_random_36 := EmptyString |}
            (Js.toUpperCase (tx_asset tx)) tx).

(** A lot as it was when created, its identifier left blank. *)
Definition asCreated (l : CostBasisLot) : CostBasisLot :=
  {| lot_id := EmptyString; lot_asset := lot_asset l; lot_amount := lot_amount l;
     lot_remainingAmount := lot_amount l;
     lot_costPerUnit := lot_costPerUnit l; lot_totalCost := lot_totalCost l;
     lot_timestamp := lot_timestamp l; lot_txHash := lot_txHash l |}.

Definition isStake (tx : Transaction) : bool :=
  match tx_type tx with
  | stake => true
  | _ => false
  end.

(** All lots of an engine state, as [Object.values(lotsByAsset).flat()]. *)
Definition allLots (st : Engine) : list CostBasisLot :=
  concat (lotsByAsset st).*2.

(** The lot array of the asset of [tx] after [tx] has been processed, from
    the array [L] before. *)
Definition lotsAfter (env : Env) (m : CostBasisMethod) (st : Engine)
  (tx : Transaction) (L : list CostBasisLot) : list CostBasisLot :=
  match tx_type tx with
  | buy | airdrop | transfer =>
      L ++ [newLot (env (eng_readings st)) (Js.toUpperCase (tx_asset tx)) tx]
  | sell => (sellLots m tx L).1
  | stake => L
  end.

(** No two transactions of a history fall on the same instant. *)
Definition distinctInstants (transactions : list Transaction) : Prop :=
  forall i j a b,
    transactions !! i = Some a -> transactions !! j = Some b ->
    tx_timestamp (normalizeTx a) == tx_timestamp (normalizeTx b) -> i = j.

(** A calendar with years of equal length, as a stand-in for the host's:
    the year of an instant is 1970 plus the whole years elapsed. *)
Definition evenYears (ms : Q) : Q :=
  inject_Z (1970 + Qnum ms / (Z.pos (Qden ms) * 31556952000))%Z.

(** A history with purchases of two assets, a stake and two sales. *)
Definition twoAssets : list Transaction :=
  [ mkTx "0xd1" buy "BTC" 2 1700000000 40000;
    mkTx "0xd2" buy "eth" 10 1700000100 20000;
    mkTx "0xd3" stake "ETH" 1 1700000150 0;
    mkTx "0xd4" sell "btc" 1 1700000200 30000;
    mkTx "0xd5" sell "ETH" 4 1700000300 6000 ].

(** *** The ledger of a lot *)

(** Every entry of the [lotsUsed] of the given sales, in the order of the
    sales. *)
Definition allUses (sales : list SaleResult) : list LotUse :=
  concat (sale_lotsUsed <$> sales).

(** Those recorded against the lot identifier [id]. *)
Definition usesOf (id : string) (sales : list SaleResult) : list LotUse :=
  List.filter (fun u => String.eqb (use_lotId u) id) (allUses sales).

(** What is left of [amount] when the amounts of [uses] are taken from it
    one at a time, as [-=] does. *)
Definition leftAfter (uses : list LotUse) (amount : Q) : Q :=
  fold_left (fun left u => left - use_amountUsed u) uses amount.




(** *** Property names *)

(** The properties every plain object inherits from [Object.prototype]:
    [o[name]] finds them when [o] has no own property of that name, and
    [o["__proto__"] = v] sets no own property. *)
Definition inheritedProperties : list string :=
  [ "constructor"; "__defineGetter__"; "__defineSetter__"; "hasOwnProperty";
    "__lookupGetter__"; "__lookupSetter__"; "isPrototypeOf";
    "propertyIsEnumerable"; "toString"; "valueOf"; "__proto__";
    "toLocaleString" ].

(** A symbol of ASCII characters that names no inherited property, and
    whose upper-cased form names none: on such a symbol [o[symbol]] and
    [o[symbol.toUpperCase()]] read own properties only, and
    [Js.toUpperCase] is all of [toUpperCase]. *)
Definition plainSymbol (symbol : string) : bool :=
  forallb (fun c => (nat_of_ascii c <? 128)%nat) (list_ascii_of_string symbol)
  && negb (existsb (String.eqb symbol) inheritedProperties)
  && negb (existsb (String.eqb (Js.toUpperCase symbol)) inheritedProperties).

End CostBasisNotions.

(** ** The cost-basis engine on IEEE doubles ([cost-basis.ts])

    [calculateCostBasis] once more, its numbers being binary64 doubles and
    its arithmetic the IEEE operations, rounding, [NaN] and the infinities
    included.  The definitions follow those of [CostBasis] line by line. *)

Module CostBasis64.
Import PrimFloat.
Export CostBasis(TxType, buy, sell, transfer, stake, airdrop,
                 CostBasisMethod, FIFO, LIFO, HIFO,
                 Entropy, Env, lotIdOf).
Local Open Scope float_scope.

(** [v || 0]: the falsy numbers are [0], [-0] and [NaN]. *)
Definition orZero (v : float) : float :=
  if (v =? 0) || is_nan v then 0 else v.

(** [Math.min]; [Math.abs] is the primitive [abs]. *)
Definition Math_min (a b : float) : float :=
  if is_nan a || is_nan b then nan else if a <=? b then a else b.

(** [Array.prototype.sort(cmp)], stable; a comparator result of [NaN] counts
    as [0]. *)
Section Sort.
Context {A : Type} (cmp : A -> A -> float).

Fixpoint insert (x : A) (l : list A) : list A :=
  match l with
  | [] => [x]
  | y :: l' =>
      if (cmp x y <=? 0) || is_nan (cmp x y) then x :: l else y :: insert x l'
  end.

Definition sort (l : list A) : list A := foldr insert [] l.
End Sort.

(** [Array.prototype.reduce((sum, x) => sum + f(x), 0)] *)
Definition sumBy {A : Type} (f : A -> float) (l : list A) : float :=
  fold_left (fun sum x => sum + f x) l 0.

Record Transaction := {
  tx_hash : string;
  tx_type : TxType;
  tx_asset : string;
  tx_amount : float;
  tx_timestamp : float;
  tx_valueEur : float;
  tx_fee : float;
  tx_feeEur : float;
  tx_from : option string;
  tx_to : option string
}.

Record CostBasisLot := {
  lot_id : string;
  lot_asset : string;
  lot_amount : float;
  lot_remainingAmount : float;
  lot_costPerUnit : float;
  lot_totalCost : float;
  lot_timestamp : float;
  lot_txHash : string
}.

Record LotUse := {
  use_lotId : string;
  use_amountUsed : float;
  use_costPerUnit : float;
  use_cost : float
}.

Record SaleResult := {
  sale_transaction : Transaction;
  sale_proceeds : float;
  sale_costBasis : float;
  sale_gainLoss : float;
  sale_lotsUsed : list LotUse
}.

Record Holding := {
  h_amount : float;
  h_costBasis : float;
  h_avgCost : float
}.

Record CostBasisResult := {
  lots : list CostBasisLot;
  sales : list SaleResult;
  totalGains : float;
  totalLosses : float;
  netGain : float;
  unrealizedGains : list (string * Holding)
}.

Definition normalizeTx (tx : Transaction) : Transaction :=
  {| tx_hash := tx_hash tx; tx_type := tx_type tx; tx_asset := tx_asset tx;
     tx_amount := tx_amount tx;
     tx_timestamp :=
       if tx_timestamp tx <? 1e12 then tx_timestamp tx * 1000 else tx_timestamp tx;
     tx_valueEur := tx_valueEur tx; tx_fee := tx_fee tx;
     tx_feeEur := tx_feeEur tx; tx_from := tx_from tx; tx_to := tx_to tx |}.

Definition sortedTx (transactions : list Transaction) : list Transaction :=
  sort (fun a b => tx_timestamp a - tx_timestamp b) (normalizeTx <$> transactions).

Definition availableLots (lots : list CostBasisLot) : list (nat * CostBasisLot) :=
  List.filter (fun rl : nat * CostBasisLot => 0 <? lot_remainingAmount rl.2)
              (imap (fun i l => (i, l)) lots).

Definition getLotsForMethod (lots : list CostBasisLot) (m : CostBasisMethod)
  : list (nat * CostBasisLot) :=
  let available := availableLots lots in
  match m with
  | LIFO => sort (fun a b => lot_timestamp b.2 - lot_timestamp a.2) available
  | HIFO => sort (fun a b => lot_costPerUnit b.2 - lot_costPerUnit a.2) available
  | FIFO => sort (fun a b => lot_timestamp a.2 - lot_timestamp b.2) available
  end.

Definition takeFromLot (amountFromThisLot : float) (l : CostBasisLot) : CostBasisLot :=
  {| lot_id := lot_id l; lot_asset := lot_asset l; lot_amount := lot_amount l;
     lot_remainingAmount := lot_remainingAmount l - amountFromThisLot;
     lot_costPerUnit := lot_costPerUnit l; lot_totalCost := lot_totalCost l;
     lot_timestamp := lot_timestamp l; lot_txHash := lot_txHash l |}.

Record SellAcc := {
  acc_lots : list CostBasisLot;
  acc_remainingToSell : float;
  acc_totalCostBasis : float;
  acc_lotsUsed : list LotUse
}.

Fixpoint consumeLots (orderedLots : list (nat * CostBasisLot)) (acc : SellAcc)
  : SellAcc :=
  match orderedLots with
  | [] => acc
  | (r, _) :: rest =>
      if acc_remainingToSell acc <=? 0 then acc (* break *)
      else
        match acc_lots acc !! r with
        | None => consumeLots rest acc
        | Some lot =>
            if lot_remainingAmount lot <=? 0 then consumeLots rest acc (* continue *)
            else
              let amountFromThisLot :=
                Math_min (lot_remainingAmount lot) (acc_remainingToSell acc) in
              let costFromThisLot := amountFromThisLot * lot_costPerUnit lot in
              let lots' :=
                match list_find (fun l => lot_id l = lot_id lot) (acc_lots acc) with
                | Some (j, _) => alter (takeFromLot amountFromThisLot) j (acc_lots acc)
                | None => acc_lots acc
                end in
              consumeLots rest
                {| acc_lots := lots';
                   acc_remainingToSell := acc_remainingToSell acc - amountFromThisLot;
                   acc_totalCostBasis := acc_totalCostBasis acc + costFromThisLot;
                   acc_lotsUsed :=
                     acc_lotsUsed acc ++
                     [{| use_lotId := lot_id lot;
                         use_amountUsed := amountFromThisLot;
                         use_costPerUnit := lot_costPerUnit lot;
                         use_cost := costFromThisLot |}] |}
        end
  end.

Definition sellLots (method : CostBasisMethod) (tx : Transaction)
  (lots : list CostBasisLot) : list CostBasisLot * SaleResult :=
  let orderedLots := getLotsForMethod lots method in
  let acc := consumeLots orderedLots
               {| acc_lots := lots; acc_remainingToSell := tx_amount tx;
                  acc_totalCostBasis := 0; acc_lotsUsed := [] |} in
  let proceeds := tx_valueEur tx in
  let gainLoss := proceeds - acc_totalCostBasis acc in
  (acc_lots acc,
   {| sale_transaction := tx; sale_proceeds := proceeds;
      sale_costBasis := acc_totalCostBasis acc; sale_gainLoss := gainLoss;
      sale_lotsUsed := acc_lotsUsed acc |}).

Definition newLot (e : Entropy) (asset : string) (tx : Transaction) : CostBasisLot :=
  let effectiveValueEur := orZero (tx_valueEur tx) in
  let costPerUnit :=
    if 0 <? tx_amount tx then effectiveValueEur / tx_amount tx else 0 in
  {| lot_id := lotIdOf (tx_hash tx) e; lot_asset := asset;
     lot_amount := tx_amount tx; lot_remainingAmount := tx_amount tx;
     lot_costPerUnit := costPerUnit; lot_totalCost := effectiveValueEur;
     lot_timestamp := tx_timestamp tx; lot_txHash := tx_hash tx |}.

Record Engine := {
  lotsByAsset : list (string * list CostBasisLot);
  eng_sales : list SaleResult;
  eng_totalGains : float;
  eng_totalLosses : float;
  eng_readings : nat
}.

Definition initEngine : Engine :=
  {| lotsByAsset := []; eng_sales := []; eng_totalGains := 0;
     eng_totalLosses := 0; eng_readings := 0%nat |}.

Definition step (env : Env) (method : CostBasisMethod) (st : Engine)
  (tx : Transaction) : Engine :=
  let asset := Js.toUpperCase (tx_asset tx) in
  match tx_type tx with
  | buy | airdrop | transfer =>
      let old := default [] (Dict.get asset (lotsByAsset st)) in
      {| lotsByAsset :=
           Dict.set asset (old ++ [newLot (env (eng_readings st)) asset tx])
                     (lotsByAsset st);
         eng_sales := eng_sales st;
         eng_totalGains := eng_totalGains st;
         eng_totalLosses := eng_totalLosses st;
         eng_readings := S (eng_readings st) |}
  | sell =>
      let lots := default [] (Dict.get asset (lotsByAsset st)) in
      let '(lots', sale) := sellLots method tx lots in
      let gainLoss := sale_gainLoss sale in
      {| lotsByAsset :=
           match Dict.get asset (lotsByAsset st) with
           | Some _ => Dict.set asset lots' (lotsByAsset st)
           | None => lotsByAsset st
           end;
         eng_sales := eng_sales st ++ [sale];
         eng_totalGains :=
           if 0 <? gainLoss then eng_totalGains st + gainLoss
           else eng_totalGains st;
         eng_totalLosses :=
           if 0 <? gainLoss then eng_totalLosses st
           else eng_totalLosses st + abs gainLoss;
         eng_readings := eng_readings st |}
  | stake => st
  end.

Definition holdingOf (lots : list CostBasisLot) : option Holding :=
  let remainingLots := List.filter (fun l => 0 <? lot_remainingAmount l) lots in
  let totalAmount := sumBy lot_remainingAmount remainingLots in
  let totalCostBasis :=
    sumBy (fun l => lot_remainingAmount l * lot_costPerUnit l) remainingLots in
  if 0 <? totalAmount
  then Some {| h_amount := totalAmount; h_costBasis := totalCostBasis;
               h_avgCost := totalCostBasis / totalAmount |}
  else None.

Definition finish (st : Engine) : CostBasisResult :=
  {| lots := concat (lotsByAsset st).*2;
     sales := eng_sales st;
     totalGains := eng_totalGains st;
     totalLosses := eng_totalLosses st;
     netGain := eng_totalGains st - eng_totalLosses st;
     unrealizedGains :=
       omap (fun kv : string * list CostBasisLot =>
               match holdingOf kv.2 with
               | Some h => Some (kv.1, h)
               | None => None
               end) (lotsByAsset st) |}.

Definition run (env : Env) (method : CostBasisMethod) (txs : list Transaction)
  : Engine :=
  fold_left (step env method) txs initEngine.

Definition calculateCostBasis (env : Env) (transactions : list Transaction)
  (method : CostBasisMethod) : CostBasisResult :=
  finish (run env method (sortedTx transactions)).

(** *** Notions used to state the properties *)

Definition isAcquisition (tx : Transaction) : bool :=
  match tx_type tx with
  | buy | airdrop | transfer => true
  | _ => false
  end.

Definition isDisposal (tx : Transaction) : bool :=
  match tx_type tx with
  | sell => true
  | _ => false
  end.

Definition acquired (txs : list Transaction) : float :=
  sumBy tx_amount (List.filter isAcquisition txs).

Definition disposed (txs : list Transaction) : float :=
  sumBy tx_amount (List.filter isDisposal txs).



Definition mkTx (hash : string) (type : TxType) (asset : string)
  (amount timestamp valueEur : float) : Transaction :=
  {| tx_hash := hash; tx_type := type; tx_asset := asset; tx_amount := amount;
     tx_timestamp := timestamp; tx_valueEur := valueEur; tx_fee := 0;
     tx_feeEur := 0; tx_from := None; tx_to := None |}.

(** One unit bought, then three sales of 4e-17 each. *)
#[warnings="-inexact-float"]
Definition dust : list Transaction :=
  [ mkTx "0xe1" buy "ETH" 1 1700000000 100;
    mkTx "0xe2" sell "ETH" 4e-17 1700000100 1;
    mkTx "0xe3" sell "ETH" 4e-17 1700000200 1;
    mkTx "0xe4" sell "ETH" 4e-17 1700000300 1 ].

(** Every entry of the [lotsUsed] of the given sales, those recorded
    against a lot identifier, and what is left of an amount when the
    amounts of the entries are taken from it one at a time. *)
Definition allUses (sales : list SaleResult) : list LotUse :=
  concat (sale_lotsUsed <$> sales).

Definition usesOf (id : string) (sales : list SaleResult) : list LotUse :=
  List.filter (fun u => String.eqb (use_lotId u) id) (allUses sales).

Definition leftAfter (uses : list LotUse) (amount : float) : float :=
  fold_left (fun left u => left - use_amountUsed u) uses amount.

(** Three purchases, then a sale of what they add up to in decimals. *)
#[warnings="-inexact-float"]
Definition decimals : list Transaction :=
  [ mkTx "0xf1" buy "ETH" 1.501 1700000000 1501;
    mkTx "0xf2" buy "ETH" 2.9552 1700000100 2955.2;
    mkTx "0xf3" buy "ETH" 9.22 1700000200 9220;
    mkTx "0xf4" sell "ETH" 13.3483 1700000300 14000 ].

(** Whole amounts: 3 and 5 bought, 4 and 2 sold. *)
Definition wholes : list Transaction :=
  [ mkTx "0xf5" buy "ETH" 3 1700000000 300;
    mkTx "0xf6" buy "ETH" 5 1700000100 600;
    mkTx "0xf7" sell "ETH" 4 1700000200 500;
    mkTx "0xf8" sell "ETH" 2 1700000300 300 ].

End CostBasis64.

(** ** Secure storage: persisting, preloading and clearing ([storage.ts]) *)

Module Persistence.
Import CryptoVault Storage.

(** The object [JSON.stringify] is given for an [EncryptedPayloadV1]. *)
Definition payloadJson (p : EncryptedPayloadV1) : Json :=
  JObject [("v", JNumber 1); ("iv", JString (payload_iv p));
           ("ct", JString (payload_ct p))].

(** [typeof x === 'string'] *)
Definition isString (x : option Json) : bool :=
  match x with
  | Some (JString _) => true
  | _ => false
  end.

(** The fields [decryptWithKey] reads from a parsed payload whose [iv] and
    [ct] are strings. *)
Definition payloadOfJson (p : Json) : option EncryptedPayloadV1 :=
  match JsValue.prop "iv" p, JsValue.prop "ct" p with
  | Some (JString iv), Some (JString ct) =>
      Some {| payload_iv := iv; payload_ct := ct |}
  | _, _ => None
  end.

(** [schemaVersion] and [data] of a value for which [isVersionedObject]
    holds: an object that has both properties, the first a number. *)
Definition versionedParts (v : Json) : option (Q * Json) :=
  match v with
  | JObject fields =>
      match Dict.get "schemaVersion" fields, Dict.get "data" fields with
      | Some (JNumber sv), Some data => Some (sv, data)
      | _, _ => None
      end
  | _ => None
  end.

Definition isVersionedObject (v : Json) : bool :=
  match versionedParts v with
  | Some _ => true
  | None => false
  end.

Record SchemaInfo := {
  version : Q;
  schema : Json -> option Json;
  defaultValue : Json
}.

(** [localStorage.removeItem(key)] *)
Definition removeItem {CryptoKey : Type} (key : string) (w : World CryptoKey)
  : World CryptoKey :=
  {| _vault := _vault w; _secureCache := _secureCache w;
     localStorage := delete key (localStorage w);
     pendingWrites := pendingWrites w |}.

(** [Object.values(STORAGE_KEYS)] *)
Definition allStorageKeys : list string :=
  [ STORAGE_KEYS.WALLETS; STORAGE_KEYS.TRANSACTIONS; STORAGE_KEYS.SNAPSHOTS;
    STORAGE_KEYS.SETTINGS; STORAGE_KEYS.ONBOARDING_COMPLETE;
    STORAGE_KEYS.HIDDEN_ASSETS; STORAGE_KEYS.SPAM_ASSETS;
    STORAGE_KEYS.PROVIDER_CONFIGS ].

(** [clearAllData] *)
Definition clearAllData {CryptoKey : Type} (w : World CryptoKey) : World CryptoKey :=
  let w := fold_left (fun w key => removeItem key w) allStorageKeys w in
  let w := removeItem "crypta_encryption_enabled" w in
  removeItem "crypta_passphrase_hash" w.

Section Persistence.
Context {CryptoKey : Type}.
Context (AES_GCM_encrypt : CryptoKey -> list Byte.byte -> list Byte.byte -> list Byte.byte).
Context (AES_GCM_decrypt : CryptoKey -> list Byte.byte -> list Byte.byte -> option (list Byte.byte)).
Context (btoa : string -> string) (atob : string -> option string).
Context (TextEncoder_encode : string -> list Byte.byte).
Context (TextDecoder_decode : list Byte.byte -> string).
Context (JSON_stringify : Json -> string) (JSON_parse : string -> option Json).
(** The [safeParse] of the zod schemas of the encrypted collections, and
    the closure [getSchemaInfo] builds for the settings (defaults merged
    in, then [settingsSchema.safeParse]). *)
Context (walletsSchema_safeParse transactionsSchema_safeParse
         snapshotsSchema_safeParse providerConfigsSchema_safeParse : Json -> option Json).
Context (settingsSchema_merged : Json -> option Json).

(** [getSchemaInfo] *)
Definition getSchemaInfo (key : string) : SchemaInfo :=
  if String.eqb key STORAGE_KEYS.WALLETS then
    {| version := 1; schema := walletsSchema_safeParse; defaultValue := JArray [] |}
  else if String.eqb key STORAGE_KEYS.TRANSACTIONS then
    {| version := 1; schema := transactionsSchema_safeParse; defaultValue := JArray [] |}
  else if String.eqb key STORAGE_KEYS.SNAPSHOTS then
    {| version := 1; schema := snapshotsSchema_safeParse; defaultValue := JArray [] |}
  else if String.eqb key STORAGE_KEYS.PROVIDER_CONFIGS then
    {| version := 1; schema := providerConfigsSchema_safeParse;
       defaultValue := JArray [] |}
  else if String.eqb key STORAGE_KEYS.SETTINGS then
    {| version := 1; schema := settingsSchema_merged;
       defaultValue := DEFAULT_SETTINGS |}
  else {| version := 1; schema := fun _ => None; defaultValue := JNull |}.

(** The value is data the schema of the key accepted, or the default of
    the key. *)
Definition settled (key : string) (v : Json) : Prop :=
  v = defaultValue (getSchemaInfo key) \/
  exists raw, schema (getSchemaInfo key) raw = Some v.

(** [normalizePersisted]: the data and whether to persist it again. *)
Definition normalizePersisted (key : string) (rawValue : Json) : Json * bool :=
  let info := getSchemaInfo key in
  match versionedParts rawValue with
  | Some (sv, data) =>
      match schema info data with
      | None => (defaultValue info, true)
      | Some parsed =>
          if negb (Qeq_bool sv (version info)) then (parsed, true)
          else (parsed, false)
      end
  | None =>
      match schema info rawValue with
      | Some legacyParsed => (legacyParsed, true)
      | None => (defaultValue info, true)
      end
  end.

(** [isVaultPayloadString] *)
Definition isVaultPayloadString (raw : string) : bool :=
  match JSON_parse raw with
  | Some p =>
      JsValue.isNumber 1 (JsValue.prop "v" p)
      && isString (JsValue.prop "iv" p) && isString (JsValue.prop "ct" p)
  | None => false
  end.

(** An encrypt-and-persist job reaches its [localStorage.setItem]: the
    [n]-th of the pending jobs, which drew [iv] from [getRandomBytes].
    Jobs may complete in any order. *)
Definition completeWrite (n : nat) (iv : list Byte.byte) (w : World CryptoKey)
  : World CryptoKey :=
  match pendingWrites w !! n with
  | None => w
  | Some (key, value, vault) =>
      let payload :=
        encryptWithKey AES_GCM_encrypt btoa TextEncoder_encode JSON_stringify
                       iv value vault in
      {| _vault := _vault w; _secureCache := _secureCache w;
         localStorage :=
           <[key := JSON_stringify (payloadJson payload)]> (localStorage w);
         pendingWrites := delete n (pendingWrites w) |}
  end.

(** Any number of completions, each naming the job and its [iv]. *)
Definition completeWrites (schedule : list (nat * list Byte.byte))
  (w : World CryptoKey) : World CryptoKey :=
  fold_left (fun w job => completeWrite job.1 job.2 w) schedule w.

(** [_secureCache.set(key, data)] followed, if [persist], by the start of
    the job that encrypts and persists the versioned data, which does
    nothing when no vault is set. *)
Definition cacheAndPersist (key : string) (data : Json) (persist : bool)
  (w : World CryptoKey) : World CryptoKey :=
  {| _vault := _vault w;
     _secureCache := <[key := data]> (_secureCache w);
     localStorage := localStorage w;
     pendingWrites :=
       match persist, _vault w with
       | true, Some vault => pendingWrites w ++ [(key, wrapVersioned key data, vault)]
       | _, _ => pendingWrites w
       end |}.

(** One iteration of the loop of [initializeSecureStorage].  An iteration
    that finds a vault payload awaits [decryptWithKey]; [jobs] are the
    encrypt-and-persist jobs that reach their [localStorage.setItem] during
    that wait. *)
Definition preload (vault : UnlockedVault CryptoKey) (jobs : list (nat * list Byte.byte))
  (w : World CryptoKey) (key : string) : World CryptoKey :=
  match localStorage w !! key with
  | None => w
  | Some raw =>
      if String.eqb raw EmptyString then w
      else if negb (isVaultPayloadString raw) then
        match JSON_parse raw with
        | Some parsed =>
            let normalized := normalizePersisted key parsed in
            cacheAndPersist key normalized.1 true w
        | None => w
        end
      else
        match JSON_parse raw ≫= payloadOfJson with
        | Some payload =>
            let awaited := completeWrites jobs w in
            match decryptWithKey AES_GCM_decrypt atob TextDecoder_decode JSON_parse
                                 payload vault with
            | Returned decrypted =>
                let normalized := normalizePersisted key decrypted in
                cacheAndPersist key normalized.1 normalized.2 awaited
            | Thrown _ => awaited
            end
        | None => w
        end
  end.

(** [initializeSecureStorage]; [schedule] names, for each key, the jobs
    that complete while the iteration for the key waits.  Its promise
    always fulfils. *)
Definition initializeSecureStorage (vault : UnlockedVault CryptoKey)
  (schedule : string -> list (nat * list Byte.byte)) (w : World CryptoKey)
  : World CryptoKey :=
  fold_left (fun w key => preload vault (schedule key) w key) ENCRYPTED_KEYS
    {| _vault := Some vault; _secureCache := ∅;
       localStorage := localStorage w; pendingWrites := pendingWrites w |}.

(** [getWallets], [getTransactions], [getProviderConfigs] *)
Definition getWallets (w : World CryptoKey) : Outcome Json :=
  getSecureData JSON_parse STORAGE_KEYS.WALLETS (JArray []) w.

Definition getTransactions (w : World CryptoKey) : Outcome Json :=
  getSecureData JSON_parse STORAGE_KEYS.TRANSACTIONS (JArray []) w.

Definition getProviderConfigs (w : World CryptoKey) : Outcome Json :=
  getSecureData JSON_parse STORAGE_KEYS.PROVIDER_CONFIGS (JArray []) w.

End Persistence.

(** A rendering of JSON values and a parser that knows a given set of
    documents, to compute with. *)
Module ToyJson.
Fixpoint render (v : Json) : string :=
  match v with
  | JNull => "null"
  | JBool true => "true"
  | JBool false => "false"
  | JNumber q => pretty (Qnum q) +:+ "/" +:+ pretty (N.pos (Qden q))
  | JString s => "'" +:+ s +:+ "'"
  | JArray items =>
      "[" +:+ (fix go (l : list Json) : string :=
                 match l with
                 | [] => EmptyString
                 | x :: l' => render x +:+ "," +:+ go l'
                 end) items +:+ "]"
  | JObject fields =>
      "{" +:+ (fix go (l : list (string * Json)) : string :=
                 match l with
                 | [] => EmptyString
                 | (k, x) :: l' => k +:+ ":" +:+ render x +:+ "," +:+ go l'
                 end) fields +:+ "}"
  end.

Definition parse (known : list Json) (s : string) : option Json :=
  snd <$> list_find (fun v => render v = s) known.
End ToyJson.

End Persistence.

(** ** The vault: public interface ([cryptoVault.ts]) *)

Module VaultApi.
Import CryptoVault Persistence.

Definition VAULT_META_KEY : string := "crypta_vault_meta".
Definition VAULT_CHECK_KEY : string := "crypta_vault_check".
Definition DEFAULT_ITERATIONS : Q := 210000.

(** The object literal [createVault] builds for the meta data. *)
Definition metaJson (salt : string) (iterations : Q) : Json :=
  JObject [ ("v", JNumber 1); ("salt", JString salt);
            ("kdf", JObject [ ("name", JString "PBKDF2"); ("hash", JString "SHA-256");
                              ("iterations", JNumber iterations) ]);
            ("alg", JObject [ ("name", JString "AES-GCM") ]) ].

(** The sentinel [{ ok: true, t: Date.now() }]. *)
Definition sentinel (now : Q) : Json :=
  JObject [("ok", JBool true); ("t", JNumber now)].

(** What [unlockVault] returns: the meta object as parsed, and the key. *)
Record Unlocked (CryptoKey : Type) := {
  unlocked_meta : Json;
  unlocked_key : CryptoKey
}.
Arguments unlocked_meta {CryptoKey} _.
Arguments unlocked_key {CryptoKey} _.

Section VaultApi.
Context {CryptoKey : Type}.
Context (AES_GCM_encrypt : CryptoKey -> list Byte.byte -> list Byte.byte -> list Byte.byte).
Context (AES_GCM_decrypt : CryptoKey -> list Byte.byte -> list Byte.byte -> option (list Byte.byte)).
Context (btoa : string -> string) (atob : string -> option string).
Context (TextEncoder_encode : string -> list Byte.byte).
Context (TextDecoder_decode : list Byte.byte -> string).
Context (JSON_stringify : Json -> string) (JSON_parse : string -> option Json).
(** [importPassphrase] followed by [deriveAesKey]: PBKDF2 on the
    passphrase with what the meta object says, a rejection being a
    throw. *)
Context (deriveAesKey : string -> Json -> Outcome CryptoKey).
(** [String(v)] for a value that is not a string. *)
Context (ToString : Json -> string).

(** The browser's [localStorage]. *)
Local Abbreviation Store := (gmap string string).

(** [localStorage.getItem(key)] as tested by [!raw]. *)
Definition getItemTruthy (key : string) (ls : Store) : option string :=
  match ls !! key with
  | Some raw => if String.eqb raw EmptyString then None else Some raw
  | None => None
  end.

(** [readVaultMeta] *)
Definition readVaultMeta (ls : Store) : option Json :=
  match getItemTruthy VAULT_META_KEY ls with
  | None => None
  | Some raw =>
      match JSON_parse raw with
      | Some parsed =>
          if negb (JsValue.isNumber 1 (JsValue.prop "v" parsed)) then None
          else Some parsed
      | None => None
      end
  end.

(** [isVaultConfigured] *)
Definition isVaultConfigured (ls : Store) : bool :=
  match readVaultMeta ls, getItemTruthy VAULT_CHECK_KEY ls with
  | Some _, Some _ => true
  | _, _ => false
  end.

(** [encryptJson]; [iv] is the result of [getRandomBytes(12)]. *)
Definition encryptJson (iv : list Byte.byte) (data : Json) (passphrase : string)
  (metaOverride : option Json) (ls : Store) : Outcome EncryptedPayloadV1 :=
  match (match metaOverride with Some m => Some m | None => readVaultMeta ls end) with
  | None => Thrown (VaultCryptoError "Vault is not configured")
  | Some meta =>
      match deriveAesKey passphrase meta with
      | Thrown e => Thrown e
      | Returned aesKey =>
          let plaintext := TextEncoder_encode (JSON_stringify data) in
          let ctBuf := AES_GCM_encrypt aesKey iv plaintext in
          Returned {| payload_iv := b64encode btoa iv;
                      payload_ct := b64encode btoa ctBuf |}
      end
  end.

(** The steps [decryptJson], [decryptWithKey] and [unlockVault] share:
    decode, decrypt, parse. *)
Definition openPayload (payload : EncryptedPayloadV1) (key : CryptoKey)
  : Outcome Json :=
  match b64decode atob (payload_iv payload) with
  | Thrown e => Thrown e
  | Returned iv =>
      match b64decode atob (payload_ct payload) with
      | Thrown e => Thrown e
      | Returned ct =>
          match AES_GCM_decrypt key iv ct with
          | None => Thrown OperationError
          | Some ptBuf =>
              match JSON_parse (TextDecoder_decode ptBuf) with
              | Some v => Returned v
              | None => Thrown SyntaxError
              end
          end
      end
  end.

(** [decryptJson] *)
Definition decryptJson (payload : EncryptedPayloadV1) (passphrase : string)
  (metaOverride : option Json) (ls : Store) : Outcome Json :=
  match (match metaOverride with Some m => Some m | None => readVaultMeta ls end) with
  | None => Thrown (VaultCryptoError "Vault is not configured")
  | Some meta =>
      match deriveAesKey passphrase meta with
      | Thrown e => Thrown e
      | Returned aesKey => openPayload payload aesKey
      end
  end.

(** [JSON.parse(rawCheck) as EncryptedPayloadV1], as the decryption reads
    it: [iv] and [ct] go through [atob], which takes the string of
    whatever it is given; on [null] the property access throws, which
    [None] stands for. *)
Definition stringOf (x : option Json) : string :=
  match x with
  | Some (JString s) => s
  | Some v => ToString v
  | None => "undefined"
  end.

Definition asPayload (p : Json) : option EncryptedPayloadV1 :=
  match p with
  | JNull => None
  | _ => Some {| payload_iv := stringOf (JsValue.prop "iv" p);
                 payload_ct := stringOf (JsValue.prop "ct" p) |}
  end.

(** [parsed?.ok], as tested by [!]. *)
Definition okOf (parsed : Json) : bool :=
  match JsValue.prop "ok" parsed with
  | Some v => JsValue.truthy v
  | None => false
  end.

(** [createVault]; [salt] and [iv] are the bytes [getRandomBytes] gives,
    [now] is [Date.now()]. *)
Definition createVault (salt iv : list Byte.byte) (now : Q)
  (passphrase : string) (iterations : Q) (ls : Store) : Outcome unit * Store :=
  if String.eqb passphrase EmptyString || (String.length passphrase <? 8)%nat then
    (Thrown (Error "Passphrase must be at least 8 characters"), ls)
  else
    let meta := metaJson (b64encode btoa salt) iterations in
    let ls := <[VAULT_META_KEY := JSON_stringify meta]> ls in
    match encryptJson iv (sentinel now) passphrase (Some meta) ls with
    | Thrown e => (Thrown e, ls)
    | Returned checkPayload =>
        (Returned tt,
         <[VAULT_CHECK_KEY := JSON_stringify (payloadJson checkPayload)]> ls)
    end.

(** [verifyVaultPassphrase] *)
Definition verifyVaultPassphrase (passphrase : string) (ls : Store) : bool :=
  match readVaultMeta ls, getItemTruthy VAULT_CHECK_KEY ls with
  | Some meta, Some rawCheck =>
      match JSON_parse rawCheck with
      | None => false
      | Some p =>
          match asPayload p with
          | None => false
          | Some payload =>
              match decryptJson payload passphrase (Some meta) ls with
              | Returned data => okOf data
              | Thrown _ => false
              end
          end
      end
  | _, _ => false
  end.

(** [unlockVault] *)
Definition unlockVault (passphrase : string) (ls : Store)
  : Outcome (Unlocked CryptoKey) :=
  match readVaultMeta ls with
  | None => Thrown (VaultCryptoError "Vault is not configured")
  | Some meta =>
      match deriveAesKey passphrase meta with
      | Thrown e => Thrown e
      | Returned key =>
          match getItemTruthy VAULT_CHECK_KEY ls with
          | None => Thrown (VaultCryptoError "Vault check is missing")
          | Some rawCheck =>
              match JSON_parse rawCheck with
              | None => Thrown SyntaxError
              | Some p =>
                  match asPayload p ≫= fun payload =>
                        match openPayload payload key with
                        | Returned parsed => Some parsed
                        | Thrown _ => None
                        end with
                  | Some parsed =>
                      if okOf parsed
                      then Returned {| unlocked_meta := meta; unlocked_key := key |}
                      else Thrown (Error "Passphrase non valida")
                  | None => Thrown (Error "Passphrase non valida")
                  end
              end
          end
      end
  end.
End VaultApi.

(** ** Encrypted backup files ([backup.ts]) *)

(** The object literal [createEncryptedBackup] builds for the file. *)
Definition backupFile (createdAt : Q) (meta : Json) (payload : EncryptedPayloadV1)
  : Json :=
  JObject [ ("v", JNumber 1); ("createdAt", JNumber createdAt); ("meta", meta);
            ("payload", payloadJson payload) ].

Section Backup.
Context {CryptoKey : Type}.
Context (AES_GCM_decrypt : CryptoKey -> list Byte.byte -> list Byte.byte -> option (list Byte.byte)).
Context (atob : string -> option string).
Context (TextDecoder_decode : list Byte.byte -> string).
Context (JSON_parse : string -> option Json).
Context (deriveAesKey : string -> Json -> Outcome CryptoKey).
(** [encryptedBackupFileSchema.safeParse]: the [meta] and [payload] of the
    validated file, if the value conforms. *)
Context (encryptedBackupFileSchema_safeParse : Json -> option (Json * EncryptedPayloadV1)).

(** [restoreEncryptedBackup] *)
Definition restoreEncryptedBackup (jsonText passphrase : string) (ls : gmap string string)
  : Outcome Json :=
  match JSON_parse jsonText with
  | None => Thrown SyntaxError
  | Some file =>
      match encryptedBackupFileSchema_safeParse file with
      | None => Thrown (Error "File di backup non valido o corrotto")
      | Some (meta, payload) =>
          decryptJson AES_GCM_decrypt atob TextDecoder_decode JSON_parse deriveAesKey
                      payload passphrase (Some meta) ls
      end
  end.
End Backup.

(** A validator to compute with: it takes [meta] and [payload] as they
    are. *)
Definition toyBackupSchema (file : Json) : option (Json * EncryptedPayloadV1) :=
  match JsValue.prop "meta" file, JsValue.prop "payload" file ≫= payloadOfJson with
  | Some meta, Some payload => Some (meta, payload)
  | _, _ => None
  end.

(** A key derivation to compute with: the key is the first byte of the
    passphrase. *)
Definition toyDerive (passphrase : string) (meta : Json) : Outcome Byte.byte :=
  match list_byte_of_string passphrase with
  | b :: _ => Returned b
  | [] => Thrown OperationError
  end.

End VaultApi.

(** ** API key fingerprints ([apiKeyHash.ts]) *)

Module ApiKeyHash.
Local Open Scope Z_scope.

(** [ToInt32] and [ToUint32] on an integer. *)
Definition toInt32 (z : Z) : Z := (z + 2 ^ 31) mod 2 ^ 32 - 2 ^ 31.
Definition toUint32 (z : Z) : Z := z mod 2 ^ 32.

(** [a ^ b]: both operands go through [ToInt32]. *)
Definition xor32 (a b : Z) : Z := Z.lxor (toInt32 a) (toInt32 b).

(** [apiKey.charCodeAt(i)] for [i] from [0] to [apiKey.length - 1]. *)
Fixpoint charCodes (s : string) : list Z :=
  match s with
  | EmptyString => []
  | String c s' => Z.of_nat (nat_of_ascii c) :: charCodes s'
  end.

(** The loop of [hashApiKey].  The product is a product of doubles, exact
    here because [hash] is a 32-bit integer. *)
Definition djb2 (apiKey : string) : Z :=
  fold_left (fun hash c => xor32 (hash * 33) c) (charCodes apiKey) 5381.

(** [(hash >>> 0).toString(16)] *)
Definition hashApiKey (apiKey : string) : string :=
  HexadecimalString.NilZero.string_of_uint (N.to_hex_uint (Z.to_N (toUint32 (djb2 apiKey)))).

(** The same loop on unbounded integers. *)
Definition djb2Unbounded (apiKey : string) : Z :=
  fold_left (fun hash c => Z.lxor (hash * 33) c) (charCodes apiKey) 5381.
End ApiKeyHash.

(** ** Hidden and spam assets ([storage.ts]) *)

Module AssetFlags.
Import Storage.

(** How a call ends when the only throw is a [TypeError]. *)
Inductive Completion (A : Type) :=
| Normal (a : A)
| ThrowsTypeError.
Arguments Normal {A} a.
Arguments ThrowsTypeError {A}.

(** [x === normalized] for an element of a parsed array. *)
Definition isSymbol (normalized : string) (x : Json) : bool :=
  match x with
  | JString s => String.eqb s normalized
  | _ => false
  end.

(** [hidden.indexOf(normalized)], [None] for [-1]. *)
Fixpoint indexOf (normalized : string) (hidden : list Json) : option nat :=
  match hidden with
  | [] => None
  | x :: rest =>
      if isSymbol normalized x then Some 0%nat
      else S <$> indexOf normalized rest
  end.

Section AssetFlags.
Context (JSON_stringify : Json -> string) (JSON_parse : string -> option Json).

(** [getHiddenAssets] and [getSpamAssets], which are the same code on two
    keys: what is stored, parsed, whatever it is; the empty array when
    nothing is stored or it does not parse. *)
Definition getAssets (key : string) (ls : gmap string string) : Json :=
  match ls !! key with
  | Some data =>
      if String.eqb data EmptyString then JArray []
      else match JSON_parse data with
           | Some v => v
           | None => JArray []
           end
  | None => JArray []
  end.

(** [toggleHiddenAsset] and [toggleSpamAsset].  On anything but an array
    the call of [push] or [splice], or already that of [indexOf], throws
    a [TypeError], before anything is written. *)
Definition toggleAsset (key symbol : string) (ls : gmap string string)
  : Completion bool * gmap string string :=
  let normalized := Js.toUpperCase symbol in
  match getAssets key ls with
  | JArray hidden =>
      match indexOf normalized hidden with
      | None =>
          (Normal true,
           <[key := JSON_stringify (JArray (hidden ++ [JString normalized]))]> ls)
      | Some index =>
          (Normal false,
           <[key := JSON_stringify (JArray (delete index hidden))]> ls)
      end
  | _ => (ThrowsTypeError, ls)
  end.

(** [isAssetHidden] and [isAssetSpam]: [includes] on an array, and on a
    string the search for a substring. *)
Definition isAssetFlagged (key symbol : string) (ls : gmap string string)
  : Completion bool :=
  let normalized := Js.toUpperCase symbol in
  match getAssets key ls with
  | JArray hidden => Normal (existsb (isSymbol normalized) hidden)
  | JString s =>
      Normal match String.index 0 normalized s with
             | Some _ => true
             | None => false
             end
  | _ => ThrowsTypeError
  end.

Definition toggleHiddenAsset := toggleAsset STORAGE_KEYS.HIDDEN_ASSETS.
Definition isAssetHidden := isAssetFlagged STORAGE_KEYS.HIDDEN_ASSETS.
Definition toggleSpamAsset := toggleAsset STORAGE_KEYS.SPAM_ASSETS.
Definition isAssetSpam := isAssetFlagged STORAGE_KEYS.SPAM_ASSETS.
End AssetFlags.
End AssetFlags.

(** * Properties of the cost-basis engine *)

Module CostBasisProps.
Import CostBasis CostBasisNotions.
Local Open Scope Q_scope.

(** ** Comparisons *)

Lemma ltb_true a b : Js.ltb a b = true <-> a < b.
Proof.
  unfold Js.ltb. rewrite negb_true_iff. split.
  - intros H. apply Qnot_le_lt. intros Hle.
    apply Qle_bool_iff in Hle. congruence.
  - intros H. destruct (Qle_bool b a) eqn:E; [|done].
    apply Qle_bool_iff in E. lra.
Qed.

Lemma ltb_false a b : Js.ltb a b = false <-> b <= a.
Proof.
  unfold Js.ltb. rewrite negb_false_iff. apply Qle_bool_iff.
Qed.

Lemma leb_true a b : Js.leb a b = true <-> a <= b.
Proof. apply Qle_bool_iff. Qed.

Lemma leb_false a b : Js.leb a b = false <-> b < a.
Proof.
  unfold Js.leb. split.
  - intros H. apply Qnot_le_lt. intros Hle. apply Qle_bool_iff in Hle. congruence.
  - intros H. destruct (Qle_bool a b) eqn:E; [|done].
    apply Qle_bool_iff in E. lra.
Qed.

Ltac cmp_cases :=
  repeat match goal with
  | H : Js.ltb _ _ = true |- _ => apply ltb_true in H
  | H : Js.ltb _ _ = false |- _ => apply ltb_false in H
  | H : Js.leb _ _ = true |- _ => apply leb_true in H
  | H : Js.leb _ _ = false |- _ => apply leb_false in H
  | H : Qle_bool _ _ = true |- _ => apply leb_true in H
  | H : Qle_bool _ _ = false |- _ => apply leb_false in H
  end.

Lemma min_le_l a b : Math.min a b <= a.
Proof. unfold Math.min. destruct (Qle_bool a b) eqn:E; cmp_cases; lra. Qed.

Lemma min_le_r a b : Math.min a b <= b.
Proof. unfold Math.min. destruct (Qle_bool a b) eqn:E; cmp_cases; lra. Qed.

Lemma min_pos a b : 0 < a -> 0 < b -> 0 < Math.min a b.
Proof. unfold Math.min. destruct (Qle_bool a b); done. Qed.

Lemma abs_nonneg a : 0 <= Math.abs a.
Proof. unfold Math.abs. destruct (Qle_bool 0 a) eqn:E; cmp_cases; lra. Qed.

Lemma max0_nonneg a : 0 <= Math.max 0 a.
Proof. unfold Math.max. destruct (Qle_bool 0 a) eqn:E; cmp_cases; lra. Qed.

(** ** Sums *)

Lemma sumBy_from {A} (f : A -> Q) l a :
  fold_left (fun sum x => sum + f x) l a == a + Array.sumBy f l.
Proof.
  unfold Array.sumBy. revert a.
  induction l as [|x l IH]; intros a; simpl.
  - lra.
  - rewrite (IH (a + f x)), (IH (0 + f x)). lra.
Qed.

Lemma sumBy_nil {A} (f : A -> Q) : Array.sumBy f [] == 0.
Proof. reflexivity. Qed.

Lemma sumBy_cons {A} (f : A -> Q) x l :
  Array.sumBy f (x :: l) == f x + Array.sumBy f l.
Proof.
  unfold Array.sumBy at 1. simpl. rewrite sumBy_from. lra.
Qed.

Lemma sumBy_app {A} (f : A -> Q) l k :
  Array.sumBy f (l ++ k) == Array.sumBy f l + Array.sumBy f k.
Proof.
  induction l as [|x l IH]; simpl.
  - rewrite sumBy_nil. lra.
  - rewrite !sumBy_cons, IH. lra.
Qed.


Lemma sumBy_nonneg {A} (f : A -> Q) l :
  (forall x, 0 <= f x) -> 0 <= Array.sumBy f l.
Proof.
  intros Hf. induction l as [|x l IH].
  - rewrite sumBy_nil. lra.
  - rewrite sumBy_cons. specialize (Hf x). lra.
Qed.


(** ** [Array.sort] *)

Section SortFacts.
Context {A : Type} (cmp : A -> A -> Q).

Let before (x y : A) : Prop := cmp x y <= 0.

Lemma insert_Permutation x l : Array.insert cmp x l ≡ₚ x :: l.
Proof.
  induction l as [|y l IH]; simpl; [done|].
  destruct (Qle_bool (cmp x y) 0); [done|].
  rewrite IH. apply Permutation_swap.
Qed.

Lemma sort_Permutation l : Array.sort cmp l ≡ₚ l.
Proof.
  induction l as [|x l IH]; simpl; [done|].
  rewrite insert_Permutation. by constructor.
Qed.

Hypothesis before_total : forall x y, before x y \/ before y x.
Hypothesis before_trans : forall x y z, before x y -> before y z -> before x z.

Lemma insert_sorted x l :
  StronglySorted before l -> StronglySorted before (Array.insert cmp x l).
Proof.
  induction 1 as [|y l Hl IH Hy]; simpl.
  - repeat constructor.
  - destruct (Qle_bool (cmp x y) 0) eqn:E.
    + apply leb_true in E. constructor; [by constructor|].
      constructor; [done|].
      eapply Forall_impl; [exact Hy|]. intros z Hz. by eapply before_trans.
    + apply leb_false in E. constructor; [done|].
      rewrite insert_Permutation. constructor; [|done].
      destruct (before_total x y) as [H|H]; [|done].
      unfold before in H. lra.
Qed.

Lemma sort_sorted l : StronglySorted before (Array.sort cmp l).
Proof.
  induction l as [|x l IH]; simpl; [constructor|]. by apply insert_sorted.
Qed.
End SortFacts.

(** ** [getLotsForMethod] *)

Lemma elem_of_filter_bool {A} (f : A -> bool) (x : A) l :
  x ∈ List.filter f l <-> x ∈ l /\ f x = true.
Proof. rewrite !list_elem_of_In. apply filter_In. Qed.

Lemma filter_bool_sublist {A} (f : A -> bool) l : List.filter f l `sublist_of` l.
Proof.
  induction l as [|x l IH]; simpl; [done|].
  destruct (f x); by constructor.
Qed.

Lemma elem_of_availableLots lots r l :
  (r, l) ∈ availableLots lots <-> lots !! r = Some l /\ 0 < lot_remainingAmount l.
Proof.
  unfold availableLots. rewrite elem_of_filter_bool, elem_of_lookup_imap. simpl.
  rewrite ltb_true. split.
  - intros [(i & y & [= -> ->] & Hi) Hpos]. done.
  - intros [Hr Hpos]. split; [|done]. by exists r, l.
Qed.

Lemma availableLots_refs_NoDup lots : NoDup (availableLots lots).*1.
Proof.
  unfold availableLots.
  eapply sublist_NoDup; [|apply fmap_sublist, filter_bool_sublist].
  rewrite fmap_imap.
  change (NoDup (imap (fun j (_ : CostBasisLot) => id j) lots)).
  rewrite (imap_seq_0 lots id), list_fmap_id.
  apply NoDup_seq.
Qed.

Lemma getLotsForMethod_Permutation lots m :
  getLotsForMethod lots m ≡ₚ availableLots lots.
Proof. destruct m; apply sort_Permutation. Qed.

Lemma elem_of_getLotsForMethod lots m r l :
  (r, l) ∈ getLotsForMethod lots m <->
  lots !! r = Some l /\ 0 < lot_remainingAmount l.
Proof. rewrite getLotsForMethod_Permutation. apply elem_of_availableLots. Qed.

Lemma getLotsForMethod_refs_NoDup lots m : NoDup (getLotsForMethod lots m).*1.
Proof.
  rewrite getLotsForMethod_Permutation. apply availableLots_refs_NoDup.
Qed.

Lemma StronglySorted_impl {A} (R R' : A -> A -> Prop) l :
  (forall a b, R a b -> R' a b) -> StronglySorted R l -> StronglySorted R' l.
Proof.
  intros HR. induction 1 as [|x l _ IH Hx]; constructor; [done|].
  eapply Forall_impl; [exact Hx|]. intros y. apply HR.
Qed.

Lemma getLotsForMethod_sorted lots m :
  StronglySorted (fun a b => precedes m a.2 b.2) (getLotsForMethod lots m).
Proof.
  destruct m; simpl.
  - apply StronglySorted_impl
      with (R := fun a b => lot_timestamp a.2 - lot_timestamp b.2 <= 0).
    { intros a b H. lra. }
    apply sort_sorted.
    + intros x y.
      destruct (Qlt_le_dec (lot_timestamp x.2) (lot_timestamp y.2)); [left|right]; lra.
    + intros x y z. lra.
  - apply StronglySorted_impl
      with (R := fun a b => lot_timestamp b.2 - lot_timestamp a.2 <= 0).
    { intros a b H. lra. }
    apply sort_sorted.
    + intros x y.
      destruct (Qlt_le_dec (lot_timestamp x.2) (lot_timestamp y.2)); [right|left]; lra.
    + intros x y z. lra.
  - apply StronglySorted_impl
      with (R := fun a b => lot_costPerUnit b.2 - lot_costPerUnit a.2 <= 0).
    { intros a b H. lra. }
    apply sort_sorted.
    + intros x y.
      destruct (Qlt_le_dec (lot_costPerUnit x.2) (lot_costPerUnit y.2)); [right|left]; lra.
    + intros x y z. lra.
Qed.

(** ** The sell loop *)

Lemma find_own_id (lots : list CostBasisLot) r lot :
  NoDup (lot_id <$> lots) -> lots !! r = Some lot ->
  list_find (fun l => lot_id l = lot_id lot) lots = Some (r, lot).
Proof.
  intros Hnd Hr. apply list_find_Some. split_and!; [done..|].
  intros j y Hj Hlt Heq.
  assert (j = r) as ->; [|lia].
  eapply NoDup_lookup; [exact Hnd| |].
  - rewrite list_lookup_fmap, Hj. simpl. by rewrite Heq.
  - by rewrite list_lookup_fmap, Hr.
Qed.

Lemma ids_alter_take a r (lots : list CostBasisLot) :
  lot_id <$> alter (takeFromLot a) r lots = lot_id <$> lots.
Proof.
  apply list_eq. intros j. rewrite !list_lookup_fmap, list_lookup_alter.
  destruct (decide (r = j)) as [->|]; [|done].
  by destruct (lots !! j).
Qed.

Lemma consumeLots_consumeAt refs acc :
  NoDup (lot_id <$> acc_lots acc) -> consumeLots refs acc = consumeAt refs acc.
Proof.
  revert acc. induction refs as [|[r s] rest IH]; intros acc Hnd; simpl; [done|].
  destruct (Js.leb (acc_remainingToSell acc) 0); [done|].
  destruct (acc_lots acc !! r) as [lot|] eqn:Hr; [|by apply IH].
  destruct (Js.leb (lot_remainingAmount lot) 0); [by apply IH|].
  rewrite (find_own_id _ _ _ Hnd Hr). apply IH. simpl.
  by rewrite ids_alter_take.
Qed.


Lemma consumeAt_nonneg refs acc :
  Forall (fun l => 0 <= lot_remainingAmount l) (acc_lots acc) ->
  Forall (fun l => 0 <= lot_remainingAmount l) (acc_lots (consumeAt refs acc)).
Proof.
  revert acc. induction refs as [|[r s] rest IH]; intros acc Hall; simpl; [done|].
  destruct (Js.leb (acc_remainingToSell acc) 0); [done|].
  destruct (acc_lots acc !! r) as [lot|] eqn:Hr; [|by apply IH].
  destruct (Js.leb (lot_remainingAmount lot) 0); [by apply IH|].
  apply IH. simpl. apply Forall_alter; [done|].
  intros l Hl _. assert (l = lot) as -> by congruence. simpl.
  pose proof (min_le_l (lot_remainingAmount lot) (acc_remainingToSell acc)). lra.
Qed.






Lemma consumeLots_ids refs acc :
  lot_id <$> acc_lots (consumeLots refs acc) = lot_id <$> acc_lots acc.
Proof.
  revert acc. induction refs as [|[r s] rest IH]; intros acc; simpl; [done|].
  destruct (Js.leb (acc_remainingToSell acc) 0); [done|].
  destruct (acc_lots acc !! r) as [lot|]; [|by apply IH].
  destruct (Js.leb (lot_remainingAmount lot) 0); [by apply IH|].
  rewrite IH. simpl.
  destruct (list_find _ _) as [[j ?]|]; [|done]. apply ids_alter_take.
Qed.

(** ** Dictionaries *)

Lemma Dict_get_Some {V} key (o : list (string * V)) v :
  Dict.get key o = Some v ->
  exists o1 o2, o = o1 ++ (key, v) :: o2 /\
    forall w, Dict.set key w o = o1 ++ (key, w) :: o2.
Proof.
  induction o as [|[k u] o IH]; simpl; [done|].
  destruct (String.eqb k key) eqn:E.
  - apply String.eqb_eq in E as ->. intros [= ->]. by exists [], o.
  - intros Hget. destruct (IH Hget) as (o1 & o2 & -> & Hset).
    exists ((k, u) :: o1), o2. split; [done|]. intros w. by rewrite Hset.
Qed.

Lemma Dict_set_None {V} key (o : list (string * V)) v :
  Dict.get key o = None -> Dict.set key v o = o ++ [(key, v)].
Proof.
  induction o as [|[k u] o IH]; simpl; [done|].
  destruct (String.eqb k key); [done|]. intros H. by rewrite IH.
Qed.

Lemma Dict_get_set_eq {V} key (o : list (string * V)) v :
  Dict.get key (Dict.set key v o) = Some v.
Proof.
  induction o as [|[k u] o IH]; simpl.
  - by rewrite String.eqb_refl.
  - destruct (String.eqb k key) eqn:E; simpl; by rewrite E.
Qed.

(** ** Identifiers along a run *)

Lemma ids_of_entry (o1 o2 : list (string * list CostBasisLot)) key v :
  lot_id <$> concat (o1 ++ (key, v) :: o2).*2 =
  (lot_id <$> concat o1.*2) ++ (lot_id <$> v) ++ (lot_id <$> concat o2.*2).
Proof.
  rewrite fmap_app, concat_app, fmap_app. simpl. by rewrite fmap_app.
Qed.

Lemma step_ids_sublist env m st tx :
  idsOf st `sublist_of` idsOf (step env m st tx).
Proof.
  unfold idsOf, step.
  destruct (tx_type tx); simpl; try done.
  - (* buy *)
    destruct (Dict.get _ (lotsByAsset st)) as [L|] eqn:Hget; simpl.
    + destruct (Dict_get_Some _ _ _ Hget) as (o1 & o2 & -> & Hset).
      rewrite Hset, !ids_of_entry. apply sublist_app; [done|].
      apply sublist_app; [|done]. rewrite fmap_app. by apply sublist_inserts_r.
    + rewrite Dict_set_None by done.
      rewrite fmap_app, concat_app, fmap_app. by apply sublist_inserts_r.
  - (* sell *)
    destruct (Dict.get _ (lotsByAsset st)) as [L|] eqn:Hget; simpl; [|done].
    destruct (Dict_get_Some _ _ _ Hget) as (o1 & o2 & -> & Hset).
    rewrite Hset, !ids_of_entry, consumeLots_ids. done.
  - (* transfer *)
    destruct (Dict.get _ (lotsByAsset st)) as [L|] eqn:Hget; simpl.
    + destruct (Dict_get_Some _ _ _ Hget) as (o1 & o2 & -> & Hset).
      rewrite Hset, !ids_of_entry. apply sublist_app; [done|].
      apply sublist_app; [|done]. rewrite fmap_app. by apply sublist_inserts_r.
    + rewrite Dict_set_None by done.
      rewrite fmap_app, concat_app, fmap_app. by apply sublist_inserts_r.
  - (* airdrop *)
    destruct (Dict.get _ (lotsByAsset st)) as [L|] eqn:Hget; simpl.
    + destruct (Dict_get_Some _ _ _ Hget) as (o1 & o2 & -> & Hset).
      rewrite Hset, !ids_of_entry. apply sublist_app; [done|].
      apply sublist_app; [|done]. rewrite fmap_app. by apply sublist_inserts_r.
    + rewrite Dict_set_None by done.
      rewrite fmap_app, concat_app, fmap_app. by apply sublist_inserts_r.
Qed.

Lemma fold_ids_sublist env m txs st :
  idsOf st `sublist_of` idsOf (fold_left (step env m) txs st).
Proof.
  revert st. induction txs as [|tx txs IH]; intros st; simpl; [done|].
  etrans; [apply step_ids_sublist|apply IH].
Qed.

Lemma entry_ids_NoDup (st : Engine) asset L :
  NoDup (idsOf st) -> Dict.get asset (lotsByAsset st) = Some L ->
  NoDup (lot_id <$> L).
Proof.
  unfold idsOf. intros Hnd Hget.
  destruct (Dict_get_Some _ _ _ Hget) as (o1 & o2 & Heq & _).
  rewrite Heq, ids_of_entry in Hnd.
  apply NoDup_app in Hnd as (_ & _ & Hnd). by apply NoDup_app in Hnd as (Hnd & _).
Qed.

Lemma lots_NoDup asset st :
  NoDup (idsOf st) ->
  NoDup (lot_id <$> default [] (Dict.get asset (lotsByAsset st))).
Proof.
  intros Hnd. destruct (Dict.get asset (lotsByAsset st)) as [L|] eqn:E; simpl.
  - by eapply entry_ids_NoDup.
  - constructor.
Qed.

(** ** What a sale leaves in the lots *)

Lemma sumBy_fmap {A B} (f : B -> Q) (g : A -> B) l :
  Array.sumBy f (g <$> l) == Array.sumBy (fun x => f (g x)) l.
Proof.
  induction l as [|x l IH]; [done|].
  rewrite fmap_cons, !sumBy_cons, IH. reflexivity.
Qed.

Lemma sumBy_ext_in {A} (f g : A -> Q) l :
  (forall x, x ∈ l -> f x == g x) -> Array.sumBy f l == Array.sumBy g l.
Proof.
  induction l as [|x l IH]; intros H; [done|].
  rewrite !sumBy_cons, IH.
  - rewrite (H x); [reflexivity|left].
  - intros y Hy. apply H. by right.
Qed.


Lemma imap_pair_snd {A} (l : list A) : (imap (fun i x => (i, x)) l).*2 = l.
Proof.
  rewrite fmap_imap.
  change (imap (fun (_ : nat) (x : A) => id x) l = l).
  change (imap (const id) l = l).
  by rewrite imap_const, list_fmap_id.
Qed.




(** ** A history of one asset *)







(** ** Processing order *)

Lemma sortedTx_Permutation txs : sortedTx txs ≡ₚ normalizeTx <$> txs.
Proof. apply sort_Permutation. Qed.

Lemma sortedTx_Forall (P : Transaction -> Prop) txs :
  Forall (fun tx => P (normalizeTx tx)) txs -> Forall P (sortedTx txs).
Proof.
  intros H. rewrite sortedTx_Permutation. by apply Forall_fmap.
Qed.


Lemma filter_bool_fmap {A B} (f : B -> bool) (g : A -> B) l :
  List.filter f (g <$> l) = g <$> List.filter (fun x => f (g x)) l.
Proof.
  induction l as [|x l IH]; [done|].
  rewrite fmap_cons. cbn [List.filter].
  destruct (f (g x)); [rewrite fmap_cons|]; by rewrite IH.
Qed.



Lemma coveredFrom_take held txs k :
  coveredFrom held txs = true -> coveredFrom held (take k txs) = true.
Proof.
  revert held k. induction txs as [|tx txs IH]; intros held [|k] H; simpl in *;
    try done.
  destruct (tx_type tx); try by apply IH.
  apply andb_prop in H as [-> H]. simpl. by apply IH.
Qed.



(** ** Which lots a sale consumes *)

Lemma refs_valid_after_take (refs : list (nat * CostBasisLot)) r
    (f : CostBasisLot -> CostBasisLot) (lots : list CostBasisLot) :
  r ∉ refs.*1 ->
  Forall (fun rl => lots !! rl.1 = Some rl.2 /\ 0 < lot_remainingAmount rl.2) refs ->
  Forall (fun rl => alter f r lots !! rl.1 = Some rl.2 /\ 0 < lot_remainingAmount rl.2)
         refs.
Proof.
  intros Hr Hall. apply Forall_forall. intros [r' s'] Hin. simpl.
  rewrite Forall_forall in Hall. specialize (Hall _ Hin). simpl in Hall.
  rewrite list_lookup_alter_ne; [done|].
  intros ->. apply Hr. apply list_elem_of_fmap. by exists (r', s').
Qed.

(** The loop consumes an initial segment of the ordered lots, taking a
    positive amount from each. *)
Lemma consumeAt_uses refs acc :
  NoDup refs.*1 ->
  Forall (fun rl => acc_lots acc !! rl.1 = Some rl.2 /\ 0 < lot_remainingAmount rl.2)
         refs ->
  exists k news,
    acc_lotsUsed (consumeAt refs acc) = acc_lotsUsed acc ++ news /\
    Forall2 takenFrom news (take k refs).
Proof.
  revert acc. induction refs as [|[r s] rest IH]; intros acc Hnd Hall; simpl.
  { exists 0%nat, []. rewrite app_nil_r. by split. }
  rewrite fmap_cons, NoDup_cons in Hnd. destruct Hnd as [Hr Hnd]. simpl in Hr.
  apply Forall_cons in Hall as [[Hlot Hpos] Hall]. simpl in Hlot, Hpos.
  destruct (Js.leb (acc_remainingToSell acc) 0) eqn:E1.
  { exists 0%nat, []. rewrite app_nil_r. by split. }
  rewrite Hlot.
  assert (Js.leb (lot_remainingAmount s) 0 = false) as -> by by apply leb_false.
  destruct (IH (takeAt r s acc) Hnd) as (k & news & Heq & Hnews).
  { simpl. by apply refs_valid_after_take. }
  exists (S k), (useOf s (Math.min (lot_remainingAmount s) (acc_remainingToSell acc)) :: news).
  split.
  - rewrite Heq. simpl. by rewrite <- app_assoc.
  - simpl. constructor; [|done].
    unfold takenFrom. simpl. split_and!; [done|done| |apply min_le_l].
    apply min_pos; [done|]. by apply leb_false in E1.
Qed.

Lemma run_snoc env m txs tx :
  run env m (txs ++ [tx]) = step env m (run env m txs) tx.
Proof. unfold run. by rewrite fold_left_app. Qed.

Lemma run_take_S env m (txs : list Transaction) k tx :
  txs !! k = Some tx ->
  run env m (take (S k) txs) = step env m (run env m (take k txs)) tx.
Proof. intros Hk. by rewrite (take_S_r _ _ _ Hk), run_snoc. Qed.

Lemma run_take_ids_NoDup env m txs k :
  NoDup (idsOf (run env m txs)) -> NoDup (idsOf (run env m (take k txs))).
Proof.
  intros Hnd. eapply sublist_NoDup; [exact Hnd|].
  unfold run. rewrite <- (take_drop k txs) at 2.
  rewrite fold_left_app. apply fold_ids_sublist.
Qed.

Lemma step_sales_prefix env m st tx :
  eng_sales st `prefix_of` eng_sales (step env m st tx).
Proof.
  unfold step. destruct (tx_type tx); simpl; try done.
  by apply prefix_app_r.
Qed.

Lemma fold_sales_prefix env m txs st :
  eng_sales st `prefix_of` eng_sales (fold_left (step env m) txs st).
Proof.
  revert st. induction txs as [|tx txs IH]; intros st; simpl; [done|].
  etrans; [apply step_sales_prefix|apply IH].
Qed.

Lemma run_take_sales_prefix env m txs k :
  eng_sales (run env m (take k txs)) `prefix_of` eng_sales (run env m txs).
Proof.
  unfold run. rewrite <- (take_drop k txs) at 2.
  rewrite fold_left_app. apply fold_sales_prefix.
Qed.

(** What a sale consumes, on the lot array it finds. *)
Lemma sellLots_consumes_initial_segment m tx (lots : list CostBasisLot) :
  NoDup (lot_id <$> lots) ->
  exists j, Forall2 takenFrom (sale_lotsUsed (sellLots m tx lots).2)
                    (take j (getLotsForMethod lots m)).
Proof.
  intros Hnd. unfold sellLots. simpl.
  rewrite consumeLots_consumeAt by done.
  destruct (consumeAt_uses (getLotsForMethod lots m)
              {| acc_lots := lots; acc_remainingToSell := tx_amount tx;
                 acc_totalCostBasis := 0; acc_lotsUsed := [] |})
    as (j & news & Heq & Hnews).
  - apply getLotsForMethod_refs_NoDup.
  - apply Forall_forall. intros [r l] Hin. by apply elem_of_getLotsForMethod in Hin.
  - exists j. by rewrite Heq.
Qed.

Lemma sale_of_step env m st tx :
  tx_type tx = sell ->
  let lots := default [] (Dict.get (Js.toUpperCase (tx_asset tx)) (lotsByAsset st)) in
  eng_sales (step env m st tx) = eng_sales st ++ [(sellLots m tx lots).2].
Proof.
  intros Hty lots. unfold step. rewrite Hty. fold lots.
  by destruct (sellLots m tx lots).
Qed.

(** The sale pushed for the [k]-th transaction is a sale of the result. *)
Lemma sale_of_history env m txs k tx :
  txs !! k = Some tx -> tx_type tx = sell ->
  let before := run env m (take k txs) in
  let lots := default [] (Dict.get (Js.toUpperCase (tx_asset tx)) (lotsByAsset before)) in
  eng_sales (run env m (take (S k) txs)) = eng_sales before ++ [(sellLots m tx lots).2] /\
  (sellLots m tx lots).2 ∈ eng_sales (run env m txs).
Proof.
  intros Hk Hty before lots.
  assert (eng_sales (run env m (take (S k) txs))
          = eng_sales before ++ [(sellLots m tx lots).2]) as Hsales.
  { rewrite (run_take_S _ _ _ _ _ Hk). by apply sale_of_step. }
  split; [done|].
  eapply elem_of_prefix; [|apply (run_take_sales_prefix _ _ _ (S k))].
  rewrite Hsales. apply elem_of_app. right. left.
Qed.

(** The consumption order, the lot identifiers being distinct.  Take any
    history and any sale in it, the [k]-th transaction in processing
    order; let [lots] be the lot array of its asset when the sale is
    reached.  The list [getLotsForMethod] builds holds exactly the lots of
    [lots] with a positive remaining amount, each once, oldest first for
    FIFO, newest first for LIFO, highest cost per unit first for HIFO; and,
    the generated lot identifiers being pairwise distinct, the sale
    recorded for the transaction consumed an initial segment of that list.
    On lots costing 30, 10 and 20 bought in that order, a sale of two units
    consumes 30 then 10 under FIFO, 20 then 10 under LIFO, and 30 then 20
    under HIFO. *)
Lemma consumption_order env transactions method k tx :
  sortedTx transactions !! k = Some tx ->
  tx_type tx = sell ->
  let before := run env method (take k (sortedTx transactions)) in
  let lots := default [] (Dict.get (Js.toUpperCase (tx_asset tx)) (lotsByAsset before)) in
  let ordered := getLotsForMethod lots method in
  (forall r l, (r, l) ∈ ordered <-> lots !! r = Some l /\ 0 < lot_remainingAmount l) /\
  NoDup ordered.*1 /\
  StronglySorted (fun a b => precedes method a.2 b.2) ordered /\
  (exists sale,
     eng_sales (run env method (take (S k) (sortedTx transactions)))
       = eng_sales before ++ [sale] /\
     sale ∈ sales (calculateCostBasis env transactions method) /\
     sale_transaction sale = tx /\
     (distinctLotIds (CostBasis.lots (calculateCostBasis env transactions method)) ->
      exists j, Forall2 takenFrom (sale_lotsUsed sale) (take j ordered))) /\
  costsUsed (calculateCostBasis countingEnv threeLots FIFO) = [[30; 10]] /\
  costsUsed (calculateCostBasis countingEnv threeLots LIFO) = [[20; 10]] /\
  costsUsed (calculateCostBasis countingEnv threeLots HIFO) = [[30; 20]].
Proof.
  intros Hk Hty before lots ordered. split_and!.
  - intros r l. apply elem_of_getLotsForMethod.
  - apply getLotsForMethod_refs_NoDup.
  - apply getLotsForMethod_sorted.
  - destruct (sale_of_history env method _ _ _ Hk Hty) as [Hsales Hin].
    exists (sellLots method tx lots).2. split_and!; [done..|].
    intros Hnd. apply sellLots_consumes_initial_segment.
    apply lots_NoDup. by apply run_take_ids_NoDup.
  - by vm_compute.
  - by vm_compute.
  - by vm_compute.
Qed.

Lemma consumption_order_witness :
  let tx := normalizeTx (mkTx "0xa4" sell "ETH" 2 1700000300 100) in
  let before := run countingEnv HIFO (take 3 (sortedTx threeLots)) in
  let lots := default [] (Dict.get (Js.toUpperCase (tx_asset tx)) (lotsByAsset before)) in
  let ordered := getLotsForMethod lots HIFO in
  (forall r l, (r, l) ∈ ordered <-> lots !! r = Some l /\ 0 < lot_remainingAmount l) /\
  NoDup ordered.*1 /\
  StronglySorted (fun a b => precedes HIFO a.2 b.2) ordered /\
  (exists sale,
     eng_sales (run countingEnv HIFO (take 4 (sortedTx threeLots)))
       = eng_sales before ++ [sale] /\
     sale ∈ sales (calculateCostBasis countingEnv threeLots HIFO) /\
     sale_transaction sale = tx /\
     exists j, Forall2 takenFrom (sale_lotsUsed sale) (take j ordered)) /\
  costsUsed (calculateCostBasis countingEnv threeLots FIFO) = [[30; 10]] /\
  costsUsed (calculateCostBasis countingEnv threeLots LIFO) = [[20; 10]] /\
  costsUsed (calculateCostBasis countingEnv threeLots HIFO) = [[30; 20]].
Proof.
  destruct (consumption_order countingEnv threeLots HIFO 3
              (normalizeTx (mkTx "0xa4" sell "ETH" 2 1700000300 100))
              eq_refl eq_refl)
    as (H1 & H2 & H3 & (sale & Ha & Hb & Hc & Hd) & He).
  split_and!; [exact H1|exact H2|exact H3| |apply He..].
  exists sale. split_and!; [exact Ha|exact Hb|exact Hc|].
  apply Hd. unfold distinctLotIds. apply (bool_decide_unpack _). vm_compute. exact I.
Defined.

(** C1. What a collision of lot identifiers does to the consumption
    order.  Two purchases recorded under one transaction hash, on a host
    whose clock and random generator answer the same at both lot
    creations, get one identifier.  Under LIFO the sale of both units then
    consumes the newer lot only: the write through
    [lots.find(l => l.id === lot.id)] lands on the older lot, the first to
    carry the identifier, which drops to 0 and is passed over when its turn
    comes, while the newer lot keeps its unit and the sale is costed 20.
    With distinct identifiers the same history consumes the lot costing 20
    and then the lot costing 10, as the order of the method has it, and is
    costed 30. *)
Theorem colliding_ids_skip_an_available_lot :
  let r := calculateCostBasis stuckEnv sameHashTwice LIFO in
  let r' := calculateCostBasis countingEnv sameHashTwice LIFO in
  lot_id <$> lots r = ["0xc1-1767225600000-4fzyo"; "0xc1-1767225600000-4fzyo"] /\
  costsUsed r = [[20]] /\
  (fun s => (fun u => Qred (use_amountUsed u)) <$> sale_lotsUsed s) <$> sales r = [[1]] /\
  (fun l => Qred (lot_remainingAmount l)) <$> lots r = [0; 1] /\
  (fun s => Qred (sale_costBasis s)) <$> sales r = [20] /\
  costsUsed r' = [[20; 10]] /\
  (fun l => Qred (lot_remainingAmount l)) <$> lots r' = [0; 0] /\
  (fun s => Qred (sale_costBasis s)) <$> sales r' = [30].
Proof. split_and!; by vm_compute. Qed.

(** ** What a sale is costed *)

Lemma availableLots_lots lots :
  (availableLots lots).*2 = List.filter (fun l => Js.ltb 0 (lot_remainingAmount l)) lots.
Proof.
  unfold availableLots.
  rewrite <- (imap_pair_snd lots) at 2.
  by rewrite (filter_bool_fmap (fun l => Js.ltb 0 (lot_remainingAmount l)) snd).
Qed.

Lemma heldIn_snapshot lots refs :
  Forall (fun rl => lots !! rl.1 = Some rl.2 /\ 0 < lot_remainingAmount rl.2) refs ->
  heldIn lots refs == Array.sumBy (fun rl => lot_remainingAmount rl.2) refs.
Proof.
  intros Hall. apply sumBy_ext_in. intros [r l] Hin.
  rewrite Forall_forall in Hall. destruct (Hall _ Hin) as [Hl _]. simpl in *.
  rewrite Hl. reflexivity.
Qed.

Lemma availableLots_valid lots :
  Forall (fun rl => lots !! rl.1 = Some rl.2 /\ 0 < lot_remainingAmount rl.2)
         (availableLots lots).
Proof.
  apply Forall_forall. intros [r l] Hin. by apply elem_of_availableLots in Hin.
Qed.

Lemma getLotsForMethod_valid lots m :
  Forall (fun rl => lots !! rl.1 = Some rl.2 /\ 0 < lot_remainingAmount rl.2)
         (getLotsForMethod lots m).
Proof.
  apply Forall_forall. intros [r l] Hin. by apply elem_of_getLotsForMethod in Hin.
Qed.

Lemma heldIn_availableAmount lots :
  heldIn lots (availableLots lots) == availableAmount lots.
Proof.
  rewrite heldIn_snapshot by apply availableLots_valid.
  unfold availableAmount.
  rewrite <- availableLots_lots, sumBy_fmap. reflexivity.
Qed.

Lemma valid_sum_nonneg (refs : list (nat * CostBasisLot)) :
  Forall (fun rl => 0 < lot_remainingAmount rl.2) refs ->
  0 <= Array.sumBy (fun rl => lot_remainingAmount rl.2) refs.
Proof.
  induction 1 as [|rl refs Hrl _ IH].
  - rewrite sumBy_nil. lra.
  - rewrite sumBy_cons. lra.
Qed.







(** ** Independence from the generated identifiers *)

Lemma sort_fmap {A B} (cmp : A -> A -> Q) (cmp' : B -> B -> Q) (g : A -> B) l :
  (forall a b, cmp' (g a) (g b) = cmp a b) ->
  Array.sort cmp' (g <$> l) = g <$> Array.sort cmp l.
Proof.
  intros Hc. induction l as [|x l IH]; [done|].
  rewrite fmap_cons. simpl. rewrite IH. clear IH.
  induction (Array.sort cmp l) as [|y k IH]; [done|].
  rewrite fmap_cons. simpl. rewrite Hc.
  destruct (Qle_bool (cmp x y) 0); [done|]. by rewrite IH, fmap_cons.
Qed.

Lemma availableLots_forget lots :
  availableLots (forgetLotId <$> lots) = forgetRef <$> availableLots lots.
Proof.
  unfold availableLots.
  rewrite imap_fmap.
  rewrite <- (filter_bool_fmap
                (fun rl : nat * CostBasisLot => Js.ltb 0 (lot_remainingAmount rl.2))
                forgetRef).
  by rewrite fmap_imap.
Qed.

Lemma getLotsForMethod_forget lots m :
  getLotsForMethod (forgetLotId <$> lots) m = forgetRef <$> getLotsForMethod lots m.
Proof.
  unfold getLotsForMethod. rewrite availableLots_forget.
  destruct m; by apply sort_fmap.
Qed.

Lemma alter_take_forget a (r : nat) (lots : list CostBasisLot) :
  forgetLotId <$> alter (takeFromLot a) r lots =
  alter (takeFromLot a) r (forgetLotId <$> lots).
Proof. apply list_fmap_alter. by apply Forall_forall. Qed.

Lemma consumeAt_forget refs acc :
  forgetAcc (consumeAt refs acc) = consumeAt (forgetRef <$> refs) (forgetAcc acc).
Proof.
  revert acc. induction refs as [|[r s] rest IH]; intros acc; [done|].
  rewrite fmap_cons. simpl.
  destruct (Js.leb (acc_remainingToSell acc) 0); [done|].
  rewrite list_lookup_fmap.
  destruct (acc_lots acc !! r) as [lot|]; simpl; [|by apply IH].
  destruct (Js.leb (lot_remainingAmount lot) 0); [by apply IH|].
  rewrite IH. f_equal. unfold takeAt, forgetAcc. simpl.
  by rewrite alter_take_forget, fmap_app.
Qed.

Lemma sellLots_forget m tx lots1 lots2 :
  NoDup (lot_id <$> lots1) -> NoDup (lot_id <$> lots2) ->
  forgetLotId <$> lots1 = forgetLotId <$> lots2 ->
  forgetLotId <$> (sellLots m tx lots1).1 = forgetLotId <$> (sellLots m tx lots2).1 /\
  forgetSaleIds (sellLots m tx lots1).2 = forgetSaleIds (sellLots m tx lots2).2.
Proof.
  intros Hnd1 Hnd2 Heq. unfold sellLots. simpl.
  rewrite !consumeLots_consumeAt by done.
  set (acc1 := {| acc_lots := lots1; acc_remainingToSell := tx_amount tx;
                  acc_totalCostBasis := 0; acc_lotsUsed := [] |}).
  set (acc2 := {| acc_lots := lots2; acc_remainingToSell := tx_amount tx;
                  acc_totalCostBasis := 0; acc_lotsUsed := [] |}).
  assert (forgetAcc (consumeAt (getLotsForMethod lots1 m) acc1) =
          forgetAcc (consumeAt (getLotsForMethod lots2 m) acc2)) as Hacc.
  { rewrite !consumeAt_forget, <- !getLotsForMethod_forget.
    unfold forgetAcc, acc1, acc2. simpl. by rewrite Heq. }
  unfold forgetAcc in Hacc. injection Hacc as H1 H2 H3 H4.
  split; [done|]. unfold forgetSaleIds. simpl. by rewrite H3, H4.
Qed.

Lemma Dict_get_fmap {V W} (f : V -> W) key (o : list (string * V)) :
  Dict.get key ((fun kv => (kv.1, f kv.2)) <$> o) = f <$> Dict.get key o.
Proof.
  induction o as [|[k v] o IH]; [done|].
  rewrite fmap_cons. simpl. by destruct (String.eqb k key).
Qed.

Lemma Dict_set_fmap {V W} (f : V -> W) key v (o : list (string * V)) :
  (fun kv => (kv.1, f kv.2)) <$> Dict.set key v o =
  Dict.set key (f v) ((fun kv => (kv.1, f kv.2)) <$> o).
Proof.
  induction o as [|[k w] o IH]; [done|].
  rewrite fmap_cons. simpl.
  destruct (String.eqb k key); rewrite fmap_cons; simpl; [done|]. by rewrite IH.
Qed.

Lemma Dict_get_forget key (o : list (string * list CostBasisLot)) :
  Dict.get key (forgetEntry <$> o) =
  (fun L : list CostBasisLot => forgetLotId <$> L) <$> Dict.get key o.
Proof. apply (Dict_get_fmap (fun L : list CostBasisLot => forgetLotId <$> L)). Qed.

Lemma Dict_set_forget key v (o : list (string * list CostBasisLot)) :
  forgetEntry <$> Dict.set key v o =
  Dict.set key (forgetLotId <$> v) (forgetEntry <$> o).
Proof. apply (Dict_set_fmap (fun L : list CostBasisLot => forgetLotId <$> L)). Qed.

Lemma lots_of_forget asset (d1 d2 : list (string * list CostBasisLot)) :
  forgetEntry <$> d1 = forgetEntry <$> d2 ->
  forgetLotId <$> default [] (Dict.get asset d1) =
  forgetLotId <$> default [] (Dict.get asset d2) /\
  (is_Some (Dict.get asset d1) <-> is_Some (Dict.get asset d2)).
Proof.
  intros Heq.
  pose proof (Dict_get_forget asset d1) as H1.
  pose proof (Dict_get_forget asset d2) as H2.
  rewrite Heq, H2 in H1.
  destruct (Dict.get asset d1), (Dict.get asset d2); simplify_eq/=;
    split; try done; split; intros []; done.
Qed.

Lemma step_forget env1 env2 m st1 st2 tx :
  forgetEngine st1 = forgetEngine st2 ->
  NoDup (idsOf st1) -> NoDup (idsOf st2) ->
  forgetEngine (step env1 m st1 tx) = forgetEngine (step env2 m st2 tx).
Proof.
  intros Heq Hnd1 Hnd2.
  unfold forgetEngine in Heq. injection Heq as Hd Hs Hg Hl Hr.
  set (asset := Js.toUpperCase (tx_asset tx)).
  destruct (lots_of_forget asset _ _ Hd) as [HL Hsome].
  assert (forall e1 e2,
            forgetEntry <$>
              Dict.set asset (default [] (Dict.get asset (lotsByAsset st1))
                              ++ [newLot e1 asset tx]) (lotsByAsset st1) =
            forgetEntry <$>
              Dict.set asset (default [] (Dict.get asset (lotsByAsset st2))
                              ++ [newLot e2 asset tx]) (lotsByAsset st2)) as Hacq.
  { intros e1 e2.
    rewrite !Dict_set_forget.
    by rewrite Hd, !fmap_app, HL. }
  unfold step. fold asset.
  destruct (tx_type tx); unfold forgetEngine; simpl.
  - by rewrite (Hacq _ (env2 (eng_readings st2))), Hs, Hg, Hl, Hr.
  - destruct (sellLots_forget m tx
                (default [] (Dict.get asset (lotsByAsset st1)))
                (default [] (Dict.get asset (lotsByAsset st2))))
      as [Hlots Hsale]; [by apply lots_NoDup..|done|].
    unfold sellLots in Hlots, Hsale. simpl in Hlots, Hsale.
    pose proof (f_equal sale_costBasis Hsale) as Hs1.
    pose proof (f_equal sale_lotsUsed Hsale) as Hs2.
    simpl in Hs1, Hs2.
    f_equal.
    + destruct (Dict.get asset (lotsByAsset st1)) as [L1|] eqn:E1,
               (Dict.get asset (lotsByAsset st2)) as [L2|] eqn:E2;
        simpl in *.
      * rewrite !Dict_set_forget.
        by rewrite Hd, Hlots.
      * destruct Hsome as [Hsome _]. by destruct Hsome.
      * destruct Hsome as [_ Hsome]. by destruct Hsome.
      * done.
    + rewrite !fmap_app, Hs. simpl. unfold forgetSaleIds. simpl.
      by rewrite Hs1, Hs2.
    + by rewrite Hs1, Hg.
    + by rewrite Hs1, Hl.
    + done.
  - by rewrite (Hacq _ (env2 (eng_readings st2))), Hs, Hg, Hl, Hr.
  - by rewrite Hd, Hs, Hg, Hl, Hr.
  - by rewrite (Hacq _ (env2 (eng_readings st2))), Hs, Hg, Hl, Hr.
Qed.

Lemma run_forget env1 env2 m txs :
  forall st1 st2,
    forgetEngine st1 = forgetEngine st2 ->
    NoDup (idsOf (fold_left (step env1 m) txs st1)) ->
    NoDup (idsOf (fold_left (step env2 m) txs st2)) ->
    forgetEngine (fold_left (step env1 m) txs st1) =
    forgetEngine (fold_left (step env2 m) txs st2).
Proof.
  induction txs as [|tx txs IH]; intros st1 st2 Heq Hnd1 Hnd2; simpl in *; [done|].
  apply IH; [|done..].
  apply step_forget; [done| |].
  - eapply sublist_NoDup; [exact Hnd1|].
    etrans; [apply (step_ids_sublist env1 m st1 tx)|apply fold_ids_sublist].
  - eapply sublist_NoDup; [exact Hnd2|].
    etrans; [apply (step_ids_sublist env2 m st2 tx)|apply fold_ids_sublist].
Qed.

Lemma fold_sum_fmap {A B} (f : B -> Q) (g : A -> B) l a :
  fold_left (fun sum x => sum + f x) (g <$> l) a =
  fold_left (fun sum x => sum + f (g x)) l a.
Proof.
  revert a. induction l as [|x l IH]; intros a; [done|].
  rewrite fmap_cons. simpl. apply IH.
Qed.

Lemma holdingOf_forget L : holdingOf (forgetLotId <$> L) = holdingOf L.
Proof.
  unfold holdingOf, Array.sumBy.
  rewrite (filter_bool_fmap (fun l => Js.ltb 0 (lot_remainingAmount l)) forgetLotId).
  by rewrite !fold_sum_fmap.
Qed.

Lemma finish_forget st : forgetIds (finish st) = finish (forgetEngine st).
Proof.
  unfold forgetIds, finish. simpl. f_equal.
  - induction (lotsByAsset st) as [|[k L] d IH]; [done|].
    rewrite !fmap_cons. simpl. by rewrite fmap_app, IH.
  - induction (lotsByAsset st) as [|[k L] d IH]; [done|].
    rewrite fmap_cons. simpl. rewrite holdingOf_forget.
    destruct (holdingOf L); [f_equal|]; exact IH.
Qed.

(** C4, as amended.  Two calls on the same transactions and method return
    the same result up to the identifiers of the lots (the [id] of each lot
    and the [lotId] of each [lotsUsed] entry, which embed the clock and the
    random generator), whenever the identifiers each call generates are
    pairwise distinct. *)
Theorem deterministic_up_to_lot_ids env1 env2 transactions method :
  distinctLotIds (lots (calculateCostBasis env1 transactions method)) ->
  distinctLotIds (lots (calculateCostBasis env2 transactions method)) ->
  forgetIds (calculateCostBasis env1 transactions method) =
  forgetIds (calculateCostBasis env2 transactions method).
Proof.
  intros Hnd1 Hnd2. unfold calculateCostBasis.
  rewrite !finish_forget. f_equal. by apply run_forget.
Qed.

Lemma deterministic_up_to_lot_ids_witness :
  forgetIds (calculateCostBasis countingEnv threeLots LIFO) =
  forgetIds (calculateCostBasis laterEnv threeLots LIFO).
Proof.
  apply (deterministic_up_to_lot_ids countingEnv laterEnv threeLots LIFO);
    unfold distinctLotIds; apply (bool_decide_unpack _); vm_compute; exact I.
Defined.

(** C4, as stated, fails: the lots returned by two calls on the same
    transactions differ when the clock has moved in between. *)
Lemma calculateCostBasis_reads_the_clock :
  ~ (forall env1 env2 transactions method,
       calculateCostBasis env1 transactions method =
       calculateCostBasis env2 transactions method).
Proof.
  intros H.
  specialize (H countingEnv laterEnv (take 1 threeLots) FIFO).
  apply (f_equal (fun r => lot_id <$> lots r)) in H.
  vm_compute in H. discriminate H.
Qed.

(** ** Totals *)

Lemma step_totals_nonneg env m st tx :
  0 <= eng_totalGains st -> 0 <= eng_totalLosses st ->
  0 <= eng_totalGains (step env m st tx) /\ 0 <= eng_totalLosses (step env m st tx).
Proof.
  intros Hg Hl. unfold step. destruct (tx_type tx); simpl; try done.
  destruct (Js.ltb 0 _) eqn:E; cmp_cases; split; try done.
  - lra.
  - pose proof (abs_nonneg
      (tx_valueEur tx -
       acc_totalCostBasis
         (consumeLots
            (getLotsForMethod
               (default [] (Dict.get (Js.toUpperCase (tx_asset tx)) (lotsByAsset st))) m)
            {| acc_lots :=
                 default [] (Dict.get (Js.toUpperCase (tx_asset tx)) (lotsByAsset st));
               acc_remainingToSell := tx_amount tx;
               acc_totalCostBasis := 0; acc_lotsUsed := [] |}))).
    lra.
Qed.

Lemma run_totals_nonneg env m txs st :
  0 <= eng_totalGains st -> 0 <= eng_totalLosses st ->
  0 <= eng_totalGains (fold_left (step env m) txs st) /\
  0 <= eng_totalLosses (fold_left (step env m) txs st).
Proof.
  revert st. induction txs as [|tx txs IH]; intros st Hg Hl; simpl; [done|].
  destruct (step_totals_nonneg env m st tx Hg Hl). by apply IH.
Qed.

(** C9. The totals of every result of [calculateCostBasis] and of every
    result of [filterTaxResultsByYear] are non-negative, and the net gain
    is the total gains minus the total losses. *)
Theorem totals_nonnegative_and_net :
  (forall env transactions method,
     let r := calculateCostBasis env transactions method in
     0 <= totalGains r /\ 0 <= totalLosses r /\
     netGain r = totalGains r - totalLosses r) /\
  (forall getFullYear result year,
     let y := filterTaxResultsByYear getFullYear result year in
     0 <= yr_totalGains y /\ 0 <= yr_totalLosses y /\
     yr_netGain y = yr_totalGains y - yr_totalLosses y).
Proof.
  split.
  - intros env txs m. simpl.
    destruct (run_totals_nonneg env m (sortedTx txs) initEngine) as [Hg Hl];
      [done..|].
    split_and!; done.
  - intros getFullYear r year. simpl. split_and!; [| |done].
    + apply sumBy_nonneg. intros s. apply max0_nonneg.
    + apply sumBy_nonneg. intros s. apply abs_nonneg.
Qed.

(** ** Year filter *)

Lemma filter_bool_idemp {A} (f : A -> bool) l :
  List.filter f (List.filter f l) = List.filter f l.
Proof.
  induction l as [|x l IH]; simpl; [done|].
  destruct (f x) eqn:E; simpl; [|done]. by rewrite E, IH.
Qed.

(** C8. Filtering a second time changes nothing: on any result whose
    sales are the taxable events the filter returned for a year, the filter
    for the same year returns the same taxable events and the same
    totals. *)
Theorem year_filter_idempotent getFullYear result result' year :
  sales result' = taxableEvents (filterTaxResultsByYear getFullYear result year) ->
  filterTaxResultsByYear getFullYear result' year
  = filterTaxResultsByYear getFullYear result year.
Proof.
  intros Hs. unfold filterTaxResultsByYear in *. simpl in *.
  by rewrite Hs, filter_bool_idemp.
Qed.

Lemma year_filter_idempotent_witness :
  let r := calculateCostBasis countingEnv twoAssets FIFO in
  let y := filterTaxResultsByYear evenYears r 2023 in
  filterTaxResultsByYear evenYears (withSales r (taxableEvents y)) 2023 = y.
Proof.
  exact (year_filter_idempotent evenYears
           (calculateCostBasis countingEnv twoAssets FIFO)
           (withSales (calculateCostBasis countingEnv twoAssets FIFO)
              (taxableEvents (filterTaxResultsByYear evenYears
                                (calculateCostBasis countingEnv twoAssets FIFO) 2023)))
           2023 eq_refl).
Defined.

(** C8, as stated, fails: [filterTaxResultsByYear] cannot be applied to
    what it returns, an object with [taxableEvents] and without [sales];
    the second call throws where the first returned. *)
Lemma year_filter_rejects_its_own_result :
  let r := calculateCostBasis countingEnv twoAssets FIFO in
  let y := filterTaxResultsByYear evenYears r 2023 in
  filterTaxResultsByYearOn evenYears (ofCostBasis r) 2023 = Filtered y /\
  length (taxableEvents y) = 2%nat /\
  filterTaxResultsByYearOn evenYears (ofYearFilter y) 2023 = TypeError /\
  filterTaxResultsByYearOn evenYears (ofYearFilter y) 2023
    <> filterTaxResultsByYearOn evenYears (ofCostBasis r) 2023.
Proof. split_and!; [done|by vm_compute|done|done]. Qed.

(** ** Unrealized gains *)

Lemma Dict_get_set_ne {V} key key' (o : list (string * V)) v :
  key <> key' -> Dict.get key' (Dict.set key v o) = Dict.get key' o.
Proof.
  intros Hne. induction o as [|[k u] o IH]; simpl.
  - destruct (String.eqb key key') eqn:E; [|done].
    by apply String.eqb_eq in E.
  - destruct (String.eqb k key) eqn:E1; simpl.
    + apply String.eqb_eq in E1 as ->.
      destruct (String.eqb key key') eqn:E2; [|done].
      by apply String.eqb_eq in E2.
    + by rewrite IH.
Qed.

Lemma unrealized_fold_other currentPrices entries acc asset :
  asset ∉ entries.*1 ->
  Dict.get asset (byAsset (fold_left (unrealizedStep currentPrices) entries acc))
  = Dict.get asset (byAsset acc).
Proof.
  revert acc. induction entries as [|[a d] entries IH]; intros acc Hn; simpl; [done|].
  rewrite fmap_cons, not_elem_of_cons in Hn. destruct Hn as [Hne Hn]. simpl in Hne.
  rewrite IH by done. simpl. by apply Dict_get_set_ne.
Qed.

Lemma unrealized_fold_entry currentPrices entries acc asset data :
  NoDup entries.*1 -> (asset, data) ∈ entries ->
  Dict.get asset (byAsset (fold_left (unrealizedStep currentPrices) entries acc))
  = Some (assetGainOf currentPrices asset data).
Proof.
  revert acc. induction entries as [|[a d] entries IH]; intros acc Hnd Hin.
  { by apply elem_of_nil in Hin. }
  rewrite fmap_cons, NoDup_cons in Hnd. destruct Hnd as [Hfresh Hnd].
  simpl in Hfresh. apply elem_of_cons in Hin as [[= <- <-]|Hin]; cbn [fold_left].
  - rewrite unrealized_fold_other by done. simpl. apply Dict_get_set_eq.
  - by apply IH.
Qed.

(** C6. For every entry of the object passed to [calculateUnrealizedGains]
    (an object has each key once), the entry reported for the asset carries
    the cost basis passed in and the current value amount times price, and
    its unrealized gain is: 0 when the cost basis is below 0.01; otherwise
    half the current value when current value minus cost basis exceeds the
    current value; otherwise current value minus cost basis. *)
Theorem unrealized_gain_rule unrealizedGains currentPrices asset data :
  NoDup unrealizedGains.*1 ->
  (asset, data) ∈ unrealizedGains ->
  exists g,
    Dict.get asset (byAsset (calculateUnrealizedGains unrealizedGains currentPrices))
      = Some g /\
    ag_amount g = h_amount data /\
    ag_costBasis g = h_costBasis data /\
    ag_currentValue g = h_amount data * currentPriceOf currentPrices asset /\
    (h_costBasis data < 1 # 100 -> ag_unrealizedGainLoss g = 0) /\
    (~ h_costBasis data < 1 # 100 ->
     ag_currentValue g < ag_currentValue g - h_costBasis data ->
     ag_unrealizedGainLoss g = ag_currentValue g * (1 # 2)) /\
    (~ h_costBasis data < 1 # 100 ->
     ~ ag_currentValue g < ag_currentValue g - h_costBasis data ->
     ag_unrealizedGainLoss g = ag_currentValue g - h_costBasis data).
Proof.
  intros Hnd Hin. exists (assetGainOf currentPrices asset data).
  split.
  { unfold calculateUnrealizedGains.
    exact (unrealized_fold_entry currentPrices _ _ asset data Hnd Hin). }
  unfold assetGainOf. simpl. split_and!; try done.
  - intros Hlt. apply ltb_true in Hlt. rewrite Hlt. by rewrite orb_true_r.
  - intros Hge Hcap.
    destruct (Qeq_bool (h_costBasis data) 0) eqn:E0.
    { apply Qeq_bool_eq in E0. exfalso. apply Hge. rewrite E0. reflexivity. }
    destruct (Js.ltb (h_costBasis data) (1 # 100)) eqn:E1.
    { by apply ltb_true in E1. }
    simpl. apply ltb_true in Hcap. by rewrite Hcap.
  - intros Hge Hcap.
    destruct (Qeq_bool (h_costBasis data) 0) eqn:E0.
    { apply Qeq_bool_eq in E0. exfalso. apply Hge. rewrite E0. reflexivity. }
    destruct (Js.ltb (h_costBasis data) (1 # 100)) eqn:E1.
    { by apply ltb_true in E1. }
    simpl. rewrite (proj2 (ltb_false _ _)); [done|]. by apply Qnot_lt_le.
Qed.

(** With exact numbers the second case never fires: it needs a cost basis
    that is at least 0.01 and negative at once. *)
Remark cap_needs_negative_cost_basis (currentValue costBasis : Q) :
  ~ costBasis < 1 # 100 -> ~ currentValue < currentValue - costBasis.
Proof. intros H1 H2. apply H1. lra. Qed.

Lemma unrealized_gain_rule_witness :
  let data := {| h_amount := 2; h_costBasis := 40000; h_avgCost := 20000 |} in
  exists g,
    Dict.get "BTC" (byAsset (calculateUnrealizedGains someHoldings somePrices))
      = Some g /\
    ag_amount g = h_amount data /\
    ag_costBasis g = h_costBasis data /\
    ag_currentValue g = h_amount data * currentPriceOf somePrices "BTC" /\
    (h_costBasis data < 1 # 100 -> ag_unrealizedGainLoss g = 0) /\
    (~ h_costBasis data < 1 # 100 ->
     ag_currentValue g < ag_currentValue g - h_costBasis data ->
     ag_unrealizedGainLoss g = ag_currentValue g * (1 # 2)) /\
    (~ h_costBasis data < 1 # 100 ->
     ~ ag_currentValue g < ag_currentValue g - h_costBasis data ->
     ag_unrealizedGainLoss g = ag_currentValue g - h_costBasis data).
Proof.
  apply (unrealized_gain_rule someHoldings somePrices "BTC").
  - apply (bool_decide_unpack _). vm_compute. exact I.
  - unfold someHoldings. left.
Defined.

End CostBasisProps.

(** * Properties of the vault *)

Module CryptoVaultProps.
Import CryptoVault.

Section RoundTrip.
Context {CryptoKey : Type}.
Context (AES_GCM_encrypt : CryptoKey -> list Byte.byte -> list Byte.byte -> list Byte.byte).
Context (AES_GCM_decrypt : CryptoKey -> list Byte.byte -> list Byte.byte -> option (list Byte.byte)).
Context (btoa : string -> string) (atob : string -> option string).
Context (TextEncoder_encode : string -> list Byte.byte).
Context (TextDecoder_decode : list Byte.byte -> string).
Context (JSON_stringify : Json -> string) (JSON_parse : string -> option Json).

(** The contracts of the platform primitives. *)
Hypothesis gcm_decrypts : forall k iv pt,
  AES_GCM_decrypt k iv (AES_GCM_encrypt k iv pt) = Some pt.
Hypothesis gcm_authenticates : forall k k' iv pt,
  k <> k' -> AES_GCM_decrypt k' iv (AES_GCM_encrypt k iv pt) = None.
Hypothesis atob_btoa : forall s, atob (btoa s) = Some s.
Hypothesis decode_encode : forall v,
  TextDecoder_decode (TextEncoder_encode (JSON_stringify v)) = JSON_stringify v.

Local Abbreviation encryptWithKey :=
  (encryptWithKey AES_GCM_encrypt btoa TextEncoder_encode JSON_stringify).
Local Abbreviation decryptWithKey :=
  (decryptWithKey AES_GCM_decrypt atob TextDecoder_decode JSON_parse).

Lemma b64decode_b64encode bytes :
  b64decode atob (b64encode btoa bytes) = Returned bytes.
Proof.
  unfold b64decode, b64encode.
  by rewrite atob_btoa, list_byte_of_string_of_list_byte.
Qed.

(** C3. With AES-GCM, base64, UTF-8 and JSON behaving as their contracts
    say, decrypting with the vault that encrypted returns the payload,
    for every JSON-serializable payload and every initialisation vector;
    decrypting with a vault holding another key throws (the rejection of
    [crypto.subtle.decrypt]) and returns nothing. *)
Theorem encrypt_decrypt_round_trip iv p vault :
  jsonSerializable JSON_stringify JSON_parse p ->
  decryptWithKey (encryptWithKey iv p vault) vault = Returned p /\
  forall other,
    vault_key other <> vault_key vault ->
    decryptWithKey (encryptWithKey iv p vault) other = Thrown OperationError.
Proof.
  intros Hp. unfold CryptoVault.decryptWithKey, CryptoVault.encryptWithKey. simpl.
  rewrite !b64decode_b64encode. split.
  - by rewrite gcm_decrypts, decode_encode, Hp.
  - intros other Hk. by rewrite gcm_authenticates.
Qed.
End RoundTrip.

Lemma toy_decrypts k iv pt : Toy.decrypt k iv (Toy.encrypt k iv pt) = Some pt.
Proof.
  simpl. by rewrite Byte.byte_dec_lb.
Qed.

Lemma toy_authenticates k k' iv pt :
  k <> k' -> Toy.decrypt k' iv (Toy.encrypt k iv pt) = None.
Proof.
  intros Hk. simpl. destruct (Byte.eqb k k') eqn:E; [|done].
  by apply Byte.byte_dec_bl in E.
Qed.

Lemma encrypt_decrypt_round_trip_witness :
  let iv := [Byte.x01; Byte.x02; Byte.x03] in
  let p := JObject [("wallets", JArray [JString "0xAbc"; JNumber 3]);
                    ("locked", JBool false)] in
  let parse := Persistence.ToyJson.parse [p] in
  let enc := encryptWithKey Toy.encrypt Toy.btoa list_byte_of_string Persistence.ToyJson.render
               iv p (Toy.vault Byte.x2a) in
  payload_ct enc <> Persistence.ToyJson.render p /\
  decryptWithKey Toy.decrypt Toy.atob string_of_list_byte parse enc
    (Toy.vault Byte.x2a) = Returned p /\
  forall other,
    vault_key other <> vault_key (Toy.vault Byte.x2a) ->
    decryptWithKey Toy.decrypt Toy.atob string_of_list_byte parse enc other
    = Thrown OperationError.
Proof.
  intros iv p parse enc. split; [by vm_compute|].
  apply (encrypt_decrypt_round_trip Toy.encrypt Toy.decrypt Toy.btoa Toy.atob
           list_byte_of_string string_of_list_byte Persistence.ToyJson.render parse).
  - exact toy_decrypts.
  - exact toy_authenticates.
  - reflexivity.
  - intros v. apply string_of_list_byte_of_string.
  - by vm_compute.
Defined.

End CryptoVaultProps.

(** * Properties of the secure storage *)

Module StorageProps.
Import Storage.

Section Reads.
Context {CryptoKey : Type}.
Context (JSON_stringify : Json -> string) (JSON_parse : string -> option Json).
Context (settingsSchema_safeParse : Json -> option Json).

(** C7, as amended.  With no vault unlocked, reading a key of the
    encrypted set throws [VaultLockedError] when a non-empty value is
    stored under the key; when nothing (or the empty string) is stored
    under it, the read returns the caller's default. *)
Theorem locked_read_throws_when_stored key defaultValue (w : World CryptoKey) :
  key ∈ ENCRYPTED_KEYS ->
  _vault w = None ->
  getSecureData JSON_parse key defaultValue w =
    match localStorage w !! key with
    | Some raw =>
        if String.eqb raw EmptyString then Returned defaultValue
        else Thrown VaultLockedError
    | None => Returned defaultValue
    end.
Proof.
  intros Hkey Hvault. unfold getSecureData.
  destruct (localStorage w !! key) as [raw|]; [|done].
  destruct (String.eqb raw EmptyString); [done|].
  assert (isEncryptedKey key = true) as ->.
  { unfold isEncryptedKey. apply existsb_exists. exists key.
    split; [by apply list_elem_of_In|apply String.eqb_refl]. }
  unfold isVaultReady. by rewrite Hvault.
Qed.

(** C10. [importBackupData] on anything whose version tag is not the
    number 1 throws before it writes: the cache, the persisted store and
    the pending writes are those before the call. *)
Theorem import_rejects_other_versions backup (w : World CryptoKey) :
  ~ hasVersion1 backup ->
  importBackupData JSON_stringify settingsSchema_safeParse backup w
  = (Thrown (Error "Backup non supportato"), w).
Proof.
  intros Hv. unfold importBackupData.
  destruct (negb (JsValue.truthy backup)
            || negb (JsValue.isNumber 1 (JsValue.prop "v" backup))) eqn:E; [done|].
  exfalso. apply Hv.
  apply orb_false_elim in E as [_ E]. apply negb_false_iff in E.
  unfold JsValue.isNumber, JsValue.prop in E.
  destruct backup as [| | | | |fields]; try done.
  destruct (Dict.get "v" fields) as [[| |q| | |]|] eqn:Ev; try done.
  exists fields, q. split_and!; [done..|]. by apply Qeq_bool_eq.
Qed.
End Reads.

Lemma locked_read_throws_when_stored_witness :
  getSecureData (fun _ => None) STORAGE_KEYS.WALLETS (JArray [])
    (lockedWorldWith (CryptoKey := Byte.byte) STORAGE_KEYS.WALLETS "{}")
  = Thrown VaultLockedError.
Proof.
  apply (locked_read_throws_when_stored (fun _ => None) STORAGE_KEYS.WALLETS (JArray [])
           (lockedWorldWith (CryptoKey := Byte.byte) STORAGE_KEYS.WALLETS "{}")).
  - apply (bool_decide_unpack _). vm_compute. exact I.
  - reflexivity.
Defined.

(** C7, as stated, fails: nothing is stored under the key, no vault is
    unlocked, and the read returns the default. *)
Lemma locked_read_of_absent_key_returns :
  ~ (forall (JSON_parse : string -> option Json) key defaultValue
            (w : World Byte.byte),
       key ∈ ENCRYPTED_KEYS -> _vault w = None ->
       getSecureData JSON_parse key defaultValue w = Thrown VaultLockedError).
Proof.
  intros H.
  specialize (H (fun _ => None) STORAGE_KEYS.WALLETS (JArray []) freshWorld).
  assert (STORAGE_KEYS.WALLETS ∈ ENCRYPTED_KEYS) as Hin by left.
  specialize (H Hin eq_refl). vm_compute in H. discriminate H.
Qed.

Lemma import_rejects_other_versions_witness :
  let backup := JObject [("v", JNumber 2); ("wallets", JArray [])] in
  let w : World Byte.byte :=
    {| _vault := Some (CryptoVault.Toy.vault Byte.x2a); _secureCache := ∅;
       localStorage := ∅; pendingWrites := [] |} in
  importBackupData CryptoVault.Toy.stringify (fun v => Some v) backup w
  = (Thrown (Error "Backup non supportato"), w).
Proof.
  apply (import_rejects_other_versions CryptoVault.Toy.stringify (fun v => Some v)).
  intros (fields & q & Hb & Hget & Hq).
  injection Hb as <-. simpl in Hget. injection Hget as <-.
  vm_compute in Hq. discriminate Hq.
Defined.

(** A backup carrying version 1, imported with the vault unlocked, is
    accepted: the wallets go to the cache and one encrypt-and-persist job
    per encrypted key is pending. *)
Example import_accepts_version_1 :
  let backup := JObject [("v", JNumber 1); ("wallets", JArray [JString "w"])] in
  let w : World Byte.byte :=
    {| _vault := Some (CryptoVault.Toy.vault Byte.x2a); _secureCache := ∅;
       localStorage := ∅; pendingWrites := [] |} in
  let r := importBackupData CryptoVault.Toy.stringify (fun v => Some v) backup w in
  r.1 = Returned tt /\
  _secureCache r.2 !! STORAGE_KEYS.WALLETS = Some (JArray [JString "w"]) /\
  length (pendingWrites r.2) = 4%nat /\
  localStorage r.2 !! STORAGE_KEYS.ONBOARDING_COMPLETE = Some "false".
Proof. split_and!; by vm_compute. Qed.

End StorageProps.

(** * Further properties of the cost-basis engine *)

Module CostBasisMore.
Import CostBasis CostBasisNotions CryptoData CostBasisProps.
Local Open Scope Q_scope.

(** ** The lot arrays along a run *)

Lemma sellLots_nil m tx : (sellLots m tx []).1 = [].
Proof. by destruct m. Qed.

Lemma step_lots env m st tx :
  exists pre post,
    allLots st =
      pre ++ default [] (Dict.get (Js.toUpperCase (tx_asset tx)) (lotsByAsset st)) ++ post /\
    allLots (step env m st tx) =
      pre ++ lotsAfter env m st tx
               (default [] (Dict.get (Js.toUpperCase (tx_asset tx)) (lotsByAsset st)))
          ++ post.
Proof.
  unfold allLots, step, lotsAfter.
  destruct (Dict.get _ (lotsByAsset st)) as [L|] eqn:Hget.
  - destruct (Dict_get_Some _ _ _ Hget) as (o1 & o2 & Heq & Hset).
    exists (concat o1.*2), (concat o2.*2). split.
    + rewrite Heq, fmap_app, concat_app. done.
    + destruct (tx_type tx); simpl; rewrite ?Hset, ?Heq, fmap_app, concat_app; done.
  - exists (concat (lotsByAsset st).*2), []. simpl. split; [by rewrite app_nil_r|].
    destruct (tx_type tx); simpl; rewrite ?Dict_set_None by done;
      rewrite ?fmap_app, ?concat_app; simpl; rewrite ?app_nil_r; try done.
    destruct m; simpl; by rewrite app_nil_r.
Qed.

Lemma step_lots_Forall (P : CostBasisLot -> Prop) env m st tx :
  Forall P (allLots st) ->
  (Forall P (default [] (Dict.get (Js.toUpperCase (tx_asset tx)) (lotsByAsset st))) ->
   Forall P (lotsAfter env m st tx
               (default [] (Dict.get (Js.toUpperCase (tx_asset tx)) (lotsByAsset st))))) ->
  Forall P (allLots (step env m st tx)).
Proof.
  intros Hall Hstep.
  destruct (step_lots env m st tx) as (pre & post & H1 & H2).
  rewrite H2. rewrite H1 in Hall.
  rewrite !Forall_app in Hall. rewrite !Forall_app.
  destruct Hall as (? & ? & ?). split_and!; [done| |done]. by apply Hstep.
Qed.

(** A function of lots that does not look at the remaining amount sees no
    change in a sale. *)
Lemma consumeLots_fmap {B} (f : CostBasisLot -> B) refs acc :
  (forall a l, f (takeFromLot a l) = f l) ->
  f <$> acc_lots (consumeLots refs acc) = f <$> acc_lots acc.
Proof.
  intros Hf. revert acc.
  induction refs as [|[r s] rest IH]; intros acc; simpl; [done|].
  destruct (Js.leb (acc_remainingToSell acc) 0); [done|].
  destruct (acc_lots acc !! r) as [lot|]; [|by apply IH].
  destruct (Js.leb (lot_remainingAmount lot) 0); [by apply IH|].
  rewrite IH. simpl.
  destruct (list_find _ _) as [[j ?]|]; [|done].
  apply list_eq. intros i. rewrite !list_lookup_fmap, list_lookup_alter.
  destruct (decide (j = i)) as [->|]; [|done].
  destruct (acc_lots acc !! i); simpl; [|done]. by rewrite Hf.
Qed.

(** The loop takes positive amounts only. *)
Lemma consumeLots_Forall (P : CostBasisLot -> Prop) refs acc :
  (forall a l, 0 < a -> P l -> P (takeFromLot a l)) ->
  Forall P (acc_lots acc) -> Forall P (acc_lots (consumeLots refs acc)).
Proof.
  intros HP. revert acc.
  induction refs as [|[r s] rest IH]; intros acc Hall; simpl; [done|].
  destruct (Js.leb (acc_remainingToSell acc) 0) eqn:E1; [done|].
  destruct (acc_lots acc !! r) as [lot|]; [|by apply IH].
  destruct (Js.leb (lot_remainingAmount lot) 0) eqn:E2; [by apply IH|].
  apply IH. simpl.
  destruct (list_find _ _) as [[j ?]|]; [|done].
  apply Forall_alter; [done|]. intros l _ Hl. apply HP; [|done].
  cmp_cases. by apply min_pos.
Qed.

Lemma fold_lots_Forall (P : CostBasisLot -> Prop) env m txs st :
  (forall e a tx, tx ∈ txs -> isAcquisition tx = true -> P (newLot e a tx)) ->
  (forall a l, 0 < a -> P l -> P (takeFromLot a l)) ->
  Forall P (allLots st) ->
  Forall P (allLots (fold_left (step env m) txs st)).
Proof.
  intros Hnew Htake. revert st.
  induction txs as [|tx txs IH]; intros st Hall; simpl; [done|].
  apply IH.
  { intros e a tx' Hin. apply Hnew. by right. }
  apply step_lots_Forall; [done|]. intros HL. unfold lotsAfter.
  assert (tx ∈ tx :: txs) as Hin by left.
  pose proof (Hnew (env (eng_readings st)) (Js.toUpperCase (tx_asset tx)) tx Hin) as Hn.
  unfold isAcquisition in Hn.
  destruct (tx_type tx); try (apply Forall_app; split; [done|]; constructor; [by apply Hn|constructor]); try done.
  unfold sellLots. simpl. by apply consumeLots_Forall.
Qed.

(** X1. The lots of a result are, up to their order, the lots created
    for the acquisitions of the history, one for each buy, airdrop and
    transfer: a sale changes nothing of a lot but its remaining amount,
    and no lot is ever removed.  (Identifiers apart, which are generated.) *)
Theorem lots_are_the_acquisitions env transactions method :
  asCreated <$> lots (calculateCostBasis env transactions method)
  ≡ₚ createdLot <$> List.filter isAcquisition (sortedTx transactions).
Proof.
  unfold calculateCostBasis, run. simpl. fold (allLots (fold_left (step env method) (sortedTx transactions) initEngine)).
  assert (forall txs st,
            asCreated <$> allLots (fold_left (step env method) txs st)
            ≡ₚ (asCreated <$> allLots st) ++
               (createdLot <$> List.filter isAcquisition txs)) as H.
  { induction txs as [|tx txs IH]; intros st; simpl; [by rewrite app_nil_r|].
    rewrite IH.
    destruct (step_lots env method st tx) as (pre & post & H1 & H2).
    rewrite H1, H2, !fmap_app. unfold lotsAfter, isAcquisition.
    destruct (tx_type tx); simpl;
      rewrite ?fmap_app; simpl; try solve_Permutation.
    unfold sellLots. simpl. by rewrite consumeLots_fmap. }
  rewrite H. done.
Qed.


(** X2. No lot ever holds more than it was created with: the remaining
    amount of every lot of every result is at most its amount, whatever
    the amounts, the method and the identifiers. *)
Theorem remaining_never_exceeds_amount env transactions method :
  Forall (fun l => lot_remainingAmount l <= lot_amount l)
         (lots (calculateCostBasis env transactions method)).
Proof.
  unfold calculateCostBasis, run. simpl.
  apply (fold_lots_Forall (fun l => lot_remainingAmount l <= lot_amount l)).
  - intros e a tx _ _. simpl. lra.
  - intros a l Ha Hl. simpl. lra.
  - constructor.
Qed.

Lemma step_lots_nonneg env m st tx :
  NoDup (idsOf st) -> 0 <= tx_amount tx ->
  Forall (fun l => 0 <= lot_remainingAmount l) (allLots st) ->
  Forall (fun l => 0 <= lot_remainingAmount l) (allLots (step env m st tx)).
Proof.
  intros Hnd Hamt Hall. apply step_lots_Forall; [done|]. intros HL.
  unfold lotsAfter.
  destruct (tx_type tx);
    try (apply Forall_app; split; [done|]; by repeat constructor); try done.
  unfold sellLots. simpl.
  rewrite consumeLots_consumeAt by (simpl; by apply lots_NoDup).
  by apply consumeAt_nonneg.
Qed.

(** X3. With non-negative amounts and pairwise distinct lot identifiers,
    no lot of a result has a negative remaining amount, for histories of
    any number of assets and also when sales exceed what is held. *)
Theorem remaining_never_negative env transactions method :
  nonNegativeAmounts transactions = true ->
  distinctLotIds (lots (calculateCostBasis env transactions method)) ->
  Forall (fun l => 0 <= lot_remainingAmount l)
         (lots (calculateCostBasis env transactions method)).
Proof.
  intros Hn Hnd.
  assert (Forall (fun tx => 0 <= tx_amount tx) (sortedTx transactions)) as Hamt.
  { apply sortedTx_Forall, Forall_forall. intros tx Hin. simpl.
    unfold nonNegativeAmounts in Hn. rewrite forallb_forall in Hn.
    apply leb_true, Hn. by apply list_elem_of_In. }
  assert (forall k, Forall (fun l => 0 <= lot_remainingAmount l)
            (allLots (run env method (take k (sortedTx transactions))))) as Hk.
  { induction k as [|k IH]; [constructor|].
    destruct (sortedTx transactions !! k) as [tx|] eqn:E.
    - rewrite (run_take_S _ _ _ _ _ E). apply step_lots_nonneg; [| |done].
      + by apply run_take_ids_NoDup.
      + by eapply Forall_lookup_1 in Hamt.
    - apply lookup_ge_None_1 in E. rewrite take_ge by lia.
      by rewrite take_ge in IH by lia. }
  specialize (Hk (length (sortedTx transactions))).
  by rewrite firstn_all in Hk.
Qed.

Lemma remaining_never_negative_witness :
  Forall (fun l => 0 <= lot_remainingAmount l)
         (lots (calculateCostBasis countingEnv twoAssets HIFO)).
Proof.
  apply remaining_never_negative; [reflexivity|].
  unfold distinctLotIds. apply (bool_decide_unpack _). vm_compute. exact I.
Defined.

(** ** The sales of a result *)

Lemma fold_sales env m txs st :
  sale_transaction <$> eng_sales (fold_left (step env m) txs st)
  = (sale_transaction <$> eng_sales st) ++ List.filter isDisposal txs.
Proof.
  revert st. induction txs as [|tx txs IH]; intros st; simpl; [by rewrite app_nil_r|].
  rewrite IH. unfold step, isDisposal. destruct (tx_type tx) eqn:E; simpl; try done.
  rewrite fmap_app. simpl. by rewrite <- app_assoc.
Qed.

Lemma fold_sales_Forall (P : SaleResult -> Prop) env m txs st :
  (forall tx L, P (sellLots m tx L).2) ->
  Forall P (eng_sales st) ->
  Forall P (eng_sales (fold_left (step env m) txs st)).
Proof.
  intros HP. revert st.
  induction txs as [|tx txs IH]; intros st Hall; simpl; [done|].
  apply IH. unfold step. destruct (tx_type tx) eqn:E; simpl; try done.
  apply Forall_app. split; [done|]. constructor; [|constructor]. apply HP.
Qed.

Lemma sortedTx_sorted txs :
  StronglySorted (fun a b => tx_timestamp a <= tx_timestamp b) (sortedTx txs).
Proof.
  eapply StronglySorted_impl;
    [|apply (sort_sorted (fun a b : Transaction => tx_timestamp a - tx_timestamp b))].
  - intros a b H. simpl in H. lra.
  - intros a b. simpl.
    destruct (Qlt_le_dec (tx_timestamp a) (tx_timestamp b)); [left|right]; lra.
  - intros a b c. simpl. intros. lra.
Qed.

Lemma StronglySorted_filter_bool {A} (R : A -> A -> Prop) (p : A -> bool) l :
  StronglySorted R l -> StronglySorted R (List.filter p l).
Proof.
  induction 1 as [|x l Hl IH Hx]; simpl; [constructor|].
  destruct (p x); [|done]. constructor; [done|].
  apply Forall_forall. intros y Hy. apply elem_of_filter_bool in Hy as [Hy _].
  rewrite Forall_forall in Hx. by apply Hx.
Qed.

(** X4. The sales of a result are the sell transactions of the history,
    one sale for each and in processing order, which is chronological;
    the proceeds of a sale are the value of its transaction and its gain
    is that value minus the cost basis, fees playing no part. *)
Theorem sales_are_the_sells env transactions method :
  let r := calculateCostBasis env transactions method in
  sale_transaction <$> sales r = List.filter isDisposal (sortedTx transactions) /\
  Forall (fun s => sale_proceeds s = tx_valueEur (sale_transaction s) /\
                   sale_gainLoss s = tx_valueEur (sale_transaction s) - sale_costBasis s)
         (sales r) /\
  StronglySorted (fun a b => tx_timestamp a <= tx_timestamp b)
                 (sale_transaction <$> sales r).
Proof.
  simpl. unfold run.
  pose proof (fold_sales env method (sortedTx transactions) initEngine) as Hs.
  simpl in Hs. split_and!.
  - done.
  - by apply fold_sales_Forall.
  - rewrite Hs. apply StronglySorted_filter_bool, sortedTx_sorted.
Qed.

(** ** Totals *)

Lemma sign_cases x :
  (0 < x /\ Math.max 0 x == x /\ Math.abs (Math.min 0 x) == 0) \/
  (x <= 0 /\ Math.max 0 x == 0 /\ Math.abs (Math.min 0 x) == - x /\
   Math.abs x == - x).
Proof.
  unfold Math.max, Math.min, Math.abs.
  destruct (Qle_bool 0 x) eqn:E1.
  - assert (Qle_bool 0 0 = true) as -> by done. cmp_cases.
    destruct (Qlt_le_dec 0 x); [left|right]; split_and!; lra.
  - rewrite E1. cmp_cases. right. split_and!; lra.
Qed.

Lemma step_totals env m st tx :
  eng_totalGains st ==
    Array.sumBy (fun s => Math.max 0 (sale_gainLoss s)) (eng_sales st) ->
  eng_totalLosses st ==
    Array.sumBy (fun s => Math.abs (Math.min 0 (sale_gainLoss s))) (eng_sales st) ->
  eng_totalGains st - eng_totalLosses st == Array.sumBy sale_gainLoss (eng_sales st) ->
  eng_totalGains (step env m st tx) ==
    Array.sumBy (fun s => Math.max 0 (sale_gainLoss s)) (eng_sales (step env m st tx)) /\
  eng_totalLosses (step env m st tx) ==
    Array.sumBy (fun s => Math.abs (Math.min 0 (sale_gainLoss s)))
                (eng_sales (step env m st tx)) /\
  eng_totalGains (step env m st tx) - eng_totalLosses (step env m st tx) ==
    Array.sumBy sale_gainLoss (eng_sales (step env m st tx)).
Proof.
  intros Hg Hl Hn. unfold step. destruct (tx_type tx); simpl; try done.
  rewrite !sumBy_app, !sumBy_cons, !sumBy_nil. simpl.
  set (gl := tx_valueEur tx - _).
  destruct (sign_cases gl) as [(H0 & H1 & H2)|(H0 & H1 & H2 & H3)];
    destruct (Js.ltb 0 gl) eqn:E1; cmp_cases; split_and!; lra.
Qed.

Lemma fold_totals env m txs st :
  eng_totalGains st ==
    Array.sumBy (fun s => Math.max 0 (sale_gainLoss s)) (eng_sales st) ->
  eng_totalLosses st ==
    Array.sumBy (fun s => Math.abs (Math.min 0 (sale_gainLoss s))) (eng_sales st) ->
  eng_totalGains st - eng_totalLosses st == Array.sumBy sale_gainLoss (eng_sales st) ->
  let st' := fold_left (step env m) txs st in
  eng_totalGains st' ==
    Array.sumBy (fun s => Math.max 0 (sale_gainLoss s)) (eng_sales st') /\
  eng_totalLosses st' ==
    Array.sumBy (fun s => Math.abs (Math.min 0 (sale_gainLoss s))) (eng_sales st') /\
  eng_totalGains st' - eng_totalLosses st' ==
    Array.sumBy sale_gainLoss (eng_sales st').
Proof.
  revert st. induction txs as [|tx txs IH]; intros st Hg Hl Hn; simpl; [done|].
  destruct (step_totals env m st tx Hg Hl Hn) as (? & ? & ?). by apply IH.
Qed.

Lemma run_totals env m txs :
  let st' := run env m txs in
  eng_totalGains st' ==
    Array.sumBy (fun s => Math.max 0 (sale_gainLoss s)) (eng_sales st') /\
  eng_totalLosses st' ==
    Array.sumBy (fun s => Math.abs (Math.min 0 (sale_gainLoss s))) (eng_sales st') /\
  eng_totalGains st' - eng_totalLosses st' ==
    Array.sumBy sale_gainLoss (eng_sales st').
Proof. apply fold_totals; simpl; rewrite ?sumBy_nil; lra. Qed.

(** X5. The totals of a result are sums over its sales, in their order:
    the total gains add up the positive gains and the total losses the
    absolute values of the others. *)
Theorem totals_are_sums_over_sales env transactions method :
  let r := calculateCostBasis env transactions method in
  totalGains r == Array.sumBy (fun s => Math.max 0 (sale_gainLoss s)) (sales r) /\
  totalLosses r ==
    Array.sumBy (fun s => Math.abs (Math.min 0 (sale_gainLoss s))) (sales r).
Proof.
  destruct (run_totals env method (sortedTx transactions)) as (Hg & Hl & _).
  by split.
Qed.

(** ** The year filter on a result *)

Lemma sumBy_filter_le {A} (f : A -> Q) (p : A -> bool) l :
  (forall x, 0 <= f x) -> Array.sumBy f (List.filter p l) <= Array.sumBy f l.
Proof.
  intros H. induction l as [|x l IH]; simpl; [lra|].
  specialize (H x). destruct (p x); rewrite !sumBy_cons; lra.
Qed.

Lemma filter_bool_all {A} (p : A -> bool) l :
  Forall (fun x => p x = true) l -> List.filter p l = l.
Proof.
  induction 1 as [|x l Hx _ IH]; simpl; [done|]. by rewrite Hx, IH.
Qed.

(** X6. The totals the year filter reports for a result of
    [calculateCostBasis] never exceed the totals of the result, and when
    every sale of the result falls in the year the filter returns all the
    sales and the totals of the result. *)
Theorem year_totals_within_totals getFullYear env transactions method year :
  let r := calculateCostBasis env transactions method in
  let y := filterTaxResultsByYear getFullYear r year in
  yr_totalGains y <= totalGains r /\ yr_totalLosses y <= totalLosses r /\
  (Forall (fun s => Qeq_bool (getFullYear (tx_timestamp (sale_transaction s))) year = true)
          (sales r) ->
   taxableEvents y = sales r /\ yr_totalGains y == totalGains r /\
   yr_totalLosses y == totalLosses r /\ yr_netGain y == netGain r).
Proof.
  simpl.
  destruct (run_totals env method (sortedTx transactions)) as (Hg & Hl & _).
  simpl in Hg, Hl. split_and!.
  - rewrite Hg. apply sumBy_filter_le. intros s. apply max0_nonneg.
  - rewrite Hl. apply sumBy_filter_le. intros s. apply abs_nonneg.
  - intros Hall. rewrite (filter_bool_all _ _ Hall). split_and!; [done|..].
    + by rewrite Hg.
    + by rewrite Hl.
    + by rewrite Hg, Hl.
Qed.

Lemma year_totals_within_totals_witness :
  let r := calculateCostBasis countingEnv twoAssets LIFO in
  let y := filterTaxResultsByYear evenYears r 2023 in
  yr_totalGains y <= totalGains r /\ yr_totalLosses y <= totalLosses r /\
  taxableEvents y = sales r /\ yr_totalGains y == totalGains r /\
  yr_totalLosses y == totalLosses r /\ yr_netGain y == netGain r.
Proof.
  destruct (year_totals_within_totals evenYears countingEnv twoAssets LIFO 2023)
    as (H1 & H2 & H3).
  split; [exact H1|]. split; [exact H2|]. apply H3.
  vm_compute. repeat constructor.
Defined.

(** X7. The deprecated [calculateTaxFIFO] reports as taxable events the
    sell transactions of the history that fall in the year, in processing
    order; its totals are non-negative and its net gain is the gains minus
    the losses. *)
Theorem tax_report_lists_the_sells_of_the_year getFullYear env transactions year :
  let rep := calculateTaxFIFO getFullYear env transactions year in
  rep_taxableEvents rep =
    List.filter (fun tx => Qeq_bool (getFullYear (tx_timestamp tx)) year)
                (List.filter isDisposal (sortedTx transactions)) /\
  0 <= rep_totalGains rep /\ 0 <= rep_totalLosses rep /\
  rep_netGain rep = rep_totalGains rep - rep_totalLosses rep.
Proof.
  simpl. split_and!.
  - unfold run.
    pose proof (fold_sales env FIFO (sortedTx transactions) initEngine) as Hs.
    simpl in Hs. rewrite <- Hs.
    by rewrite (filter_bool_fmap
                  (fun tx => Qeq_bool (getFullYear (tx_timestamp tx)) year)
                  sale_transaction).
  - apply sumBy_nonneg. intros s. apply max0_nonneg.
  - apply sumBy_nonneg. intros s. apply abs_nonneg.
  - done.
Qed.

(** ** The order of processing *)

Section SortFilter.
Context {A : Type} (cmp : A -> A -> Q).
Hypothesis cmp_total : forall x y, cmp x y <= 0 \/ cmp y x <= 0.
Hypothesis cmp_trans : forall x y z, cmp x y <= 0 -> cmp y z <= 0 -> cmp x z <= 0.

Lemma insert_first x l :
  Forall (fun z => cmp x z <= 0) l -> Array.insert cmp x l = x :: l.
Proof.
  destruct 1 as [|y l Hy _]; simpl; [done|].
  apply leb_true in Hy. unfold Js.leb in Hy. by rewrite Hy.
Qed.

Lemma filter_insert (p : A -> bool) x l :
  StronglySorted (fun a b => cmp a b <= 0) l ->
  List.filter p (Array.insert cmp x l) =
    if p x then Array.insert cmp x (List.filter p l) else List.filter p l.
Proof.
  induction 1 as [|y l Hl IH Hy]; simpl.
  - by destruct (p x).
  - destruct (Qle_bool (cmp x y) 0) eqn:E; simpl.
    + destruct (p x) eqn:Px; destruct (p y) eqn:Py; simpl; rewrite ?E; try done.
      symmetry. apply insert_first. apply Forall_forall. intros z Hz.
      apply elem_of_filter_bool in Hz as [Hz _].
      rewrite Forall_forall in Hy. apply leb_true in E.
      eapply cmp_trans; [exact E|]. by apply Hy.
    + destruct (p y) eqn:Py; simpl; rewrite IH; destruct (p x); simpl;
        rewrite ?E; done.
Qed.

Lemma sort_filter (p : A -> bool) l :
  List.filter p (Array.sort cmp l) = Array.sort cmp (List.filter p l).
Proof.
  induction l as [|x l IH]; simpl; [done|].
  rewrite filter_insert by (by apply sort_sorted).
  destruct (p x); simpl; by rewrite IH.
Qed.

End SortFilter.

Lemma sortedTx_filter (p : Transaction -> bool) txs :
  (forall tx, p (normalizeTx tx) = p tx) ->
  sortedTx (List.filter p txs) = List.filter p (sortedTx txs).
Proof.
  intros Hp. unfold sortedTx. rewrite sort_filter.
  - f_equal. rewrite filter_bool_fmap. f_equal.
    induction txs as [|tx txs IH]; simpl; [done|]. by rewrite Hp, IH.
  - intros a b.
    destruct (Qlt_le_dec (tx_timestamp a) (tx_timestamp b)); [left|right]; lra.
  - intros a b c. lra.
Qed.

Lemma fold_skips_stakes env m txs st :
  fold_left (step env m) (List.filter (fun tx => negb (isStake tx)) txs) st
  = fold_left (step env m) txs st.
Proof.
  revert st. induction txs as [|tx txs IH]; intros st; simpl; [done|].
  unfold isStake at 1, step at 2. destruct (tx_type tx) eqn:E; simpl;
    rewrite IH; unfold step; by rewrite ?E.
Qed.

(** X8. Staking transactions play no part: removing them from a history
    leaves every field of the result as it is, lot identifiers included. *)
Theorem stakes_are_ignored env transactions method :
  calculateCostBasis env (List.filter (fun tx => negb (isStake tx)) transactions) method
  = calculateCostBasis env transactions method.
Proof.
  unfold calculateCostBasis, run.
  rewrite sortedTx_filter by done. by rewrite fold_skips_stakes.
Qed.

(** X9. When no two transactions fall on the same instant, the result
    does not depend on the order in which the history lists them. *)
Theorem input_order_is_irrelevant env transactions transactions' method :
  transactions' ≡ₚ transactions ->
  distinctInstants transactions ->
  calculateCostBasis env transactions' method
  = calculateCostBasis env transactions method.
Proof.
  intros Hperm Hdist. unfold calculateCostBasis. f_equal. f_equal.
  apply (StronglySorted_unique_strong
           (fun a b : Transaction => tx_timestamp a <= tx_timestamp b)).
  - intros x1 x2 H1 H2 Hle Hge.
    rewrite sortedTx_Permutation, Hperm in H1. rewrite sortedTx_Permutation in H2.
    apply list_elem_of_fmap in H1 as (a & -> & Ha).
    apply list_elem_of_fmap in H2 as (b & -> & Hb).
    apply list_elem_of_lookup in Ha as [i Hi]. apply list_elem_of_lookup in Hb as [j Hj].
    assert (i = j) as ->; [|congruence].
    eapply Hdist; [exact Hi|exact Hj|]. by apply Qle_antisym.
  - apply sortedTx_sorted.
  - apply sortedTx_sorted.
  - by rewrite !sortedTx_Permutation, Hperm.
Qed.

Lemma input_order_is_irrelevant_witness :
  calculateCostBasis countingEnv (reverse twoAssets) FIFO
  = calculateCostBasis countingEnv twoAssets FIFO.
Proof.
  apply input_order_is_irrelevant.
  - apply reverse_Permutation.
  - intros i j a b Hi Hj.
    destruct i as [|[|[|[|[|i]]]]]; try discriminate Hi;
      destruct j as [|[|[|[|[|j]]]]]; try discriminate Hj;
      injection Hi as <-; injection Hj as <-; try reflexivity;
      intros H; vm_compute in H; discriminate H.
Defined.

(** ** What a sale takes *)

Lemma consumeLots_toSell_nonneg refs acc :
  0 <= acc_remainingToSell acc -> 0 <= acc_remainingToSell (consumeLots refs acc).
Proof.
  revert acc. induction refs as [|[r s] rest IH]; intros acc Hpos; simpl; [done|].
  destruct (Js.leb (acc_remainingToSell acc) 0); [done|].
  destruct (acc_lots acc !! r) as [lot|]; [|by apply IH].
  destruct (Js.leb (lot_remainingAmount lot) 0); [by apply IH|].
  apply IH. simpl.
  pose proof (min_le_r (lot_remainingAmount lot) (acc_remainingToSell acc)). lra.
Qed.

Lemma consumeLots_break refs acc :
  acc_remainingToSell acc <= 0 -> consumeLots refs acc = acc.
Proof.
  intros H. destruct refs as [|[r s] rest]; simpl; [done|].
  apply leb_true in H. by rewrite H.
Qed.

Lemma leftAfter_snoc uses u amount :
  leftAfter (uses ++ [u]) amount = leftAfter uses amount - use_amountUsed u.
Proof. unfold leftAfter. by rewrite fold_left_app. Qed.

(** The amount still to sell is the amount sold less what has been taken
    so far, one entry at a time; it never grows, and no entry takes more
    than was asked for. *)
Lemma consumeLots_left refs acc amount :
  acc_remainingToSell acc = leftAfter (acc_lotsUsed acc) amount ->
  acc_remainingToSell acc <= amount ->
  Forall (fun u => 0 < use_amountUsed u <= amount) (acc_lotsUsed acc) ->
  acc_remainingToSell (consumeLots refs acc)
    = leftAfter (acc_lotsUsed (consumeLots refs acc)) amount /\
  Forall (fun u => 0 < use_amountUsed u <= amount) (acc_lotsUsed (consumeLots refs acc)).
Proof.
  revert acc. induction refs as [|[r s] rest IH]; intros acc Hleft Hle Hall; simpl; [done|].
  destruct (Js.leb (acc_remainingToSell acc) 0) eqn:E1; [done|].
  destruct (acc_lots acc !! r) as [lot|]; [|by apply IH].
  destruct (Js.leb (lot_remainingAmount lot) 0) eqn:E2; [by apply IH|].
  cmp_cases.
  pose proof (min_le_r (lot_remainingAmount lot) (acc_remainingToSell acc)) as Hmin.
  pose proof (min_pos _ _ E2 E1) as Hpos.
  apply IH; simpl.
  - by rewrite leftAfter_snoc, Hleft.
  - lra.
  - apply Forall_app. split; [done|]. constructor; [|constructor]. simpl. lra.
Qed.

Lemma sellLots_left m tx L :
  let s := (sellLots m tx L).2 in
  Forall (fun u => 0 < use_amountUsed u <= tx_amount (sale_transaction s))
         (sale_lotsUsed s) /\
  (0 <= tx_amount (sale_transaction s) ->
   0 <= leftAfter (sale_lotsUsed s) (tx_amount (sale_transaction s))).
Proof.
  unfold sellLots. simpl.
  set (acc0 := {| acc_lots := L; acc_remainingToSell := tx_amount tx;
                  acc_totalCostBasis := 0; acc_lotsUsed := [] |}).
  destruct (consumeLots_left (getLotsForMethod L m) acc0 (tx_amount tx))
    as [Hleft Hall]; [done|simpl; lra|constructor|].
  split; [done|]. intros Hpos. rewrite <- Hleft.
  by apply consumeLots_toSell_nonneg.
Qed.

(** X10. A sale never takes more than was sold: in every sale of every
    result each entry of [lotsUsed] takes a positive amount that is at most
    the amount of the transaction, and taking the amounts of the entries
    from the amount of the transaction one at a time, as the loop does,
    never goes below zero. *)
Theorem sale_takes_no_more_than_sold env transactions method :
  Forall (fun s =>
            Forall (fun u => 0 < use_amountUsed u <= tx_amount (sale_transaction s))
                   (sale_lotsUsed s) /\
            (0 <= tx_amount (sale_transaction s) ->
             0 <= leftAfter (sale_lotsUsed s) (tx_amount (sale_transaction s))))
         (sales (calculateCostBasis env transactions method)).
Proof.
  simpl. unfold run. apply fold_sales_Forall; [|constructor].
  intros tx L. apply sellLots_left.
Qed.

(** X11. A sale that asks for no more than the first lot in the order
    of the method holds is sold in full from that lot: its [lotsUsed] has
    the one entry, for the amount of the transaction at the cost per unit
    of the lot, and its cost basis is that amount times that cost. *)
Theorem sale_within_the_first_lot_is_sold_in_full
    env transactions method k tx r first rest :
  sortedTx transactions !! k = Some tx ->
  tx_type tx = sell ->
  let before := run env method (take k (sortedTx transactions)) in
  let held := default [] (Dict.get (Js.toUpperCase (tx_asset tx)) (lotsByAsset before)) in
  getLotsForMethod held method = (r, first) :: rest ->
  0 < tx_amount tx <= lot_remainingAmount first ->
  exists sale u,
    eng_sales (run env method (take (S k) (sortedTx transactions)))
      = eng_sales before ++ [sale] /\
    sale ∈ sales (calculateCostBasis env transactions method) /\
    sale_transaction sale = tx /\
    sale_lotsUsed sale = [u] /\
    use_lotId u = lot_id first /\
    use_costPerUnit u = lot_costPerUnit first /\
    use_amountUsed u == tx_amount tx /\
    sale_costBasis sale == tx_amount tx * lot_costPerUnit first.
Proof.
  intros Hk Hty before held Hord [Hpos Hle].
  destruct (sale_of_history env method _ _ _ Hk Hty) as [Hsales Hin].
  fold before held in Hsales, Hin.
  set (a := Math.min (lot_remainingAmount first) (tx_amount tx)).
  assert (a == tx_amount tx) as Ha.
  { unfold a, Math.min. destruct (Qle_bool _ _) eqn:E; cmp_cases; lra. }
  exists (sellLots method tx held).2, (useOf first a).
  split_and!; [done|done|done| |done|done|done|].
  - unfold sellLots. rewrite Hord. simpl.
    assert ((r, first) ∈ getLotsForMethod held method) as Hin' by (rewrite Hord; left).
    apply elem_of_getLotsForMethod in Hin' as [Hl Hrem].
    assert (Js.leb (tx_amount tx) 0 = false) as -> by by apply leb_false.
    rewrite Hl.
    assert (Js.leb (lot_remainingAmount first) 0 = false) as -> by by apply leb_false.
    rewrite consumeLots_break; [done|]. simpl. fold a. lra.
  - unfold sellLots. rewrite Hord. simpl.
    assert ((r, first) ∈ getLotsForMethod held method) as Hin' by (rewrite Hord; left).
    apply elem_of_getLotsForMethod in Hin' as [Hl Hrem].
    assert (Js.leb (tx_amount tx) 0 = false) as -> by by apply leb_false.
    rewrite Hl.
    assert (Js.leb (lot_remainingAmount first) 0 = false) as -> by by apply leb_false.
    rewrite consumeLots_break; [|simpl; fold a; lra]. simpl. fold a. rewrite Ha. lra.
Qed.

Lemma sale_within_the_first_lot_is_sold_in_full_witness :
  let tx := normalizeTx (mkTx "0xd4" sell "btc" 1 1700000200 30000) in
  let first :=
    newLot (countingEnv 0%nat) "BTC" (normalizeTx (mkTx "0xd1" buy "BTC" 2 1700000000 40000)) in
  exists sale u,
    eng_sales (run countingEnv HIFO (take 4 (sortedTx twoAssets)))
      = eng_sales (run countingEnv HIFO (take 3 (sortedTx twoAssets))) ++ [sale] /\
    sale ∈ sales (calculateCostBasis countingEnv twoAssets HIFO) /\
    sale_transaction sale = tx /\
    sale_lotsUsed sale = [u] /\
    use_lotId u = lot_id first /\
    use_costPerUnit u = lot_costPerUnit first /\
    use_amountUsed u == tx_amount tx /\
    sale_costBasis sale == tx_amount tx * lot_costPerUnit first.
Proof.
  intros tx first.
  apply (sale_within_the_first_lot_is_sold_in_full countingEnv twoAssets HIFO 3 tx
           0%nat first []).
  - reflexivity.
  - reflexivity.
  - reflexivity.
  - split; by vm_compute.
Defined.

(** ** Holdings *)

Lemma Dict_get_None_keys {V} key (o : list (string * V)) :
  Dict.get key o = None -> key ∉ o.*1.
Proof.
  induction o as [|[k v] o IH]; simpl; [intros _; apply not_elem_of_nil|].
  destruct (String.eqb k key) eqn:E; [done|]. intros H.
  apply not_elem_of_cons. split; [|by apply IH].
  intros ->. by rewrite String.eqb_refl in E.
Qed.

Lemma Dict_get_NoDup {V} key (o : list (string * V)) v :
  NoDup o.*1 -> (key, v) ∈ o -> Dict.get key o = Some v.
Proof.
  induction o as [|[k w] o IH]; intros Hnd Hin.
  { by apply elem_of_nil in Hin. }
  rewrite fmap_cons, NoDup_cons in Hnd. destruct Hnd as [Hk Hnd]. simpl in *.
  apply elem_of_cons in Hin as [[= <- <-]|Hin].
  - by rewrite String.eqb_refl.
  - destruct (String.eqb k key) eqn:E; [|by apply IH].
    apply String.eqb_eq in E as ->. exfalso. apply Hk.
    apply list_elem_of_fmap. by exists (key, v).
Qed.

(** The lot arrays are filed under distinct keys, each lot under the key
    that is its asset. *)
Lemma step_filed env m st tx :
  NoDup (lotsByAsset st).*1 ->
  Forall (fun kv => Forall (fun l => lot_asset l = kv.1) kv.2) (lotsByAsset st) ->
  NoDup (lotsByAsset (step env m st tx)).*1 /\
  Forall (fun kv => Forall (fun l => lot_asset l = kv.1) kv.2)
         (lotsByAsset (step env m st tx)).
Proof.
  intros Hnd Hall.
  assert (forall new : list CostBasisLot,
            (forall L, Dict.get (Js.toUpperCase (tx_asset tx)) (lotsByAsset st) = Some L ->
                       Forall (fun l => lot_asset l = Js.toUpperCase (tx_asset tx)) L ->
                       Forall (fun l => lot_asset l = Js.toUpperCase (tx_asset tx)) new) ->
            (Dict.get (Js.toUpperCase (tx_asset tx)) (lotsByAsset st) = None ->
             Forall (fun l => lot_asset l = Js.toUpperCase (tx_asset tx)) new) ->
            NoDup (Dict.set (Js.toUpperCase (tx_asset tx)) new (lotsByAsset st)).*1 /\
            Forall (fun kv => Forall (fun l => lot_asset l = kv.1) kv.2)
                   (Dict.set (Js.toUpperCase (tx_asset tx)) new (lotsByAsset st))) as Hset.
  { intros new Hsome Hnone.
    destruct (Dict.get (Js.toUpperCase (tx_asset tx)) (lotsByAsset st)) as [L|] eqn:Hget.
    - destruct (Dict_get_Some _ _ _ Hget) as (o1 & o2 & Heq & Hs).
      rewrite Hs. rewrite Heq in Hnd, Hall. split.
      + by rewrite fmap_app, fmap_cons in *.
      + rewrite Forall_app, Forall_cons in *. destruct Hall as (? & ? & ?).
        split_and!; [done| |done]. simpl in *. by apply (Hsome L).
    - rewrite Dict_set_None by done. split.
      + rewrite fmap_app. simpl. apply NoDup_app. split_and!; [done| |].
        * intros k Hk Hin. apply list_elem_of_singleton in Hin as ->.
          by apply Dict_get_None_keys in Hget.
        * apply NoDup_singleton.
      + apply Forall_app. split; [done|]. constructor; [|constructor].
        simpl. by apply Hnone. }
  unfold step.
  destruct (tx_type tx) eqn:Hty; simpl; try done;
    try (apply Hset;
         [intros L -> HL; simpl; apply Forall_app; split; [done|]; by repeat constructor
         |intros ->; simpl; by repeat constructor]).
  destruct (Dict.get (Js.toUpperCase (tx_asset tx)) (lotsByAsset st)) as [L|] eqn:Hget;
    [|done].
  apply Hset; [|done].
  intros L' [= <-] HL.
  apply (Forall_fmap lot_asset (fun a => a = Js.toUpperCase (tx_asset tx))).
  rewrite consumeLots_fmap by done. simpl.
  by apply (Forall_fmap lot_asset (fun a => a = Js.toUpperCase (tx_asset tx))).
Qed.

Lemma run_filed env m txs :
  NoDup (lotsByAsset (run env m txs)).*1 /\
  Forall (fun kv => Forall (fun l => lot_asset l = kv.1) kv.2)
         (lotsByAsset (run env m txs)).
Proof.
  induction txs as [|tx txs IH] using rev_ind.
  - split; constructor.
  - rewrite run_snoc. destruct IH. by apply step_filed.
Qed.

Lemma filter_asset_none (o : list (string * list CostBasisLot)) k :
  Forall (fun kv => Forall (fun l => lot_asset l = kv.1) kv.2) o ->
  k ∉ o.*1 ->
  List.filter (fun l => String.eqb (lot_asset l) k) (concat o.*2) = [].
Proof.
  induction 1 as [|[k' L] o HL _ IH]; intros Hk; [done|].
  rewrite fmap_cons, not_elem_of_cons in Hk. destruct Hk as [Hne Hk].
  rewrite fmap_cons. cbn [concat snd fst] in *.
  rewrite List.filter_app, IH, app_nil_r by done.
  induction HL as [|l L Hl _ IHL]; simpl; [done|].
  rewrite Hl. destruct (String.eqb k' k) eqn:E; [|done].
  by apply String.eqb_eq in E.
Qed.

Lemma filter_asset_entry (o : list (string * list CostBasisLot)) k L :
  NoDup o.*1 ->
  Forall (fun kv => Forall (fun l => lot_asset l = kv.1) kv.2) o ->
  (k, L) ∈ o ->
  List.filter (fun l => String.eqb (lot_asset l) k) (concat o.*2) = L.
Proof.
  intros Hnd Hall. revert Hnd.
  induction Hall as [|[k' L'] o HL Hall IH]; intros Hnd Hin.
  { by apply elem_of_nil in Hin. }
  rewrite fmap_cons, NoDup_cons in Hnd. destruct Hnd as [Hk Hnd].
  rewrite fmap_cons. cbn [concat snd fst] in *.
  rewrite List.filter_app.
  apply elem_of_cons in Hin as [[= <- <-]|Hin].
  - rewrite filter_asset_none, app_nil_r by done.
    apply filter_bool_all. eapply Forall_impl; [exact HL|].
    intros l ->. apply String.eqb_refl.
  - rewrite IH by done.
    assert (k' <> k) as Hne.
    { intros ->. apply Hk. apply list_elem_of_fmap. by exists (k, L). }
    assert (List.filter (fun l => String.eqb (lot_asset l) k) L' = []) as ->; [|done].
    clear -HL Hne. induction HL as [|l L' Hl _ IHL]; simpl; [done|].
    rewrite Hl. destruct (String.eqb k' k) eqn:E; [|done].
    by apply String.eqb_eq in E.
Qed.

Lemma holdingOf_sound L h :
  holdingOf L = Some h ->
  0 < h_amount h /\ h_avgCost h = h_costBasis h / h_amount h.
Proof.
  unfold holdingOf. destruct (Js.ltb 0 _) eqn:E; [|done].
  intros [= <-]. simpl. cmp_cases. by split.
Qed.

Lemma holdings_keys (o : list (string * list CostBasisLot)) :
  (omap (fun kv : string * list CostBasisLot =>
           match holdingOf kv.2 with
           | Some h => Some (kv.1, h)
           | None => None
           end) o).*1 `sublist_of` o.*1.
Proof.
  induction o as [|[k L] o IH]; [done|].
  rewrite fmap_cons. cbn [omap list_omap fst snd].
  destruct (holdingOf L); [rewrite fmap_cons|]; by constructor.
Qed.

Lemma holdings_get (o : list (string * list CostBasisLot)) k :
  NoDup o.*1 ->
  Dict.get k (omap (fun kv : string * list CostBasisLot =>
                      match holdingOf kv.2 with
                      | Some h => Some (kv.1, h)
                      | None => None
                      end) o)
  = Dict.get k o ≫= holdingOf.
Proof.
  induction o as [|[k' L] o IH]; intros Hnd; [done|].
  rewrite fmap_cons, NoDup_cons in Hnd. destruct Hnd as [Hk Hnd].
  cbn [omap list_omap fst snd Dict.get].
  destruct (String.eqb k' k) eqn:E.
  - apply String.eqb_eq in E as ->. simpl.
    destruct (holdingOf L) eqn:EL; simpl; [by rewrite String.eqb_refl|].
    rewrite IH by done.
    destruct (Dict.get k o) as [L'|] eqn:Hget; [|done].
    exfalso. apply Hk. destruct (Dict_get_Some _ _ _ Hget) as (o1 & o2 & -> & _).
    rewrite fmap_app, fmap_cons. apply elem_of_app. right. left.
  - destruct (holdingOf L); simpl; rewrite ?E; by apply IH.
Qed.

(** X12. The holdings of a result agree with its lots: the object
    [unrealizedGains] has each asset once; what it holds under any symbol
    is what the lots of the result carrying that symbol as their asset
    give, and nothing if those give no positive amount; every entry has a
    positive amount and, as its average cost, its cost basis divided by
    its amount; and [calculateUnrealizedGains] on the object reports, at
    any prices, each entry under its own asset. *)
Theorem holdings_agree_with_lots env transactions method :
  let r := calculateCostBasis env transactions method in
  NoDup (unrealizedGains r).*1 /\
  (forall k, Dict.get k (unrealizedGains r)
             = holdingOf (List.filter (fun l => String.eqb (lot_asset l) k) (lots r))) /\
  Forall (fun kh =>
            0 < h_amount kh.2 /\
            h_avgCost kh.2 = h_costBasis kh.2 / h_amount kh.2 /\
            forall currentPrices,
              Dict.get kh.1
                (byAsset (calculateUnrealizedGains (unrealizedGains r) currentPrices))
              = Some (assetGainOf currentPrices kh.1 kh.2))
         (unrealizedGains r).
Proof.
  simpl. destruct (run_filed env method (sortedTx transactions)) as [Hnd Hall].
  set (st := run env method (sortedTx transactions)) in *.
  assert (NoDup (unrealizedGains (finish st)).*1) as Hkeys.
  { eapply sublist_NoDup; [exact Hnd|]. apply holdings_keys. }
  split_and!.
  - exact Hkeys.
  - intros k. unfold finish. simpl. rewrite holdings_get by done.
    destruct (Dict.get k (lotsByAsset st)) as [L|] eqn:Hget; simpl.
    + destruct (Dict_get_Some _ _ _ Hget) as (o1 & o2 & Heq & _).
      rewrite (filter_asset_entry _ k L); [done..|].
      rewrite Heq. apply elem_of_app. right. left.
    + rewrite filter_asset_none; [done..|]. by apply Dict_get_None_keys.
  - apply Forall_forall. intros [k h] Hin. simpl.
    assert (exists L, holdingOf L = Some h) as [L HL].
    { unfold finish in Hin. simpl in Hin.
      apply list_elem_of_omap in Hin as ([k' L] & _ & HL). simpl in HL.
      exists L. destruct (holdingOf L); [|done]. by injection HL as _ <-. }
    destruct (holdingOf_sound _ _ HL). split_and!; [done..|].
    intros prices. unfold calculateUnrealizedGains.
    exact (unrealized_fold_entry prices _ _ k h Hkeys Hin).
Qed.

(** ** Unrealized gains: the whole report *)

Lemma Dict_get_notin {V} key (o : list (string * V)) :
  key ∉ o.*1 -> Dict.get key o = None.
Proof.
  induction o as [|[k v] o IH]; simpl; [done|].
  rewrite not_elem_of_cons. intros [Hne Hk].
  destruct (String.eqb k key) eqn:E; [|by apply IH].
  by apply String.eqb_eq in E.
Qed.

Lemma unrealized_fold_shape currentPrices entries acc :
  NoDup entries.*1 ->
  (forall k, k ∈ entries.*1 -> k ∉ (byAsset acc).*1) ->
  byAsset (fold_left (unrealizedStep currentPrices) entries acc)
  = byAsset acc ++
    ((fun kh => (kh.1, assetGainOf currentPrices kh.1 kh.2)) <$> entries).
Proof.
  revert acc. induction entries as [|[k h] entries IH]; intros acc Hnd Hfresh.
  { simpl. by rewrite app_nil_r. }
  rewrite fmap_cons, NoDup_cons in Hnd. destruct Hnd as [Hk Hnd].
  cbn [fold_left]. rewrite IH; [|done|].
  - simpl. rewrite Dict_set_None.
    + by rewrite <- app_assoc.
    + apply Dict_get_notin, Hfresh. left.
  - intros k' Hk'. simpl. rewrite Dict_set_None.
    + rewrite fmap_app. simpl. intros Hin. apply elem_of_app in Hin as [Hin|Hin].
      * revert Hin. apply Hfresh. by right.
      * apply list_elem_of_singleton in Hin as ->. by apply Hk.
    + apply Dict_get_notin, Hfresh. left.
Qed.

Lemma unrealized_fold_totals currentPrices entries acc :
  totalUnrealizedGain (fold_left (unrealizedStep currentPrices) entries acc) ==
    totalUnrealizedGain acc +
    Array.sumBy (fun kh => Math.max 0 (ag_unrealizedGainLoss
                                         (assetGainOf currentPrices kh.1 kh.2)))
                entries /\
  totalUnrealizedLoss (fold_left (unrealizedStep currentPrices) entries acc) ==
    totalUnrealizedLoss acc +
    Array.sumBy (fun kh => Math.abs (Math.min 0 (ag_unrealizedGainLoss
                                                   (assetGainOf currentPrices kh.1 kh.2))))
                entries.
Proof.
  revert acc. induction entries as [|[k h] entries IH]; intros acc.
  { simpl. rewrite !sumBy_nil. split; lra. }
  cbn [fold_left]. destruct (IH (unrealizedStep currentPrices acc (k, h))) as [Hg Hl].
  rewrite Hg, Hl, !sumBy_cons. cbn [unrealizedStep totalUnrealizedGain totalUnrealizedLoss fst snd].
  set (gl := ag_unrealizedGainLoss (assetGainOf currentPrices k h)).
  destruct (sign_cases gl) as [(H0 & H1 & H2)|(H0 & H1 & H2 & H3)];
    destruct (Js.ltb 0 gl) eqn:E1; cmp_cases; split; lra.
Qed.

(** X13. For an object of holdings (each asset once, under a symbol of
    ASCII characters that names no property objects inherit),
    [calculateUnrealizedGains] reports the assets in the order of the
    object, each with the entry computed from its own holding; the total
    unrealized gain adds up the positive gains of the reported entries and
    the total unrealized loss the absolute values of the others, and both
    are non-negative. *)
Theorem unrealized_totals_are_sums unrealizedGains currentPrices :
  NoDup unrealizedGains.*1 ->
  Forall (fun kh => plainSymbol kh.1 = true) unrealizedGains ->
  let u := calculateUnrealizedGains unrealizedGains currentPrices in
  byAsset u =
    (fun kh => (kh.1, assetGainOf currentPrices kh.1 kh.2)) <$> unrealizedGains /\
  totalUnrealizedGain u ==
    Array.sumBy (fun kg => Math.max 0 (ag_unrealizedGainLoss kg.2)) (byAsset u) /\
  totalUnrealizedLoss u ==
    Array.sumBy (fun kg => Math.abs (Math.min 0 (ag_unrealizedGainLoss kg.2)))
                (byAsset u) /\
  0 <= totalUnrealizedGain u /\ 0 <= totalUnrealizedLoss u.
Proof.
  intros Hnd _ u.
  assert (byAsset u =
            (fun kh => (kh.1, assetGainOf currentPrices kh.1 kh.2)) <$> unrealizedGains)
    as Hshape.
  { unfold u, calculateUnrealizedGains. rewrite unrealized_fold_shape; [done..|].
    intros k _. apply not_elem_of_nil. }
  destruct (unrealized_fold_totals currentPrices unrealizedGains
              {| totalUnrealizedGain := 0; totalUnrealizedLoss := 0; byAsset := [] |})
    as [Hg Hl].
  fold (calculateUnrealizedGains unrealizedGains currentPrices) in Hg, Hl.
  fold u in Hg, Hl. simpl in Hg, Hl.
  assert (totalUnrealizedGain u ==
            Array.sumBy (fun kg => Math.max 0 (ag_unrealizedGainLoss kg.2)) (byAsset u))
    as Hg'.
  { rewrite Hshape, sumBy_fmap. simpl. rewrite Hg. lra. }
  assert (totalUnrealizedLoss u ==
            Array.sumBy (fun kg => Math.abs (Math.min 0 (ag_unrealizedGainLoss kg.2)))
                        (byAsset u)) as Hl'.
  { rewrite Hshape, sumBy_fmap. simpl. rewrite Hl. lra. }
  split_and!; [done..| |].
  - rewrite Hg'. apply sumBy_nonneg. intros kg. apply max0_nonneg.
  - rewrite Hl'. apply sumBy_nonneg. intros kg. apply abs_nonneg.
Qed.

Lemma unrealized_totals_are_sums_witness :
  let u := calculateUnrealizedGains someHoldings somePrices in
  byAsset u =
    (fun kh => (kh.1, assetGainOf somePrices kh.1 kh.2)) <$> someHoldings /\
  totalUnrealizedGain u ==
    Array.sumBy (fun kg => Math.max 0 (ag_unrealizedGainLoss kg.2)) (byAsset u) /\
  totalUnrealizedLoss u ==
    Array.sumBy (fun kg => Math.abs (Math.min 0 (ag_unrealizedGainLoss kg.2)))
                (byAsset u) /\
  0 <= totalUnrealizedGain u /\ 0 <= totalUnrealizedLoss u.
Proof.
  apply (unrealized_totals_are_sums someHoldings somePrices).
  - apply (bool_decide_unpack _). vm_compute. exact I.
  - by repeat constructor.
Defined.

(** X14. An asset for which no price is passed, under its symbol or the
    upper-cased symbol (a symbol of ASCII characters that names no
    property objects inherit), is valued at nothing: its entry has current value
    0 and, when its cost basis is at least 0.01, an unrealized loss of the
    whole cost basis. *)
Theorem missing_price_is_a_total_loss unrealizedGains currentPrices asset data :
  NoDup unrealizedGains.*1 ->
  (asset, data) ∈ unrealizedGains ->
  plainSymbol asset = true ->
  Dict.get asset currentPrices = None ->
  Dict.get (Js.toUpperCase asset) currentPrices = None ->
  1 # 100 <= h_costBasis data ->
  exists g,
    Dict.get asset (byAsset (calculateUnrealizedGains unrealizedGains currentPrices))
      = Some g /\
    ag_currentValue g == 0 /\
    ag_unrealizedGainLoss g == - h_costBasis data.
Proof.
  intros Hnd Hin _ Hp Hup Hcb. exists (assetGainOf currentPrices asset data).
  split.
  { unfold calculateUnrealizedGains.
    exact (unrealized_fold_entry currentPrices _ _ asset data Hnd Hin). }
  unfold assetGainOf, currentPriceOf. rewrite Hp, Hup. simpl.
  assert (Qeq_bool (h_costBasis data) 0 = false) as ->.
  { destruct (Qeq_bool (h_costBasis data) 0) eqn:E; [|done].
    apply Qeq_bool_eq in E. lra. }
  assert (Js.ltb (h_costBasis data) (1 # 100) = false) as -> by by apply ltb_false.
  simpl. change (Js.orElse (Js.orElse 0 0) 0) with 0.
  assert (Js.ltb (h_amount data * 0) (h_amount data * 0 - h_costBasis data) = false)
    as -> by (apply ltb_false; lra).
  split; lra.
Qed.

Lemma missing_price_is_a_total_loss_witness :
  exists g,
    Dict.get "ETH" (byAsset (calculateUnrealizedGains someHoldings [("BTC", 30000)]))
      = Some g /\
    ag_currentValue g == 0 /\
    ag_unrealizedGainLoss g == - 3000.
Proof.
  apply (missing_price_is_a_total_loss someHoldings [("BTC", 30000)] "ETH"
           {| h_amount := 1; h_costBasis := 3000; h_avgCost := 3000 |}).
  - apply (bool_decide_unpack _). vm_compute. exact I.
  - unfold someHoldings. right. right. left.
  - reflexivity.
  - reflexivity.
  - reflexivity.
  - by vm_compute.
Defined.

End CostBasisMore.

(** * The ledger of the lots *)

Module LotLedger.
Import CostBasis CostBasisNotions CostBasisProps CostBasisMore.
Local Open Scope Q_scope.











Import PrimFloat.


End LotLedger.

(** * Rounding at work *)

Module Rounding.
Import PrimFloat CostBasis64.
Import CostBasis(countingEnv).
Local Open Scope float_scope.

(** Rounding in a sale.  Lots of 1.501, 2.9552 and 9.22 and a sale of
    13.3483: the amounts taken add up, in doubles, to more than was sold,
    none of them is more than was sold, and taken off the amount sold one
    at a time they leave nothing. *)
#[warnings="-inexact-float"]
Example amounts_taken_in_doubles :
  let r := calculateCostBasis countingEnv decimals FIFO in
  (fun s => use_amountUsed <$> sale_lotsUsed s) <$> sales r
    = [[1.5009999999999999; 2.9552; 8.892100000000001]] /\
  (fun s => sumBy use_amountUsed (sale_lotsUsed s) <=? tx_amount (sale_transaction s))
    <$> sales r = [false] /\
  (fun s => forallb (fun u => (0 <? use_amountUsed u)
                              && (use_amountUsed u <=? tx_amount (sale_transaction s)))
                    (sale_lotsUsed s)) <$> sales r = [true] /\
  (fun s => leftAfter (sale_lotsUsed s) (tx_amount (sale_transaction s))) <$> sales r
    = [0].
Proof. split_and!; by vm_compute. Qed.

(** The ledger of the lots in doubles: in both histories every lot holds
    between 0 and its amount, and its amount less what the sales record
    against its identifier, taken off one at a time. *)
Example ledger_in_doubles :
  Forall (fun txs =>
            let r := calculateCostBasis countingEnv txs FIFO in
            forallb (fun l =>
                       (0 <=? lot_remainingAmount l)
                       && (lot_remainingAmount l <=? lot_amount l)
                       && (lot_remainingAmount l
                           =? leftAfter (usesOf (lot_id l) (sales r)) (lot_amount l)))
                    (lots r) = true)
         [dust; decimals; wholes].
Proof. repeat constructor; by vm_compute. Qed.

(** Whole amounts: no sum or difference rounds, and the remaining amounts
    add up to what was acquired less what was disposed of. *)
Example whole_amounts_in_doubles :
  let r := calculateCostBasis countingEnv wholes FIFO in
  lot_remainingAmount <$> lots r = [0; 2] /\
  (sumBy lot_remainingAmount (lots r) =? acquired wholes - disposed wholes) = true.
Proof. split; by vm_compute. Qed.
End Rounding.

(** * Further properties of the secure storage *)

Module PersistenceProps.
Import CryptoVault Storage Persistence.

Lemma isEncryptedKey_elem key : key ∈ ENCRYPTED_KEYS -> isEncryptedKey key = true.
Proof.
  intros Hkey. unfold isEncryptedKey. apply existsb_exists. exists key.
  split; [by apply list_elem_of_In|apply String.eqb_refl].
Qed.

Lemma hasVersion1_guard backup :
  hasVersion1 backup ->
  negb (JsValue.truthy backup) || negb (JsValue.isNumber 1 (JsValue.prop "v" backup))
  = false.
Proof.
  intros (fields & q & -> & Hv & Hq). simpl. rewrite Hv. simpl.
  apply negb_false_iff. by apply Qeq_bool_iff.
Qed.

Lemma elem_of_delete_other {A} (l : list A) n x y :
  x ∈ l -> l !! n = Some y -> x <> y -> x ∈ delete n l.
Proof.
  revert n. induction l as [|z l IH]; intros n Hin Hn Hne.
  { by apply elem_of_nil in Hin. }
  destruct n as [|n]; simpl in *.
  - injection Hn as ->. apply elem_of_cons in Hin as [->|Hin]; done.
  - apply elem_of_cons in Hin as [->|Hin]; [left|right]. by eapply IH.
Qed.

Section Jobs.
Context {CryptoKey : Type}.
Context (AES_GCM_encrypt : CryptoKey -> list Byte.byte -> list Byte.byte -> list Byte.byte).
Context (btoa : string -> string).
Context (TextEncoder_encode : string -> list Byte.byte).
Context (JSON_stringify : Json -> string) (JSON_parse : string -> option Json).
Context (settingsSchema_safeParse : Json -> option Json).

(** [JSON.stringify] of a JSON value is never the empty string. *)
Hypothesis stringify_nonempty : forall v, JSON_stringify v <> EmptyString.

Local Abbreviation completeWrite :=
  (completeWrite AES_GCM_encrypt btoa TextEncoder_encode JSON_stringify).
Local Abbreviation completeWrites :=
  (completeWrites AES_GCM_encrypt btoa TextEncoder_encode JSON_stringify).
Local Abbreviation getSecureData := (getSecureData (CryptoKey := CryptoKey) JSON_parse).
Local Abbreviation setSecureData := (setSecureData (CryptoKey := CryptoKey) JSON_stringify).
Local Abbreviation importBackupData :=
  (importBackupData (CryptoKey := CryptoKey) JSON_stringify settingsSchema_safeParse).
Local Abbreviation getWallets := (getWallets (CryptoKey := CryptoKey) JSON_parse).
Local Abbreviation getTransactions := (getTransactions (CryptoKey := CryptoKey) JSON_parse).
Local Abbreviation getProviderConfigs :=
  (getProviderConfigs (CryptoKey := CryptoKey) JSON_parse).

(** Something non-empty is stored under the key. *)
Let stored (w : World CryptoKey) (key : string) : Prop :=
  exists s, localStorage w !! key = Some s /\ s <> EmptyString.

Lemma read_of_stored key d (w : World CryptoKey) vault :
  key ∈ ENCRYPTED_KEYS -> _vault w = Some vault -> stored w key ->
  getSecureData key d w = Returned (default d (_secureCache w !! key)).
Proof.
  intros Hkey Hv (s & Hs & Hne). unfold Storage.getSecureData. rewrite Hs.
  destruct (String.eqb s EmptyString) eqn:E; [by apply String.eqb_eq in E|].
  rewrite (isEncryptedKey_elem _ Hkey). unfold isVaultReady. rewrite Hv. simpl.
  by destruct (_secureCache w !! key).
Qed.

Lemma completeWrite_memory n iv (w : World CryptoKey) :
  _vault (completeWrite n iv w) = _vault w /\
  _secureCache (completeWrite n iv w) = _secureCache w.
Proof.
  unfold Persistence.completeWrite.
  by destruct (pendingWrites w !! n) as [[[key value] vault]|].
Qed.

Lemma completeWrites_cons n iv schedule (w : World CryptoKey) :
  completeWrites ((n, iv) :: schedule) w = completeWrites schedule (completeWrite n iv w).
Proof. done. Qed.

Lemma completeWrites_memory schedule (w : World CryptoKey) :
  _vault (completeWrites schedule w) = _vault w /\
  _secureCache (completeWrites schedule w) = _secureCache w.
Proof.
  revert w. induction schedule as [|[n iv] schedule IH]; intros w; [done|].
  rewrite completeWrites_cons. destruct (IH (completeWrite n iv w)) as [-> ->].
  apply completeWrite_memory.
Qed.

(** A key that is stored or has a job pending stays so when a job
    completes. *)
Lemma completeWrite_stored_or_pending n iv (w : World CryptoKey) key :
  stored w key \/ key ∈ (pendingWrites w).*1.*1 ->
  stored (completeWrite n iv w) key \/
  key ∈ (pendingWrites (completeWrite n iv w)).*1.*1.
Proof.
  intros H. unfold Persistence.completeWrite.
  destruct (pendingWrites w !! n) as [[[key' value] vault]|] eqn:Hn; [|done].
  simpl. destruct (decide (key' = key)) as [->|Hne].
  { left. eexists. simpl. split; [apply lookup_insert_eq|apply stringify_nonempty]. }
  destruct H as [(s & Hs & Hnz)|Hin].
  - left. exists s. simpl. split; [|done]. by rewrite lookup_insert_ne.
  - right. apply list_elem_of_fmap in Hin as ([k1 val] & Hk & Hin). simpl in Hk.
    subst k1.
    apply list_elem_of_fmap in Hin as ([[k2 val2] vlt2] & Hk' & Hin).
    simpl in Hk'. injection Hk' as <- <-.
    apply list_elem_of_fmap. exists (key, val). split; [done|].
    apply list_elem_of_fmap. exists (key, val, vlt2). split; [done|].
    eapply elem_of_delete_other; [done..|]. congruence.
Qed.

Lemma completeWrites_stored schedule (w : World CryptoKey) key :
  stored w key \/ key ∈ (pendingWrites w).*1.*1 ->
  pendingWrites (completeWrites schedule w) = [] ->
  stored (completeWrites schedule w) key.
Proof.
  revert w. induction schedule as [|[n iv] schedule IH]; intros w H Hdone.
  - simpl in *. destruct H as [H|H]; [done|].
    rewrite Hdone in H. by apply elem_of_nil in H.
  - rewrite completeWrites_cons in *. apply IH; [|done].
    by apply completeWrite_stored_or_pending.
Qed.

(** X15. A value written under an encrypted key that has nothing stored
    yet is not read back until its encrypt-and-persist job has written:
    with the vault unlocked, the read right after the write returns the
    written value only when something non-empty was already stored under
    the key, and the caller's default otherwise; once the job of the write
    has completed, the read returns the written value. *)
Theorem first_write_is_invisible_until_persisted key v d (w : World CryptoKey) vault iv :
  key ∈ ENCRYPTED_KEYS ->
  _vault w = Some vault ->
  let w1 := (setSecureData key v w).2 in
  getSecureData key d w1 =
    Returned match localStorage w !! key with
             | Some raw => if String.eqb raw EmptyString then d else v
             | None => d
             end /\
  getSecureData key d (completeWrite (length (pendingWrites w)) iv w1) = Returned v.
Proof.
  intros Hkey Hv. unfold Storage.setSecureData.
  rewrite (isEncryptedKey_elem _ Hkey), Hv. simpl. split.
  - unfold Storage.getSecureData. simpl.
    destruct (localStorage w !! key) as [raw|]; [|done].
    destruct (String.eqb raw EmptyString); [done|].
    rewrite (isEncryptedKey_elem _ Hkey). unfold isVaultReady. simpl.
    by rewrite lookup_insert_eq.
  - unfold Persistence.completeWrite. simpl.
    rewrite lookup_app_r by done. rewrite Nat.sub_diag. simpl.
    unfold Storage.getSecureData. simpl. rewrite lookup_insert_eq.
    destruct (String.eqb _ EmptyString) eqn:E.
    { apply String.eqb_eq in E. by apply stringify_nonempty in E. }
    rewrite (isEncryptedKey_elem _ Hkey). unfold isVaultReady. simpl.
    by rewrite lookup_insert_eq.
Qed.

(** X16. Importing a backup of version 1 while no vault is unlocked
    throws [VaultLockedError] at the first encrypted collection and
    changes nothing: neither the cache nor the persisted store, the
    settings and flags included. *)
Theorem locked_import_changes_nothing backup (w : World CryptoKey) :
  hasVersion1 backup ->
  _vault w = None ->
  importBackupData backup w = (Thrown VaultLockedError, w).
Proof.
  intros Hb Hv. unfold Storage.importBackupData.
  rewrite (hasVersion1_guard _ Hb). unfold andThen at 1.
  unfold Storage.setSecureData at 1.
  assert (isEncryptedKey STORAGE_KEYS.WALLETS = true) as -> by done.
  by rewrite Hv.
Qed.

(** X17. Importing a backup of version 1 with the vault unlocked
    returns, and once the encrypt-and-persist jobs have all completed, in
    whatever order, [getWallets], [getTransactions], [getProviderConfigs]
    and the read of the snapshots return the collections as the backup
    gave them, an absent or null collection as the empty array. *)
Theorem import_then_persist_then_read backup (w : World CryptoKey) vault :
  hasVersion1 backup ->
  _vault w = Some vault ->
  let r := importBackupData backup w in
  let field name := JsValue.nullish (JsValue.prop name backup) (JArray []) in
  r.1 = Returned tt /\
  forall schedule d,
    pendingWrites (completeWrites schedule r.2) = [] ->
    let w' := completeWrites schedule r.2 in
    getWallets w' = Returned (field "wallets") /\
    getTransactions w' = Returned (field "transactions") /\
    getSecureData STORAGE_KEYS.SNAPSHOTS d w' = Returned (field "snapshots") /\
    getProviderConfigs w' = Returned (field "providerConfigs").
Proof.
  intros Hb Hv r field.
  assert (exists w2,
            r = (Returned tt, w2) /\ _vault w2 = Some vault /\
            _secureCache w2 =
              <[STORAGE_KEYS.PROVIDER_CONFIGS := field "providerConfigs"]>
              (<[STORAGE_KEYS.SNAPSHOTS := field "snapshots"]>
               (<[STORAGE_KEYS.TRANSACTIONS := field "transactions"]>
                (<[STORAGE_KEYS.WALLETS := field "wallets"]> (_secureCache w)))) /\
            Forall (fun key => key ∈ (pendingWrites w2).*1.*1) ENCRYPTED_KEYS)
    as (w2 & Hr & Hv2 & Hcache & Hjobs).
  { unfold r, Storage.importBackupData. rewrite (hasVersion1_guard _ Hb).
    unfold andThen, Storage.setSecureData.
    assert (isEncryptedKey STORAGE_KEYS.WALLETS = true) as -> by done.
    assert (isEncryptedKey STORAGE_KEYS.TRANSACTIONS = true) as -> by done.
    assert (isEncryptedKey STORAGE_KEYS.SNAPSHOTS = true) as -> by done.
    assert (isEncryptedKey STORAGE_KEYS.PROVIDER_CONFIGS = true) as -> by done.
    rewrite Hv. cbn [_vault]. eexists. split; [reflexivity|].
    unfold saveSettings, setItem. cbn [_vault _secureCache pendingWrites localStorage].
    split_and!; [done|done|].
    rewrite !fmap_app. repeat constructor; rewrite !elem_of_app; cbn; set_solver. }
  rewrite Hr. split; [done|]. intros schedule d Hdone. cbn [snd] in *.
  destruct (completeWrites_memory schedule w2) as [Hv' Hc'].
  rewrite Hv2 in Hv'. rewrite Hcache in Hc'.
  assert (forall key d', key ∈ ENCRYPTED_KEYS ->
            getSecureData key d' (completeWrites schedule w2)
            = Returned (default d' (_secureCache (completeWrites schedule w2) !! key)))
    as Hread.
  { intros key d' Hkey. eapply read_of_stored; [done..|].
    apply completeWrites_stored; [|done]. right.
    rewrite Forall_forall in Hjobs. by apply Hjobs. }
  unfold Persistence.getWallets, Persistence.getTransactions,
    Persistence.getProviderConfigs.
  rewrite !Hread, Hc' by (unfold ENCRYPTED_KEYS; set_solver).
  split_and!.
  - by rewrite !lookup_insert_ne, lookup_insert_eq by done.
  - by rewrite !lookup_insert_ne, lookup_insert_eq by done.
  - by rewrite lookup_insert_ne, lookup_insert_eq by done.
  - by rewrite lookup_insert_eq.
Qed.

Lemma clearAllData_localStorage (w : World CryptoKey) :
  localStorage (clearAllData w) =
    delete "crypta_passphrase_hash"
      (delete "crypta_encryption_enabled"
         (foldr delete (localStorage w) (reverse allStorageKeys))).
Proof. done. Qed.

(** X18. [clearAllData] removes what is persisted under the keys of the
    application, so that every read of such a key returns the caller's
    default, with or without an unlocked vault; it leaves the unlocked
    vault, the cache and the pending jobs as they are, and a job that is
    still pending writes its blob after the clearing. *)
Theorem clearAllData_forgets_what_is_stored (w : World CryptoKey) :
  let w' := clearAllData w in
  Forall (fun key => localStorage w' !! key = None /\
                     forall d, getSecureData key d w' = Returned d)
         allStorageKeys /\
  _vault w' = _vault w /\ _secureCache w' = _secureCache w /\
  pendingWrites w' = pendingWrites w /\
  forall n iv key value vault,
    pendingWrites w !! n = Some (key, value, vault) ->
    localStorage (completeWrite n iv w') !! key =
      Some (JSON_stringify
              (payloadJson
                 (encryptWithKey AES_GCM_encrypt btoa TextEncoder_encode JSON_stringify
                                 iv value vault))).
Proof.
  intros w'. split_and!; [|done..|].
  - assert (Forall (fun key => localStorage w' !! key = None) allStorageKeys) as H.
    { unfold w'. rewrite clearAllData_localStorage.
      repeat constructor; cbn [foldr reverse rev_append allStorageKeys];
        repeat first [apply lookup_delete_eq | rewrite lookup_delete_ne by done]. }
    eapply Forall_impl; [exact H|]. intros key Hkey. split; [done|].
    intros d. unfold Storage.getSecureData. by rewrite Hkey.
  - intros n iv key value vault Hn. unfold Persistence.completeWrite.
    assert (pendingWrites w' = pendingWrites w) as -> by done.
    rewrite Hn. simpl. apply lookup_insert_eq.
Qed.

End Jobs.

Lemma render_nonempty v : ToyJson.render v <> EmptyString.
Proof.
  destruct v as [|[]|q|s|items|fields]; try done.
  simpl. by destruct (pretty (Qnum q)).
Qed.

Lemma first_write_is_invisible_until_persisted_witness :
  let w : World Byte.byte :=
    {| _vault := Some (Toy.vault Byte.x2a); _secureCache := ∅;
       localStorage := ∅; pendingWrites := [] |} in
  let wallets := JArray [JString "w"] in
  let w1 := (setSecureData ToyJson.render STORAGE_KEYS.WALLETS wallets w).2 in
  getSecureData (fun _ => None) STORAGE_KEYS.WALLETS (JArray []) w1
    = Returned (JArray []) /\
  getSecureData (fun _ => None) STORAGE_KEYS.WALLETS (JArray [])
    (completeWrite Toy.encrypt Toy.btoa list_byte_of_string ToyJson.render
                   0 [Byte.x01] w1)
    = Returned wallets.
Proof.
  destruct (first_write_is_invisible_until_persisted Toy.encrypt Toy.btoa
              list_byte_of_string ToyJson.render (fun _ => None) render_nonempty
              STORAGE_KEYS.WALLETS (JArray [JString "w"]) (JArray [])
              {| _vault := Some (Toy.vault Byte.x2a); _secureCache := ∅;
                 localStorage := ∅; pendingWrites := [] |}
              (Toy.vault Byte.x2a) [Byte.x01]) as [H1 H2].
  - left.
  - reflexivity.
  - split; [|exact H2]. etrans; [exact H1|]. by vm_compute.
Defined.

Lemma locked_import_changes_nothing_witness :
  let backup := JObject [("v", JNumber 1); ("wallets", JArray [JString "w"])] in
  importBackupData (CryptoKey := Byte.byte) ToyJson.render (fun v => Some v) backup
                   freshWorld
  = (Thrown VaultLockedError, freshWorld).
Proof.
  apply (locked_import_changes_nothing ToyJson.render (fun v => Some v)).
  - exists [("v", JNumber 1); ("wallets", JArray [JString "w"])], 1%Q.
    split_and!; reflexivity.
  - reflexivity.
Defined.

Lemma import_then_persist_then_read_witness :
  let backup := JObject [("v", JNumber 1); ("wallets", JArray [JString "w"])] in
  let w : World Byte.byte :=
    {| _vault := Some (Toy.vault Byte.x2a); _secureCache := ∅;
       localStorage := ∅; pendingWrites := [] |} in
  let r := importBackupData ToyJson.render (fun v => Some v) backup w in
  let w' := completeWrites Toy.encrypt Toy.btoa list_byte_of_string ToyJson.render
              [(3%nat, [Byte.x04]); (0%nat, [Byte.x01]); (1%nat, [Byte.x03]);
               (0%nat, [Byte.x02])] r.2 in
  r.1 = Returned tt /\
  getWallets (fun _ => None) w' = Returned (JArray [JString "w"]) /\
  getTransactions (fun _ => None) w' = Returned (JArray []) /\
  getSecureData (fun _ => None) STORAGE_KEYS.SNAPSHOTS JNull w' = Returned (JArray []) /\
  getProviderConfigs (fun _ => None) w' = Returned (JArray []).
Proof.
  destruct (import_then_persist_then_read Toy.encrypt Toy.btoa list_byte_of_string
              ToyJson.render (fun _ => None) (fun v => Some v) render_nonempty
              (JObject [("v", JNumber 1); ("wallets", JArray [JString "w"])])
              {| _vault := Some (Toy.vault Byte.x2a); _secureCache := ∅;
                 localStorage := ∅; pendingWrites := [] |}
              (Toy.vault Byte.x2a)) as [H1 H2].
  - exists [("v", JNumber 1); ("wallets", JArray [JString "w"])], 1%Q.
    split_and!; reflexivity.
  - reflexivity.
  - split; [exact H1|]. apply H2. reflexivity.
Defined.

Lemma clearAllData_forgets_what_is_stored_witness :
  let job := (STORAGE_KEYS.WALLETS, JArray [JString "w"], Toy.vault Byte.x2a) in
  let w : World Byte.byte :=
    {| _vault := Some (Toy.vault Byte.x2a);
       _secureCache := {[ STORAGE_KEYS.WALLETS := JArray [JString "w"] ]};
       localStorage := {[ STORAGE_KEYS.WALLETS := "{}" ]};
       pendingWrites := [job] |} in
  localStorage
    (completeWrite Toy.encrypt Toy.btoa list_byte_of_string ToyJson.render
                   0 [Byte.x01] (clearAllData w)) !! STORAGE_KEYS.WALLETS
  = Some (ToyJson.render
            (payloadJson
               (encryptWithKey Toy.encrypt Toy.btoa list_byte_of_string ToyJson.render
                               [Byte.x01] job.1.2 job.2))).
Proof.
  intros job w.
  destruct (clearAllData_forgets_what_is_stored Toy.encrypt Toy.btoa
              list_byte_of_string ToyJson.render (fun _ => None) w)
    as (_ & _ & _ & _ & H).
  apply (H 0%nat [Byte.x01] STORAGE_KEYS.WALLETS). reflexivity.
Defined.

Section Preload.
Context {CryptoKey : Type}.
Context (AES_GCM_encrypt : CryptoKey -> list Byte.byte -> list Byte.byte -> list Byte.byte).
Context (AES_GCM_decrypt : CryptoKey -> list Byte.byte -> list Byte.byte -> option (list Byte.byte)).
Context (btoa : string -> string) (atob : string -> option string).
Context (TextEncoder_encode : string -> list Byte.byte).
Context (TextDecoder_decode : list Byte.byte -> string).
Context (JSON_stringify : Json -> string) (JSON_parse : string -> option Json).
Context (walletsSchema_safeParse transactionsSchema_safeParse
         snapshotsSchema_safeParse providerConfigsSchema_safeParse : Json -> option Json).
Context (settingsSchema_merged : Json -> option Json).

Local Abbreviation getSchemaInfo :=
  (getSchemaInfo walletsSchema_safeParse transactionsSchema_safeParse
     snapshotsSchema_safeParse providerConfigsSchema_safeParse settingsSchema_merged).
Local Abbreviation normalizePersisted :=
  (normalizePersisted walletsSchema_safeParse transactionsSchema_safeParse
     snapshotsSchema_safeParse providerConfigsSchema_safeParse settingsSchema_merged).
Local Abbreviation preload :=
  (preload AES_GCM_encrypt AES_GCM_decrypt btoa atob TextEncoder_encode
     TextDecoder_decode JSON_stringify JSON_parse
     walletsSchema_safeParse transactionsSchema_safeParse
     snapshotsSchema_safeParse providerConfigsSchema_safeParse settingsSchema_merged).
Local Abbreviation initializeSecureStorage :=
  (initializeSecureStorage AES_GCM_encrypt AES_GCM_decrypt btoa atob TextEncoder_encode
     TextDecoder_decode JSON_stringify JSON_parse
     walletsSchema_safeParse transactionsSchema_safeParse
     snapshotsSchema_safeParse providerConfigsSchema_safeParse settingsSchema_merged).
Local Abbreviation completeWrite :=
  (completeWrite AES_GCM_encrypt btoa TextEncoder_encode JSON_stringify).
Local Abbreviation completeWrites :=
  (completeWrites AES_GCM_encrypt btoa TextEncoder_encode JSON_stringify).
Local Abbreviation encryptWithKey :=
  (encryptWithKey AES_GCM_encrypt btoa TextEncoder_encode JSON_stringify).
Local Abbreviation getSecureData := (getSecureData (CryptoKey := CryptoKey) JSON_parse).
Local Abbreviation setSecureData := (setSecureData (CryptoKey := CryptoKey) JSON_stringify).

Local Abbreviation settled :=
  (settled walletsSchema_safeParse transactionsSchema_safeParse
     snapshotsSchema_safeParse providerConfigsSchema_safeParse settingsSchema_merged).

Lemma version_is_1 key : version (getSchemaInfo key) = 1%Q.
Proof.
  unfold Persistence.getSchemaInfo.
  repeat match goal with |- context [if ?b then _ else _] => destruct b end; done.
Qed.

(** X19. [normalizePersisted] gives, for whatever was stored, data the
    schema of the key accepted or the default of the key; it asks for the
    data to be persisted again unless what was stored is a versioned
    object of version 1 whose data the schema accepts; and what
    [wrapVersioned] makes of accepted data is read back as that data, with
    nothing to persist. *)
Theorem normalizePersisted_settles key rawValue :
  let n := normalizePersisted key rawValue in
  settled key n.1 /\
  n.2 = negb match versionedParts rawValue with
             | Some (sv, data) =>
                 Qeq_bool sv 1 &&
                 match schema (getSchemaInfo key) data with
                 | Some _ => true
                 | None => false
                 end
             | None => false
             end /\
  forall data,
    normalizePersisted key (wrapVersioned key data) =
      match schema (getSchemaInfo key) data with
      | Some parsed => (parsed, false)
      | None => (defaultValue (getSchemaInfo key), true)
      end.
Proof.
  unfold Persistence.normalizePersisted, Persistence.settled. split_and!.
  - destruct (versionedParts rawValue) as [[sv data]|].
    + destruct (schema (getSchemaInfo key) data) as [parsed|] eqn:E; [|by left].
      destruct (negb _); right; by exists data.
    + destruct (schema (getSchemaInfo key) rawValue) as [parsed|] eqn:E; [|by left].
      right. by exists rawValue.
  - rewrite version_is_1.
    destruct (versionedParts rawValue) as [[sv data]|].
    + destruct (schema (getSchemaInfo key) data) as [parsed|].
      * by destruct (Qeq_bool sv 1).
      * by rewrite andb_false_r.
    + by destruct (schema (getSchemaInfo key) rawValue).
  - intros data. simpl. rewrite version_is_1.
    by destruct (schema (getSchemaInfo key) data).
Qed.

Lemma normalizePersisted_settled key rawValue :
  settled key (normalizePersisted key rawValue).1.
Proof.
  unfold Persistence.normalizePersisted, Persistence.settled.
  destruct (versionedParts rawValue) as [[sv data]|].
  - destruct (schema (getSchemaInfo key) data) as [parsed|] eqn:E; [|by left].
    destruct (negb _); right; by exists data.
  - destruct (schema (getSchemaInfo key) rawValue) as [parsed|] eqn:E; [|by left].
    right. by exists rawValue.
Qed.

(** What one iteration of the preloading loop leaves alone, and what it
    may put into the cache. *)
Lemma preload_frame vault jobs (w : World CryptoKey) key :
  _vault (preload vault jobs w key) = _vault w /\
  (forall key', key' <> key ->
     _secureCache (preload vault jobs w key) !! key' = _secureCache w !! key') /\
  (_secureCache (preload vault jobs w key) !! key = _secureCache w !! key \/
   exists v, _secureCache (preload vault jobs w key) !! key = Some v /\ settled key v).
Proof.
  assert (forall data persist (w' : World CryptoKey),
            _vault w' = _vault w -> _secureCache w' = _secureCache w ->
            settled key data ->
            _vault (cacheAndPersist key data persist w') = _vault w /\
            (forall key', key' <> key ->
               _secureCache (cacheAndPersist key data persist w') !! key'
               = _secureCache w !! key') /\
            (_secureCache (cacheAndPersist key data persist w') !! key
               = _secureCache w !! key \/
             exists v, _secureCache (cacheAndPersist key data persist w') !! key = Some v /\
                       settled key v)) as Hput.
  { intros data persist w' Hv Hc Hs. unfold cacheAndPersist. simpl.
    rewrite Hc. split_and!; [done| |].
    - intros key' Hne. by rewrite lookup_insert_ne.
    - right. exists data. split; [apply lookup_insert_eq|done]. }
  unfold Persistence.preload.
  destruct (localStorage w !! key) as [raw|]; [|by split_and!; [..|left]].
  destruct (String.eqb raw EmptyString); [by split_and!; [..|left]|].
  destruct (negb _).
  - destruct (JSON_parse raw) as [parsed|]; [|by split_and!; [..|left]].
    apply Hput; [done|done|apply normalizePersisted_settled].
  - destruct (JSON_parse raw ≫= payloadOfJson) as [payload|];
      [|by split_and!; [..|left]].
    destruct (completeWrites_memory AES_GCM_encrypt btoa TextEncoder_encode
                JSON_stringify jobs w) as [Hv Hc].
    destruct (decryptWithKey _ _ _ _ payload vault) as [decrypted|e].
    + apply Hput; [done|done|apply normalizePersisted_settled].
    + rewrite Hv, Hc. by split_and!; [..|left].
Qed.

Lemma fold_preload_frame vault schedule keys (w : World CryptoKey) :
  let w' := fold_left (fun w key => preload vault (schedule key) w key) keys w in
  _vault w' = _vault w /\
  (forall key, key ∉ keys -> _secureCache w' !! key = _secureCache w !! key) /\
  (forall key v, _secureCache w' !! key = Some v ->
     _secureCache w !! key = Some v \/ (key ∈ keys /\ settled key v)).
Proof.
  revert w. induction keys as [|k keys IH]; intros w.
  { simpl. split_and!; [done| |]; [intros; done|]. intros key v Hv. by left. }
  cbn [fold_left].
  destruct (IH (preload vault (schedule k) w k)) as (H1 & H4 & H5).
  destruct (preload_frame vault (schedule k) w k) as (P1 & P4 & P5).
  split_and!.
  - by rewrite H1.
  - intros key Hkey. apply not_elem_of_cons in Hkey as [Hne Hkey].
    rewrite H4 by done. by apply P4.
  - intros key v Hv. destruct (H5 key v Hv) as [Hold|[Hin Hs]].
    + destruct (decide (key = k)) as [->|Hne].
      * destruct P5 as [Heq|(v' & Hv' & Hs)].
        -- left. by rewrite <- Heq.
        -- right. split; [left|]. congruence.
      * left. by rewrite <- (P4 key Hne).
    + right. split; [by right|done].
Qed.

Lemma initializeSecureStorage_vault vault schedule (w : World CryptoKey) :
  _vault (initializeSecureStorage vault schedule w) = Some vault.
Proof.
  unfold Persistence.initializeSecureStorage.
  by edestruct (fold_preload_frame vault schedule ENCRYPTED_KEYS) as (-> & _ & _).
Qed.

(** X20. [initializeSecureStorage] sets the vault, and the cache it
    builds holds only keys of the encrypted set, each with data the schema
    of the key accepted or with the default of the key, whichever
    encrypt-and-persist jobs complete while it waits for a decryption. *)
Theorem initializeSecureStorage_builds_a_settled_cache vault schedule
    (w : World CryptoKey) :
  let w' := initializeSecureStorage vault schedule w in
  _vault w' = Some vault /\
  map_Forall (fun key v => key ∈ ENCRYPTED_KEYS /\ settled key v) (_secureCache w').
Proof.
  intros w'. unfold w', Persistence.initializeSecureStorage.
  edestruct (fold_preload_frame vault schedule ENCRYPTED_KEYS) as (H1 & _ & H5).
  split; [exact H1|].
  intros key v Hv. destruct (H5 key v Hv) as [Hold|H]; [|done].
  simpl in Hold. by rewrite lookup_empty in Hold.
Qed.

(** The contracts of the platform primitives. *)
Hypothesis gcm_decrypts : forall k iv pt,
  AES_GCM_decrypt k iv (AES_GCM_encrypt k iv pt) = Some pt.
Hypothesis gcm_authenticates : forall k k' iv pt,
  k <> k' -> AES_GCM_decrypt k' iv (AES_GCM_encrypt k iv pt) = None.
Hypothesis atob_btoa : forall s, atob (btoa s) = Some s.
Hypothesis decode_encode : forall v,
  TextDecoder_decode (TextEncoder_encode (JSON_stringify v)) = JSON_stringify v.
Hypothesis stringify_nonempty : forall v, JSON_stringify v <> EmptyString.

(** No job that is pending writes under the key. *)
Let quiet (key : string) (w : World CryptoKey) : Prop :=
  Forall (fun job : string * Json * UnlockedVault CryptoKey => job.1.1 <> key)
         (pendingWrites w).

Lemma completeWrites_quiet key jobs (w : World CryptoKey) :
  quiet key w ->
  quiet key (completeWrites jobs w) /\
  localStorage (completeWrites jobs w) !! key = localStorage w !! key.
Proof.
  revert w. induction jobs as [|[n iv] jobs IH]; intros w Hq; [done|].
  rewrite completeWrites_cons.
  assert (quiet key (completeWrite n iv w) /\
          localStorage (completeWrite n iv w) !! key = localStorage w !! key) as [Hq' Hl'].
  { unfold Persistence.completeWrite.
    destruct (pendingWrites w !! n) as [[[key' value] vault]|] eqn:Hn; [|done].
    simpl. split.
    - unfold quiet in *. simpl. by apply Forall_delete.
    - apply lookup_insert_ne. unfold quiet in Hq.
      by apply (Forall_lookup_1 _ _ _ _ Hq Hn). }
  destruct (IH _ Hq') as [? Hl]. split; [done|]. by rewrite Hl.
Qed.

(** Something non-empty is stored under the key. *)
Let stored (w : World CryptoKey) (key : string) : Prop :=
  exists s, localStorage w !! key = Some s /\ s <> EmptyString.

Lemma completeWrites_keep_stored key jobs (w : World CryptoKey) :
  stored w key -> stored (completeWrites jobs w) key.
Proof.
  revert w. induction jobs as [|[n iv] jobs IH]; intros w Hs; [done|].
  rewrite completeWrites_cons. apply IH.
  unfold Persistence.completeWrite.
  destruct (pendingWrites w !! n) as [[[key' value] vault]|] eqn:Hn; [|done].
  destruct (decide (key' = key)) as [->|Hne].
  - eexists. simpl. split; [apply lookup_insert_eq|apply stringify_nonempty].
  - destruct Hs as (s & Hs & Hnz). exists s. simpl. by rewrite lookup_insert_ne.
Qed.

Lemma preload_other_key vault jobs (w : World CryptoKey) key k :
  k <> key ->
  (quiet key w -> quiet key (preload vault jobs w k) /\
                  localStorage (preload vault jobs w k) !! key = localStorage w !! key) /\
  (stored w key -> stored (preload vault jobs w k) key).
Proof.
  intros Hne.
  assert (forall data persist (w' : World CryptoKey),
            (quiet key w' -> quiet key (cacheAndPersist k data persist w')) /\
            localStorage (cacheAndPersist k data persist w') = localStorage w') as Hput.
  { intros data persist w'. split; [|done]. intros Hq.
    unfold cacheAndPersist, quiet in *. simpl.
    destruct persist, (_vault w'); try done.
    apply Forall_app. split; [done|]. by repeat constructor. }
  unfold Persistence.preload.
  destruct (localStorage w !! k) as [raw|]; [|done].
  destruct (String.eqb raw EmptyString); [done|].
  destruct (negb _).
  - destruct (JSON_parse raw) as [parsed|]; [|done].
    destruct (Hput (normalizePersisted k parsed).1 true w) as [Hq Hl].
    split; [intros H; split; [by apply Hq|by rewrite Hl]|].
    unfold stored. by rewrite Hl.
  - destruct (JSON_parse raw ≫= payloadOfJson) as [payload|]; [|done].
    assert ((quiet key w -> quiet key (completeWrites jobs w) /\
                localStorage (completeWrites jobs w) !! key = localStorage w !! key) /\
            (stored w key -> stored (completeWrites jobs w) key)) as [Ha Hb].
    { split; [apply completeWrites_quiet|apply completeWrites_keep_stored]. }
    destruct (decryptWithKey _ _ _ _ payload vault) as [decrypted|e]; [|done].
    destruct (Hput (normalizePersisted k decrypted).1 (normalizePersisted k decrypted).2
                (completeWrites jobs w)) as [Hq Hl].
    split.
    + intros H. destruct (Ha H) as [H1 H2]. split; [by apply Hq|by rewrite Hl].
    + intros H. unfold stored. rewrite Hl. by apply Hb.
Qed.

(** The iteration for a key that holds the blob of [data] written with
    [vault]. *)
Lemma preload_blob vault other iv jobs (w : World CryptoKey) key data :
  localStorage w !! key
    = Some (JSON_stringify (payloadJson (encryptWithKey iv (wrapVersioned key data) vault))) ->
  jsonSerializable JSON_stringify JSON_parse
    (payloadJson (encryptWithKey iv (wrapVersioned key data) vault)) ->
  jsonSerializable JSON_stringify JSON_parse (wrapVersioned key data) ->
  (vault_key other = vault_key vault ->
   preload other jobs w key =
     cacheAndPersist key (normalizePersisted key (wrapVersioned key data)).1
                     (normalizePersisted key (wrapVersioned key data)).2
                     (completeWrites jobs w)) /\
  (vault_key other <> vault_key vault ->
   preload other jobs w key = completeWrites jobs w).
Proof.
  intros Hraw Hpayload Hdata. unfold Persistence.preload. rewrite Hraw.
  destruct (String.eqb _ EmptyString) eqn:E.
  { apply String.eqb_eq in E. by apply stringify_nonempty in E. }
  unfold jsonSerializable in Hpayload, Hdata.
  unfold isVaultPayloadString. rewrite !Hpayload. simpl.
  unfold CryptoVault.decryptWithKey. simpl.
  rewrite !(CryptoVaultProps.b64decode_b64encode btoa atob atob_btoa).
  split.
  - intros ->. by rewrite gcm_decrypts, decode_encode, Hdata.
  - intros Hne. rewrite gcm_authenticates; [done|]. congruence.
Qed.

(** Along the loop: a property that holds until the iteration for the key
    gives way to one that holds from then on. *)
Lemma fold_preload_key vault schedule keys key (P R : World CryptoKey -> Prop) :
  NoDup keys -> key ∈ keys ->
  (forall w jobs k, k <> key -> P w -> P (preload vault jobs w k)) ->
  (forall w jobs, P w -> R (preload vault jobs w key)) ->
  (forall w jobs k, k <> key -> R w -> R (preload vault jobs w k)) ->
  forall w, P w -> R (fold_left (fun w k => preload vault (schedule k) w k) keys w).
Proof.
  intros Hnd Hin HP HPR HR.
  assert (forall ks w, key ∉ ks -> R w ->
            R (fold_left (fun w k => preload vault (schedule k) w k) ks w)) as Hafter.
  { intros ks. induction ks as [|k ks IH]; intros w Hk Hw; [done|].
    apply not_elem_of_cons in Hk as [Hne Hk]. cbn [fold_left].
    apply IH; [done|]. by apply HR. }
  induction keys as [|k keys IH]; intros w Hw.
  { by apply elem_of_nil in Hin. }
  apply NoDup_cons in Hnd as [Hk Hnd]. cbn [fold_left].
  destruct (decide (k = key)) as [->|Hne].
  - apply Hafter; [done|]. by apply HPR.
  - apply elem_of_cons in Hin as [->|Hin]; [done|].
    apply IH; [done|done|]. by apply HP.
Qed.

Lemma ENCRYPTED_KEYS_NoDup : NoDup ENCRYPTED_KEYS.
Proof. apply (bool_decide_unpack _). by vm_compute. Qed.

(** X21. What is written under an encrypted key survives locking and
    unlocking.  Write a value with the vault unlocked and no other write
    to the key in flight, let the job of the write complete, lock
    ([clearSecureStorage]) and unlock with the same vault
    ([initializeSecureStorage]): the read returns what the schema of the
    key makes of the value, or the default of the key if the schema
    rejects it.  Unlocked instead with a vault holding another key, the
    read returns the caller's default and throws nothing.  Both hold
    whichever pending jobs complete while the unlocking waits for a
    decryption. *)
Theorem written_data_survives_locking key v d (w : World CryptoKey) vault iv :
  key ∈ ENCRYPTED_KEYS ->
  _vault w = Some vault ->
  Forall (fun job : string * Json * UnlockedVault CryptoKey => job.1.1 <> key)
         (pendingWrites w) ->
  let blob := encryptWithKey iv (wrapVersioned key v) vault in
  jsonSerializable JSON_stringify JSON_parse (payloadJson blob) ->
  jsonSerializable JSON_stringify JSON_parse (wrapVersioned key v) ->
  let persisted :=
    completeWrite (length (pendingWrites w)) iv (setSecureData key v w).2 in
  let locked := clearSecureStorage persisted in
  localStorage locked !! key = Some (JSON_stringify (payloadJson blob)) /\
  (forall schedule,
     getSecureData key d (initializeSecureStorage vault schedule locked) =
       Returned match schema (getSchemaInfo key) v with
                | Some parsed => parsed
                | None => defaultValue (getSchemaInfo key)
                end) /\
  (forall other schedule,
     vault_key other <> vault_key vault ->
     getSecureData key d (initializeSecureStorage other schedule locked) = Returned d).
Proof.
  intros Hkey Hv Hquiet blob Hblob Hdata persisted locked.
  assert (localStorage locked !! key = Some (JSON_stringify (payloadJson blob)) /\
          quiet key locked) as [Hraw Hq].
  { unfold locked, persisted, Storage.setSecureData, quiet.
    rewrite (isEncryptedKey_elem _ Hkey), Hv. unfold Persistence.completeWrite. simpl.
    rewrite lookup_app_r by done. rewrite Nat.sub_diag. simpl. split.
    - apply lookup_insert_eq.
    - rewrite delete_middle. by rewrite app_nil_r. }
  set (before (w' : World CryptoKey) :=
         localStorage w' !! key = Some (JSON_stringify (payloadJson blob)) /\
         quiet key w' /\ _secureCache w' !! key = None).
  assert (forall other (w' : World CryptoKey) jobs k,
            k <> key -> before w' -> before (preload other jobs w' k)) as Hbefore.
  { intros other w' jobs k Hne (H1 & H2 & H3).
    destruct (preload_other_key other jobs w' key k Hne) as [Ha _].
    destruct (Ha H2) as [Hq' Hl'].
    destruct (preload_frame other jobs w' k) as (_ & Hc & _).
    split_and!; [by rewrite Hl'|done|]. rewrite Hc; done. }
  assert (forall other, before
            {| _vault := Some other; _secureCache := ∅;
               localStorage := localStorage locked;
               pendingWrites := pendingWrites locked |}) as Hstart.
  { intros other. split_and!; [done|done|]. simpl. apply lookup_empty. }
  split_and!; [exact Hraw| |].
  - intros schedule.
    set (data := (normalizePersisted key (wrapVersioned key v)).1).
    assert (stored (initializeSecureStorage vault schedule locked) key /\
            _secureCache (initializeSecureStorage vault schedule locked) !! key
              = Some data) as [Hs Hc].
    { unfold Persistence.initializeSecureStorage.
      apply (fold_preload_key vault schedule ENCRYPTED_KEYS key before
               (fun w' => stored w' key /\ _secureCache w' !! key = Some data));
        [apply ENCRYPTED_KEYS_NoDup|done|apply Hbefore| | |apply Hstart].
      - intros w' jobs (H1 & H2 & H3).
        destruct (preload_blob vault vault iv jobs w' key v H1 Hblob Hdata) as [Hsame _].
        rewrite Hsame by done.
        destruct (completeWrites_quiet key jobs w' H2) as [_ Hl].
        split.
        + exists (JSON_stringify (payloadJson blob)). split; [|apply stringify_nonempty].
          unfold cacheAndPersist. simpl. by rewrite Hl.
        + unfold cacheAndPersist. simpl. apply lookup_insert_eq.
      - intros w' jobs k Hne [H1 H2].
        destruct (preload_other_key vault jobs w' key k Hne) as [_ Hb].
        destruct (preload_frame vault jobs w' k) as (_ & Hc & _).
        split; [by apply Hb|]. by rewrite Hc. }
    pose proof (initializeSecureStorage_vault vault schedule locked) as Hvault.
    destruct Hs as (s & Hs & Hnz).
    unfold Storage.getSecureData. rewrite Hs.
    destruct (String.eqb s EmptyString) eqn:E; [by apply String.eqb_eq in E|].
    rewrite (isEncryptedKey_elem _ Hkey). unfold isVaultReady. rewrite Hvault.
    cbn [negb]. rewrite Hc. unfold data, Persistence.normalizePersisted. simpl.
    rewrite version_is_1. by destruct (schema (getSchemaInfo key) v).
  - intros other schedule Hne.
    assert (_secureCache (initializeSecureStorage other schedule locked) !! key = None)
      as Hc.
    { unfold Persistence.initializeSecureStorage.
      apply (fold_preload_key other schedule ENCRYPTED_KEYS key before
               (fun w' => _secureCache w' !! key = None));
        [apply ENCRYPTED_KEYS_NoDup|done|apply Hbefore| | |apply Hstart].
      - intros w' jobs (H1 & H2 & H3).
        destruct (preload_blob vault other iv jobs w' key v H1 Hblob Hdata) as [_ Hother].
        rewrite Hother by done.
        destruct (completeWrites_memory AES_GCM_encrypt btoa TextEncoder_encode
                    JSON_stringify jobs w') as [_ ->]. done.
      - intros w' jobs k Hk H.
        destruct (preload_frame other jobs w' k) as (_ & Hc & _). by rewrite Hc. }
    pose proof (initializeSecureStorage_vault other schedule locked) as Hvault.
    unfold Storage.getSecureData.
    destruct (localStorage (initializeSecureStorage other schedule locked) !! key)
      as [s|]; [|done].
    destruct (String.eqb s EmptyString); [done|].
    rewrite (isEncryptedKey_elem _ Hkey). unfold isVaultReady. rewrite Hvault.
    cbn [negb]. by rewrite Hc.
Qed.

End Preload.

Lemma written_data_survives_locking_witness :
  let wallets := JArray [JString "w"] in
  let vault := Toy.vault Byte.x2a in
  let iv := [Byte.x01; Byte.x02] in
  let blob := encryptWithKey Toy.encrypt Toy.btoa list_byte_of_string ToyJson.render
                iv (wrapVersioned STORAGE_KEYS.WALLETS wallets) vault in
  let parse :=
    ToyJson.parse [payloadJson blob; wrapVersioned STORAGE_KEYS.WALLETS wallets] in
  let w : World Byte.byte :=
    {| _vault := Some vault; _secureCache := ∅; localStorage := ∅;
       pendingWrites :=
         [(STORAGE_KEYS.SNAPSHOTS, wrapVersioned STORAGE_KEYS.SNAPSHOTS (JArray []),
           vault)] |} in
  let locked :=
    clearSecureStorage
      (completeWrite Toy.encrypt Toy.btoa list_byte_of_string ToyJson.render 1 iv
         (setSecureData ToyJson.render STORAGE_KEYS.WALLETS wallets w).2) in
  let unlock :=
    initializeSecureStorage Toy.encrypt Toy.decrypt Toy.btoa Toy.atob
      list_byte_of_string string_of_list_byte ToyJson.render parse
      Some Some Some Some Some in
  let schedule := fun _ : string => [(0%nat, [Byte.x07])] in
  getSecureData parse STORAGE_KEYS.WALLETS JNull (unlock vault schedule locked)
    = Returned wallets /\
  getSecureData parse STORAGE_KEYS.WALLETS JNull
    (unlock (Toy.vault Byte.x2b) schedule locked)
    = Returned JNull.
Proof.
  intros wallets vault iv blob parse w locked unlock schedule.
  destruct (written_data_survives_locking Toy.encrypt Toy.decrypt Toy.btoa Toy.atob
              list_byte_of_string string_of_list_byte ToyJson.render parse
              Some Some Some Some Some
              CryptoVaultProps.toy_decrypts CryptoVaultProps.toy_authenticates
              (fun s => eq_refl) (fun v => string_of_list_byte_of_string _)
              render_nonempty
              STORAGE_KEYS.WALLETS wallets JNull w vault iv)
    as (_ & H2 & H3).
  - left.
  - reflexivity.
  - repeat constructor. simpl. discriminate.
  - by vm_compute.
  - by vm_compute.
  - split; [exact (H2 schedule)|]. apply (H3 (Toy.vault Byte.x2b)). simpl. discriminate.
Defined.

End PersistenceProps.

(** * Properties of the vault interface *)

Module VaultApiProps.
Import CryptoVault Persistence VaultApi.

Section VaultApiFacts.
Context {CryptoKey : Type}.
Context (AES_GCM_encrypt : CryptoKey -> list Byte.byte -> list Byte.byte -> list Byte.byte).
Context (AES_GCM_decrypt : CryptoKey -> list Byte.byte -> list Byte.byte -> option (list Byte.byte)).
Context (btoa : string -> string) (atob : string -> option string).
Context (TextEncoder_encode : string -> list Byte.byte).
Context (TextDecoder_decode : list Byte.byte -> string).
Context (JSON_stringify : Json -> string) (JSON_parse : string -> option Json).
Context (deriveAesKey : string -> Json -> Outcome CryptoKey).
Context (ToString : Json -> string).
Context (encryptedBackupFileSchema_safeParse : Json -> option (Json * EncryptedPayloadV1)).

Local Abbreviation createVault :=
  (createVault AES_GCM_encrypt btoa TextEncoder_encode JSON_stringify JSON_parse deriveAesKey).
Local Abbreviation encryptJson :=
  (encryptJson AES_GCM_encrypt btoa TextEncoder_encode JSON_stringify JSON_parse deriveAesKey).
Local Abbreviation decryptJson :=
  (decryptJson AES_GCM_decrypt atob TextDecoder_decode JSON_parse deriveAesKey).
Local Abbreviation openPayload :=
  (openPayload AES_GCM_decrypt atob TextDecoder_decode JSON_parse).
Local Abbreviation unlockVault :=
  (unlockVault AES_GCM_decrypt atob TextDecoder_decode JSON_parse deriveAesKey ToString).
Local Abbreviation verifyVaultPassphrase :=
  (verifyVaultPassphrase AES_GCM_decrypt atob TextDecoder_decode JSON_parse deriveAesKey
     ToString).
Local Abbreviation restoreEncryptedBackup :=
  (restoreEncryptedBackup AES_GCM_decrypt atob TextDecoder_decode JSON_parse deriveAesKey
     encryptedBackupFileSchema_safeParse).

(** X22. [createVault] with a passphrase of fewer than 8 characters
    throws before it writes: the persisted store is as it was, and no
    vault is configured unless one was before. *)
Theorem createVault_rejects_short_passphrases salt iv now passphrase iterations ls :
  (String.length passphrase < 8)%nat ->
  createVault salt iv now passphrase iterations ls
  = (Thrown (Error "Passphrase must be at least 8 characters"), ls).
Proof.
  intros Hlen. unfold VaultApi.createVault.
  apply Nat.ltb_lt in Hlen. rewrite Hlen. by rewrite orb_true_r.
Qed.

(** The contracts of the platform primitives. *)
Hypothesis gcm_decrypts : forall k iv pt,
  AES_GCM_decrypt k iv (AES_GCM_encrypt k iv pt) = Some pt.
Hypothesis gcm_authenticates : forall k k' iv pt,
  k <> k' -> AES_GCM_decrypt k' iv (AES_GCM_encrypt k iv pt) = None.
Hypothesis atob_btoa : forall s, atob (btoa s) = Some s.
Hypothesis decode_encode : forall v,
  TextDecoder_decode (TextEncoder_encode (JSON_stringify v)) = JSON_stringify v.
Hypothesis stringify_nonempty : forall v, JSON_stringify v <> EmptyString.

Lemma openPayload_sealed iv data k :
  jsonSerializable JSON_stringify JSON_parse data ->
  openPayload
    {| payload_iv := b64encode btoa iv;
       payload_ct := b64encode btoa
                       (AES_GCM_encrypt k iv (TextEncoder_encode (JSON_stringify data))) |}
    k = Returned data /\
  forall k', k' <> k ->
    openPayload
      {| payload_iv := b64encode btoa iv;
         payload_ct := b64encode btoa
                         (AES_GCM_encrypt k iv (TextEncoder_encode (JSON_stringify data))) |}
      k' = Thrown OperationError.
Proof.
  intros Hdata. unfold VaultApi.openPayload. simpl.
  rewrite !(CryptoVaultProps.b64decode_b64encode btoa atob atob_btoa). split.
  - by rewrite gcm_decrypts, decode_encode, Hdata.
  - intros k' Hne. rewrite gcm_authenticates; [done|]. congruence.
Qed.

(** X23. [decryptJson] returns what [encryptJson] was given, under the
    same passphrase and meta data and whatever is stored, for every
    JSON-serializable value; under a passphrase that derives another key
    it throws and returns nothing.  Without meta data, passed or stored,
    both throw [VaultCryptoError] before deriving a key. *)
Theorem encryptJson_decryptJson_round_trip iv data passphrase meta k ls ls' :
  deriveAesKey passphrase meta = Returned k ->
  jsonSerializable JSON_stringify JSON_parse data ->
  exists payload,
    encryptJson iv data passphrase (Some meta) ls = Returned payload /\
    decryptJson payload passphrase (Some meta) ls' = Returned data /\
    (forall wrong k',
       deriveAesKey wrong meta = Returned k' -> k' <> k ->
       decryptJson payload wrong (Some meta) ls' = Thrown OperationError) /\
    (readVaultMeta JSON_parse ls' = None ->
     encryptJson iv data passphrase None ls'
       = Thrown (VaultCryptoError "Vault is not configured") /\
     decryptJson payload passphrase None ls'
       = Thrown (VaultCryptoError "Vault is not configured")).
Proof.
  intros Hk Hdata. unfold VaultApi.encryptJson, VaultApi.decryptJson. rewrite Hk.
  eexists. split; [reflexivity|].
  destruct (openPayload_sealed iv data k Hdata) as [Hsame Hother].
  split_and!.
  - exact Hsame.
  - intros wrong k' Hk' Hne. rewrite Hk'. by apply Hother.
  - by intros ->.
Qed.

(** X24. A vault created with a passphrase of at least 8 characters is
    configured and unlocks with that passphrase: [unlockVault] returns the
    stored meta data with the derived key and [verifyVaultPassphrase]
    answers true; with a passphrase that derives another key,
    [unlockVault] throws the error 'Passphrase non valida' and
    [verifyVaultPassphrase] answers false. *)
Theorem created_vault_unlocks_with_its_passphrase
    salt iv now passphrase iterations ls k :
  (8 <= String.length passphrase)%nat ->
  let meta := metaJson (b64encode btoa salt) iterations in
  let check :=
    {| payload_iv := b64encode btoa iv;
       payload_ct :=
         b64encode btoa
           (AES_GCM_encrypt k iv (TextEncoder_encode (JSON_stringify (sentinel now)))) |} in
  deriveAesKey passphrase meta = Returned k ->
  jsonSerializable JSON_stringify JSON_parse meta ->
  jsonSerializable JSON_stringify JSON_parse (payloadJson check) ->
  jsonSerializable JSON_stringify JSON_parse (sentinel now) ->
  let r := createVault salt iv now passphrase iterations ls in
  r.1 = Returned tt /\
  isVaultConfigured JSON_parse r.2 = true /\
  unlockVault passphrase r.2
    = Returned {| unlocked_meta := meta; unlocked_key := k |} /\
  verifyVaultPassphrase passphrase r.2 = true /\
  forall wrong k',
    deriveAesKey wrong meta = Returned k' -> k' <> k ->
    unlockVault wrong r.2 = Thrown (Error "Passphrase non valida") /\
    verifyVaultPassphrase wrong r.2 = false.
Proof.
  intros Hlen meta check Hk Hmeta Hcheck Hsent r.
  assert (r = (Returned tt,
               <[VAULT_CHECK_KEY := JSON_stringify (payloadJson check)]>
                 (<[VAULT_META_KEY := JSON_stringify meta]> ls))) as ->.
  { unfold r, VaultApi.createVault.
    destruct passphrase as [|c passphrase]; [simpl in Hlen; lia|].
    cbn [String.eqb orb].
    assert ((String.length (String c passphrase) <? 8)%nat = false) as ->
      by by apply Nat.ltb_ge.
    unfold VaultApi.encryptJson. fold meta. by rewrite Hk. }
  cbn [fst snd].
  set (ls' := <[VAULT_CHECK_KEY := _]> _).
  assert (readVaultMeta JSON_parse ls' = Some meta) as Hread.
  { unfold readVaultMeta, getItemTruthy, ls'.
    rewrite lookup_insert_ne by done. rewrite lookup_insert_eq.
    destruct (String.eqb _ EmptyString) eqn:E.
    { apply String.eqb_eq in E. by apply stringify_nonempty in E. }
    by rewrite Hmeta. }
  assert (getItemTruthy VAULT_CHECK_KEY ls' = Some (JSON_stringify (payloadJson check)))
    as Hraw.
  { unfold getItemTruthy, ls'. rewrite lookup_insert_eq.
    destruct (String.eqb _ EmptyString) eqn:E; [|done].
    apply String.eqb_eq in E. by apply stringify_nonempty in E. }
  destruct (openPayload_sealed iv (sentinel now) k Hsent) as [Hsame Hother].
  fold check in Hsame, Hother.
  assert (asPayload ToString (payloadJson check) = Some check) as Hpay by done.
  split_and!.
  - done.
  - unfold isVaultConfigured. by rewrite Hread, Hraw.
  - unfold VaultApi.unlockVault. rewrite Hread, Hk, Hraw, Hcheck, Hpay. simpl.
    by rewrite Hsame.
  - unfold VaultApi.verifyVaultPassphrase, VaultApi.decryptJson.
    rewrite Hread, Hraw, Hcheck, Hpay, Hk. by rewrite Hsame.
  - intros wrong k' Hk' Hne. split.
    + unfold VaultApi.unlockVault. rewrite Hread, Hk', Hraw, Hcheck, Hpay. simpl.
      by rewrite (Hother k' Hne).
    + unfold VaultApi.verifyVaultPassphrase, VaultApi.decryptJson.
      rewrite Hread, Hraw, Hcheck, Hpay, Hk'. by rewrite (Hother k' Hne).
Qed.

(** X25. [restoreEncryptedBackup] returns the data of a backup file as
    [createEncryptedBackup] lays it out, for the passphrase the payload
    was encrypted under and whatever vault the device has; a file the
    schema rejects is refused with the error 'File di backup non valido o
    corrotto', and a passphrase that derives another key makes the
    decryption throw. *)
Theorem restoreEncryptedBackup_reads_its_own_files
    iv data passphrase createdAt meta k ls ls' :
  deriveAesKey passphrase meta = Returned k ->
  jsonSerializable JSON_stringify JSON_parse data ->
  exists payload,
    encryptJson iv data passphrase (Some meta) ls = Returned payload /\
    let file := backupFile createdAt meta payload in
    (jsonSerializable JSON_stringify JSON_parse file ->
     encryptedBackupFileSchema_safeParse file = Some (meta, payload) ->
     restoreEncryptedBackup (JSON_stringify file) passphrase ls' = Returned data /\
     forall wrong k',
       deriveAesKey wrong meta = Returned k' -> k' <> k ->
       restoreEncryptedBackup (JSON_stringify file) wrong ls' = Thrown OperationError) /\
    (forall text other,
       JSON_parse text = Some other ->
       encryptedBackupFileSchema_safeParse other = None ->
       restoreEncryptedBackup text passphrase ls'
       = Thrown (Error "File di backup non valido o corrotto")).
Proof.
  intros Hk Hdata. unfold VaultApi.encryptJson. rewrite Hk.
  eexists. split; [reflexivity|].
  destruct (openPayload_sealed iv data k Hdata) as [Hsame Hother].
  split.
  - intros Hfile Hschema. unfold VaultApi.restoreEncryptedBackup, VaultApi.decryptJson.
    split.
    + by rewrite Hfile, Hschema, Hk.
    + intros wrong k' Hk' Hne. rewrite Hfile, Hschema, Hk'. by apply Hother.
  - intros text other Hparse Hschema. unfold VaultApi.restoreEncryptedBackup.
    by rewrite Hparse, Hschema.
Qed.

End VaultApiFacts.

Lemma createVault_rejects_short_passphrases_witness :
  createVault Toy.encrypt Toy.btoa list_byte_of_string ToyJson.render (fun _ => None)
              toyDerive [Byte.x73] [Byte.x01] 1767225600000 "short" DEFAULT_ITERATIONS ∅
  = (Thrown (Error "Passphrase must be at least 8 characters"), ∅).
Proof.
  apply createVault_rejects_short_passphrases. simpl. lia.
Defined.

Lemma encryptJson_decryptJson_round_trip_witness :
  let data := JArray [JString "w"] in
  let meta := metaJson "c2FsdA==" DEFAULT_ITERATIONS in
  let parse := ToyJson.parse [data] in
  exists payload,
    encryptJson Toy.encrypt Toy.btoa list_byte_of_string ToyJson.render parse toyDerive
                [Byte.x01] data "correct horse" (Some meta) ∅ = Returned payload /\
    decryptJson Toy.decrypt Toy.atob string_of_list_byte parse toyDerive
                payload "correct horse" (Some meta) ∅ = Returned data /\
    decryptJson Toy.decrypt Toy.atob string_of_list_byte parse toyDerive
                payload "wrong horse!" (Some meta) ∅ = Thrown OperationError.
Proof.
  intros data meta parse.
  destruct (encryptJson_decryptJson_round_trip
              Toy.encrypt Toy.decrypt Toy.btoa Toy.atob
              list_byte_of_string string_of_list_byte ToyJson.render parse toyDerive
              CryptoVaultProps.toy_decrypts CryptoVaultProps.toy_authenticates
              (fun s => eq_refl) (fun v => string_of_list_byte_of_string _)
              [Byte.x01] data "correct horse" meta Byte.x63 ∅ ∅)
    as (payload & H1 & H2 & H3 & _).
  - reflexivity.
  - by vm_compute.
  - exists payload. split; [exact H1|]. split; [exact H2|].
    apply (H3 "wrong horse!" Byte.x77); [reflexivity|discriminate].
Defined.

Lemma created_vault_unlocks_with_its_passphrase_witness :
  let salt := [Byte.x73; Byte.x61; Byte.x6c; Byte.x74] in
  let iv := [Byte.x01] in
  let now := 1767225600000%Q in
  let meta := metaJson (b64encode Toy.btoa salt) DEFAULT_ITERATIONS in
  let check :=
    {| payload_iv := b64encode Toy.btoa iv;
       payload_ct :=
         b64encode Toy.btoa
           (Toy.encrypt Byte.x63 iv (list_byte_of_string (ToyJson.render (sentinel now)))) |} in
  let parse := ToyJson.parse [meta; payloadJson check; sentinel now] in
  let r := createVault Toy.encrypt Toy.btoa list_byte_of_string ToyJson.render parse
             toyDerive salt iv now "correct horse" DEFAULT_ITERATIONS ∅ in
  r.1 = Returned tt /\
  unlockVault Toy.decrypt Toy.atob string_of_list_byte parse toyDerive
              (fun _ => EmptyString) "correct horse" r.2
    = Returned {| unlocked_meta := meta; unlocked_key := Byte.x63 |} /\
  unlockVault Toy.decrypt Toy.atob string_of_list_byte parse toyDerive
              (fun _ => EmptyString) "wrong horse!" r.2
    = Thrown (Error "Passphrase non valida").
Proof.
  intros salt iv now meta check parse r.
  destruct (created_vault_unlocks_with_its_passphrase
              Toy.encrypt Toy.decrypt Toy.btoa Toy.atob
              list_byte_of_string string_of_list_byte ToyJson.render parse toyDerive
              (fun _ => EmptyString)
              CryptoVaultProps.toy_decrypts CryptoVaultProps.toy_authenticates
              (fun s => eq_refl) (fun v => string_of_list_byte_of_string _)
              PersistenceProps.render_nonempty
              salt iv now "correct horse" DEFAULT_ITERATIONS ∅ Byte.x63)
    as (H1 & _ & H3 & _ & H5).
  - simpl. lia.
  - reflexivity.
  - by vm_compute.
  - by vm_compute.
  - by vm_compute.
  - split; [exact H1|]. split; [exact H3|].
    apply (H5 "wrong horse!" Byte.x77); [reflexivity|discriminate].
Defined.

Lemma restoreEncryptedBackup_reads_its_own_files_witness :
  let data := JObject [("v", JNumber 1); ("wallets", JArray [JString "w"])] in
  let meta := metaJson "c2FsdA==" DEFAULT_ITERATIONS in
  let payload :=
    {| payload_iv := b64encode Toy.btoa [Byte.x01];
       payload_ct :=
         b64encode Toy.btoa
           (Toy.encrypt Byte.x63 [Byte.x01] (list_byte_of_string (ToyJson.render data))) |} in
  let file := backupFile 1767225600000 meta payload in
  let parse := ToyJson.parse [data; file] in
  restoreEncryptedBackup Toy.decrypt Toy.atob string_of_list_byte parse toyDerive
    toyBackupSchema (ToyJson.render file) "correct horse" ∅
  = Returned data.
Proof.
  intros data meta payload file parse.
  destruct (restoreEncryptedBackup_reads_its_own_files
              Toy.encrypt Toy.decrypt Toy.btoa Toy.atob
              list_byte_of_string string_of_list_byte ToyJson.render parse toyDerive
              toyBackupSchema
              CryptoVaultProps.toy_decrypts CryptoVaultProps.toy_authenticates
              (fun s => eq_refl) (fun v => string_of_list_byte_of_string _)
              [Byte.x01] data "correct horse" 1767225600000 meta Byte.x63 ∅ ∅)
    as (payload' & H1 & H2 & _).
  - reflexivity.
  - by vm_compute.
  - injection H1 as <-. apply H2; by vm_compute.
Defined.

End VaultApiProps.

(** * Properties of the API key fingerprint *)

Module ApiKeyHashProps.
Import ApiKeyHash.
Local Open Scope Z_scope.

Lemma toInt32_range z : - 2 ^ 31 <= toInt32 z < 2 ^ 31.
Proof.
  unfold toInt32. pose proof (Z.mod_pos_bound (z + 2 ^ 31) (2 ^ 32)). lia.
Qed.

Lemma toInt32_mod z : toInt32 z mod 2 ^ 32 = z mod 2 ^ 32.
Proof.
  unfold toInt32. rewrite Zminus_mod_idemp_l. f_equal. lia.
Qed.

Lemma toInt32_id z : - 2 ^ 31 <= z < 2 ^ 31 -> toInt32 z = z.
Proof.
  intros H. unfold toInt32. rewrite Z.mod_small; lia.
Qed.

Lemma lxor_mod a b n :
  0 <= n -> Z.lxor a b mod 2 ^ n = Z.lxor (a mod 2 ^ n) (b mod 2 ^ n).
Proof.
  intros Hn. apply Z.bits_inj'. intros i Hi.
  rewrite Z.lxor_spec.
  destruct (Z.lt_ge_cases i n) as [Hlt|Hge].
  - rewrite !Z.mod_pow2_bits_low by done. by rewrite Z.lxor_spec.
  - by rewrite !Z.mod_pow2_bits_high by lia.
Qed.

Lemma lxor_nonneg_lt a b n :
  0 < n -> 0 <= a < 2 ^ n -> 0 <= b < 2 ^ n -> 0 <= Z.lxor a b < 2 ^ n.
Proof.
  intros Hn Ha Hb.
  assert (0 <= Z.lxor a b) as Hpos by (apply Z.lxor_nonneg; lia).
  split; [done|].
  destruct (Z.eq_dec (Z.lxor a b) 0) as [->|Hne]; [lia|].
  apply Z.log2_lt_pow2; [lia|].
  eapply Z.le_lt_trans; [apply Z.log2_lxor; lia|].
  assert (forall x, 0 <= x < 2 ^ n -> Z.log2 x < n) as Hlog.
  { intros x Hx. destruct (Z.eq_dec x 0) as [->|]; [done|].
    apply Z.log2_lt_pow2; lia. }
  apply Z.max_lub_lt; by apply Hlog.
Qed.

(** The exclusive or of two 32-bit integers is a 32-bit integer. *)
Lemma lxor_int32 a b :
  - 2 ^ 31 <= a < 2 ^ 31 -> - 2 ^ 31 <= b < 2 ^ 31 ->
  - 2 ^ 31 <= Z.lxor a b < 2 ^ 31.
Proof.
  intros Ha Hb.
  destruct (Z.neg_nonneg_cases a) as [Ha'|Ha'];
    destruct (Z.neg_nonneg_cases b) as [Hb'|Hb'].
  - rewrite <- Z.lxor_lnot_lnot.
    pose proof (lxor_nonneg_lt (Z.lnot a) (Z.lnot b) 31). unfold Z.lnot in *. lia.
  - rewrite <- (Z.lnot_involutive (Z.lxor a b)), Z.lnot_lxor_l.
    pose proof (lxor_nonneg_lt (Z.lnot a) b 31).
    unfold Z.lnot in *. lia.
  - rewrite <- (Z.lnot_involutive (Z.lxor a b)), Z.lnot_lxor_r.
    pose proof (lxor_nonneg_lt a (Z.lnot b) 31).
    unfold Z.lnot in *. lia.
  - pose proof (lxor_nonneg_lt a b 31). lia.
Qed.

Lemma charCodes_range s : Forall (fun c => 0 <= c < 256) (charCodes s).
Proof.
  induction s as [|c s IH]; simpl; constructor; [|done].
  pose proof (nat_ascii_bounded c). lia.
Qed.

(** X26. The 32-bit arithmetic of [hashApiKey] loses nothing but the
    high bits: the hash stays a 32-bit integer through the loop, so that
    the product by 33 is exact in a double, and the number rendered in
    hexadecimal is the value of the same loop on unbounded integers,
    reduced modulo 2^32. *)
Theorem hashApiKey_is_djb2_modulo_2_32 apiKey :
  - 2 ^ 31 <= djb2 apiKey < 2 ^ 31 /\
  Z.abs (djb2 apiKey * 33) < 2 ^ 53 /\
  0 <= toUint32 (djb2 apiKey) < 2 ^ 32 /\
  hashApiKey apiKey =
    HexadecimalString.NilZero.string_of_uint
      (N.to_hex_uint (Z.to_N (djb2Unbounded apiKey mod 2 ^ 32))).
Proof.
  assert (forall codes h h',
            Forall (fun c => 0 <= c < 256) codes ->
            - 2 ^ 31 <= h < 2 ^ 31 -> h mod 2 ^ 32 = h' mod 2 ^ 32 ->
            - 2 ^ 31 <= fold_left (fun hash c => xor32 (hash * 33) c) codes h < 2 ^ 31 /\
            fold_left (fun hash c => xor32 (hash * 33) c) codes h mod 2 ^ 32 =
            fold_left (fun hash c => Z.lxor (hash * 33) c) codes h' mod 2 ^ 32) as H.
  { induction codes as [|c codes IH]; intros h h' Hc Hh Heq; simpl; [done|].
    apply Forall_cons in Hc as [Hc Hcs]. apply IH; [done| |].
    - apply lxor_int32; apply toInt32_range.
    - unfold xor32. rewrite (lxor_mod _ _ 32), (lxor_mod (h' * 33) _ 32) by lia.
      rewrite !toInt32_mod. f_equal.
      rewrite <- Z.mul_mod_idemp_l, Heq, Z.mul_mod_idemp_l by lia. done. }
  destruct (H (charCodes apiKey) 5381 5381 (charCodes_range apiKey)) as [Hr Hm];
    [lia|done|].
  fold (djb2 apiKey) in Hr, Hm. fold (djb2Unbounded apiKey) in Hm.
  unfold hashApiKey, toUint32. split; [exact Hr|]. split; [lia|].
  split; [apply Z.mod_pos_bound; lia|by rewrite Hm].
Qed.

End ApiKeyHashProps.

(** * Properties of the asset flags *)

Module AssetFlagsProps.
Import Storage Persistence AssetFlags.

Lemma upper_ascii_idemp c : Js.upper_ascii (Js.upper_ascii c) = Js.upper_ascii c.
Proof. by destruct c as [[] [] [] [] [] [] [] []]. Qed.

Lemma toUpperCase_idemp s : Js.toUpperCase (Js.toUpperCase s) = Js.toUpperCase s.
Proof.
  induction s as [|c s IH]; simpl; [done|]. by rewrite upper_ascii_idemp, IH.
Qed.

Lemma indexOf_None normalized hidden :
  indexOf normalized hidden = None -> existsb (isSymbol normalized) hidden = false.
Proof.
  induction hidden as [|x hidden IH]; simpl; [done|].
  destruct (isSymbol normalized x); [done|].
  destruct (indexOf normalized hidden); [done|]. intros _. by apply IH.
Qed.

Lemma indexOf_Some normalized hidden index :
  indexOf normalized hidden = Some index ->
  existsb (isSymbol normalized) hidden = true /\
  (length (List.filter (isSymbol normalized) hidden) <= 1 ->
   existsb (isSymbol normalized) (delete index hidden) = false)%nat.
Proof.
  revert index. induction hidden as [|x hidden IH]; intros index; simpl; [done|].
  destruct (isSymbol normalized x) eqn:E.
  - intros [= <-]. split; [done|]. simpl. intros Hlen.
    destruct (List.filter (isSymbol normalized) hidden) as [|y l] eqn:Hf;
      [|simpl in Hlen; lia].
    destruct (existsb (isSymbol normalized) hidden) eqn:Hex; [|done].
    apply existsb_exists in Hex as (y & Hy & Hs).
    assert (In y (List.filter (isSymbol normalized) hidden)) as Hin
      by by apply filter_In.
    by rewrite Hf in Hin.
  - destruct (indexOf normalized hidden) as [i|] eqn:Hi; [|done].
    intros [= <-]. destruct (IH i eq_refl) as [H1 H2]. split; [done|].
    simpl. rewrite E. simpl. exact H2.
Qed.

Section Flags.
Context (JSON_stringify : Json -> string) (JSON_parse : string -> option Json).
Hypothesis stringify_nonempty : forall v, JSON_stringify v <> EmptyString.

Local Abbreviation getAssets := (getAssets JSON_parse).
Local Abbreviation toggleAsset := (toggleAsset JSON_stringify JSON_parse).
Local Abbreviation isAssetFlagged := (isAssetFlagged JSON_parse).

(** X27. Toggling the hidden or the spam flag of an asset, when what is
    stored under the key is an array: the call pays no attention to the
    case of the symbol, returns whether the asset is flagged from now on,
    which is the opposite of what it was before, and stores the array
    with the symbol appended or with its first occurrence removed.  What
    it returns is what [isAssetHidden] (or [isAssetSpam]) answers
    afterwards, provided the stored array had the symbol at most once. *)
Theorem toggle_returns_the_new_flag key symbol ls hidden :
  getAssets key ls = JArray hidden ->
  let normalized := Js.toUpperCase symbol in
  let hidden' := match indexOf normalized hidden with
                 | None => hidden ++ [JString normalized]
                 | Some index => delete index hidden
                 end in
  CryptoVault.jsonSerializable JSON_stringify JSON_parse (JArray hidden') ->
  let r := toggleAsset key symbol ls in
  toggleAsset key normalized ls = r /\
  isAssetFlagged key symbol ls = Normal (existsb (isSymbol normalized) hidden) /\
  r.1 = Normal (negb (existsb (isSymbol normalized) hidden)) /\
  getAssets key r.2 = JArray hidden' /\
  ((length (List.filter (isSymbol normalized) hidden) <= 1)%nat ->
   isAssetFlagged key symbol r.2 = r.1).
Proof.
  intros Hget normalized hidden' Hjson r.
  assert (getAssets key (<[key := JSON_stringify (JArray hidden')]> ls) = JArray hidden')
    as Hstored.
  { unfold AssetFlags.getAssets. rewrite lookup_insert_eq.
    destruct (String.eqb _ EmptyString) eqn:E.
    { apply String.eqb_eq in E. by apply stringify_nonempty in E. }
    by rewrite Hjson. }
  subst r. unfold AssetFlags.toggleAsset, AssetFlags.isAssetFlagged.
  subst normalized. rewrite toUpperCase_idemp, Hget.
  split; [done|]. split; [done|]. subst hidden'.
  destruct (indexOf (Js.toUpperCase symbol) hidden) as [index|] eqn:Hi; cbn [fst snd].
  - destruct (indexOf_Some _ _ _ Hi) as [Hex Hdel]. rewrite Hex.
    split; [done|]. split; [done|].
    intros Hlen. rewrite Hstored. by rewrite Hdel.
  - rewrite (indexOf_None _ _ Hi). split; [done|]. split; [done|].
    intros _. rewrite Hstored, existsb_app. simpl.
    rewrite String.eqb_refl. by rewrite orb_true_r.
Qed.
End Flags.

Lemma toggle_returns_the_new_flag_witness :
  let before := JArray [JString "BTC"] in
  let after := JArray [JString "BTC"; JString "ETH"] in
  let parse := ToyJson.parse [before; after] in
  let ls : gmap string string :=
    {[ STORAGE_KEYS.HIDDEN_ASSETS := ToyJson.render before ]} in
  let r := toggleHiddenAsset ToyJson.render parse "eth" ls in
  r.1 = Normal true /\ isAssetHidden parse "eth" r.2 = Normal true.
Proof.
  intros before after parse ls r.
  destruct (toggle_returns_the_new_flag ToyJson.render parse
              PersistenceProps.render_nonempty
              STORAGE_KEYS.HIDDEN_ASSETS "eth" ls [JString "BTC"])
    as (_ & _ & H3 & _ & H5).
  - by vm_compute.
  - by vm_compute.
  - split; [exact H3|]. etrans; [apply H5; simpl; lia|exact H3].
Defined.

End AssetFlagsProps.
